(** * The entity exposure filter of the OpenAI Conversation integration

    A shallow embedding of [_custom_get_exposed_entities]
    (src/openai_conversation/__init__.py, lines 45-148) and the properties
    its specification states about it.

    The function is Python: attribute values are dynamically typed, the
    branches are chosen by [isinstance], and the host operations it calls
    ([/] on floats, [round], [str]) can raise.  The embedding keeps all
    three: a tagged value type with the class hierarchy that [isinstance]
    sees, binary64 arithmetic from the Standard Library's [SpecFloat], and
    an error monad for the exceptions.

    The file also embeds the image service that [async_setup] registers
    (lines 154-207): the schema of its call data and the handler
    [render_image], with the host and the client outside; and it embeds
    the filter a second time over a store of objects, where the lists and
    dictionaries are changed in place, to show what a call leaves behind. *)

From Stdlib Require Import ZArith String List DecimalString Decimal.
From Stdlib Require Import Floats.SpecFloat.
From stdpp Require Import gmap strings list fin_maps.

Open Scope Z_scope.

(** ** Exceptions and the error monad *)

(** The exceptions the host operations of the filter can raise. *)
Inductive PyExn :=
| OverflowError
| ValueError
| TypeError.

(** A computation returns a value or raises. *)
Inductive result (A : Type) :=
| Ok (a : A)
| Raise (e : PyExn).
Arguments Ok {A} a.
Arguments Raise {A} e.

#[global] Instance result_ret : MRet result := fun _ a => Ok a.
#[global] Instance result_bind : MBind result := fun _ _ f m =>
  match m with
  | Ok a => f a
  | Raise e => Raise e
  end.

Definition is_ok {A} (r : result A) : bool :=
  match r with
  | Ok _ => true
  | Raise _ => false
  end.

(** ** Host values

    The values a state attribute can hold, with as much of each as the
    filter's type tests and conversions look at. *)

(** What an [Enum] member is mixed with: [IntEnum] members are instances of
    [int], [StrEnum] members of [str]. *)
Inductive EnumMixin :=
| PlainEnum
| IntMixin (value : Z)
| StrMixin (value : string)
| FloatMixin (value : spec_float).

Record EnumMember := {
  enum_class : string;
  enum_name : string;
  enum_mixin : EnumMixin;
}.

(** [decimal.Decimal]: sign, coefficient and exponent, or a special value. *)
Inductive Decimal :=
| DFinite (sign : bool) (coefficient : N) (exponent : Z)
| DInfinity (sign : bool)
| DNaN (sign : bool) (signaling : bool) (payload : string).

(** [VObject] stands for every other object (a list, a dictionary, a
    [datetime]); the filter only ever copies such a value, and [repr] is
    what identifies it. *)
Inductive PyVal :=
| VNone
| VBool (b : bool)
| VInt (z : Z)
| VFloat (f : spec_float)
| VStr (s : string)
| VEnum (m : EnumMember)
| VDecimal (d : Decimal)
| VObject (repr : string).

(** The classes the filter tests against. *)
Inductive PyClass :=
| Cint
| Cfloat
| CEnum
| CDecimal.

(** [isinstance(v, c)] for one class: [bool] is a subclass of [int], and a
    mixed-in enumeration is an instance of its mixin. *)
Definition isinstance1 (v : PyVal) (c : PyClass) : bool :=
  match c, v with
  | Cint, VBool _ => true
  | Cint, VInt _ => true
  | Cint, VEnum {| enum_mixin := IntMixin _ |} => true
  | Cfloat, VFloat _ => true
  | Cfloat, VEnum {| enum_mixin := FloatMixin _ |} => true
  | CEnum, VEnum _ => true
  | CDecimal, VDecimal _ => true
  | _, _ => false
  end.

(** [isinstance(v, (c1, ..., cn))]. *)
Definition isinstance (v : PyVal) (cs : list PyClass) : bool :=
  existsb (isinstance1 v) cs.

(** ** Binary64 arithmetic *)

(** The format of a Python float: 53 bits of precision, exponents below
    1024.  [255.0], and [100] as the float that [*] turns it into. *)
Definition prec : Z := 53.
Definition emax : Z := 1024.

Definition float_of_Z (z : Z) : spec_float := binary_normalize prec emax z 0 false.

Definition float_255 : spec_float := float_of_Z 255.
Definition float_100 : spec_float := float_of_Z 100.

(** Conversion of an [int] operand to [float], as [int / float] does it:
    correctly rounded, [OverflowError] beyond the largest double. *)
Definition int_to_float (z : Z) : result spec_float :=
  match float_of_Z z with
  | S754_infinity _ => Raise OverflowError
  | f => Ok f
  end.

Definition bool_to_Z (b : bool) : Z := if b then 1 else 0.

(** The left operand of [attr_value / 255.0] as a float.  The source
    divides instances of [int] or [float] only; any other operand would be
    a [TypeError]. *)
Definition operand_to_float (v : PyVal) : result spec_float :=
  match v with
  | VBool b => int_to_float (bool_to_Z b)
  | VInt z => int_to_float z
  | VEnum {| enum_mixin := IntMixin z |} => int_to_float z
  | VFloat f => Ok f
  | VEnum {| enum_mixin := FloatMixin f |} => Ok f
  | _ => Raise TypeError
  end.

(** Nearest integer to [num / den], ties to the even one ([0 < den]). *)
Definition round_half_even (num den : Z) : Z :=
  let q := num / den in
  let r := num mod den in
  match 2 * r ?= den with
  | Lt => q
  | Gt => q + 1
  | Eq => if Z.even q then q else q + 1
  end.

(** [round(x)] on a float: the nearest integer, ties to even; infinities
    and NaN have no integer. *)
Definition py_round (x : spec_float) : result Z :=
  match x with
  | S754_zero _ => Ok 0
  | S754_finite s m e =>
      let n := if s then Z.neg m else Z.pos m in
      Ok (if 0 <=? e then n * 2 ^ e else round_half_even n (2 ^ (- e)))
  | S754_infinity _ => Raise OverflowError
  | S754_nan => Raise ValueError
  end.

(** ** [str] *)

Definition uint_str (n : N) : string := NilZero.string_of_uint (N.to_uint n).

(** The interpreter's default limit on the digits of an [int] converted to
    a string (sys.int_info.default_max_str_digits): beyond it [str] raises
    [ValueError]. *)
Definition int_max_str_digits : nat := 4300.

Definition int_str (z : Z) : result string :=
  let digits := uint_str (Z.abs_N z) in
  if Nat.ltb int_max_str_digits (String.length digits) then Raise ValueError
  else Ok ((if (z <? 0)%Z then "-" else "") ++ digits)%string.

Definition signed_str (z : Z) : string :=
  ((if (z <? 0)%Z then "-" else "+") ++ uint_str (Z.abs_N z))%string.

Fixpoint zeros (n : nat) : string :=
  match n with
  | O => ""
  | S n => ("0" ++ zeros n)%string
  end.

(** [Decimal.__str__]: the scientific string of the decimal arithmetic
    specification, exponent marker in capitals. *)
Definition decimal_str (d : Decimal) : string :=
  match d with
  | DInfinity s => (if s then "-" else "") ++ "Infinity"
  | DNaN s sig payload =>
      (if s then "-" else "") ++ (if sig then "sNaN" else "NaN") ++ payload
  | DFinite s c exp =>
      let int := uint_str c in
      let len := Z.of_nat (String.length int) in
      let leftdigits := (exp + len)%Z in
      let dotplace :=
        if ((exp <=? 0) && (-6 <? leftdigits))%Z then leftdigits else 1%Z in
      let intpart :=
        if (dotplace <=? 0)%Z then "0"
        else if (len <=? dotplace)%Z then int ++ zeros (Z.to_nat (dotplace - len))
        else String.substring 0 (Z.to_nat dotplace) int in
      let fracpart :=
        if (dotplace <=? 0)%Z then "." ++ zeros (Z.to_nat (- dotplace)) ++ int
        else if (len <=? dotplace)%Z then ""
        else "." ++ String.substring (Z.to_nat dotplace)
                      (String.length int - Z.to_nat dotplace) int in
      let exp_str :=
        if (leftdigits =? dotplace)%Z then ""
        else "E" ++ signed_str (leftdigits - dotplace) in
      (if s then "-" else "") ++ intpart ++ fracpart ++ exp_str
  end%string.

(** [Enum.__str__] is [Class.NAME]; [IntEnum] and [StrEnum] members print
    as their value (Python 3.11 and later; the module's [type] statement
    on line 31 needs 3.12). *)
Definition enum_str (m : EnumMember) : result string :=
  match enum_mixin m with
  | IntMixin z => int_str z
  | StrMixin s => Ok s
  | PlainEnum | FloatMixin _ => Ok (enum_class m ++ "." ++ enum_name m)%string
  end.

(** [str(v)].  The filter calls it on instances of [Enum], [Decimal] and
    [int] only.  The shortest-digits printing of a bare float, which it
    never asks for, is not modelled: the last case is a placeholder that no
    path of the filter reaches ([convert_attribute_cases] below). *)
Definition py_str (v : PyVal) : result string :=
  match v with
  | VNone => Ok "None"%string
  | VBool b => Ok (if b then "True" else "False")%string
  | VInt z => int_str z
  | VStr s => Ok s
  | VEnum m => enum_str m
  | VDecimal d => Ok (decimal_str d)
  | VObject repr => Ok repr
  | VFloat _ => Ok "<float>"%string
  end.

(** ** The registries and the state machine's snapshot *)

(** A [State] as the filter reads it.  [domain] and [name] are properties
    the host derives from the identifier and the attributes; the filter
    only reads them. *)
Record State := {
  entity_id : string;
  domain : string;
  name : string;
  state : string;
  attributes : list (string * PyVal);
}.

Record RegistryEntry := {
  aliases : list string;
  area_id : option string;
  device_id : option string;
}.

Record AreaEntry := {
  area_name : string;
  area_aliases : list string;
}.

Record DeviceEntry := {
  device_area_id : option string;
}.

(** What the filter reads of [hass]: [hass.states.async_all()], the three
    registries, and [async_should_expose(hass, assistant, entity_id)]. *)
Record HomeAssistant := {
  states : list State;
  entity_registry : gmap string RegistryEntry;
  area_registry : gmap string AreaEntry;
  device_registry : gmap string DeviceEntry;
  async_should_expose : string → string → bool;
}.

(** A value of the [info] dictionary: a string, or the attribute mapping. *)
Inductive InfoVal :=
| IStr (s : string)
| IDict (d : gmap string PyVal).

Abbreviation Info := (gmap string InfoVal).
Abbreviation Bucket := (gmap string Info).

(** ** The filter *)

(** The [DOMAIN] constants of the host's script and calendar components. *)
Definition SCRIPT_DOMAIN : string := "script".
Definition CALENDAR_DOMAIN : string := "calendar".

Definition interesting_attributes : gset string :=
  {[ "temperature"; "current_temperature"; "temperature_unit"; "brightness";
     "humidity"; "unit_of_measurement"; "device_class"; "current_position";
     "percentage"; "volume_level"; "media_title"; "media_artist";
     "media_album_name" ]}%string.

(** A [for] loop whose body can raise. *)
Fixpoint for_each {A S : Type} (body : S → A → result S) (l : list A) (s : S)
  : result S :=
  match l with
  | [] => Ok s
  | x :: l => s' ← body s x; for_each body l s'
  end.

(** [id and (x := registry.get(id))]: the lookup happens only for an
    identifier that is neither [None] nor empty. *)
Definition get_if_set {A : Type} (registry : gmap string A) (id : option string)
  : option A :=
  match id with
  | Some i => if String.eqb i "" then None else registry !! i
  | None => None
  end.

(** Lines 100-114: the area of the entity, else the area of its device. *)
Definition entity_area_names (hass : HomeAssistant) (entity_entry : RegistryEntry)
  : list string :=
  match get_if_set (area_registry hass) (area_id entity_entry) with
  | Some area => area_name area :: area_aliases area
  | None =>
      match get_if_set (device_registry hass) (device_id entity_entry) with
      | Some device =>
          match get_if_set (area_registry hass) (device_area_id device) with
          | Some area => area_name area :: area_aliases area
          | None => []
          end
      | None => []
      end
  end.

(** Float division and multiplication, rounding to nearest, ties to even. *)
Definition fdiv : spec_float → spec_float → spec_float := SFdiv prec emax.
Definition fmul : spec_float → spec_float → spec_float := SFmul prec emax.

(** Line 133: [round((attr_value / 255.0) * 100)]. *)
Definition rescale_brightness (attr_value : PyVal) : result PyVal :=
  x ← operand_to_float attr_value;
  n ← py_round (fmul (fdiv x float_255) float_100);
  Ok (VInt n).

(** Lines 131-137: what is stored for one interesting attribute. *)
Definition convert_attribute (attr_name : string) (attr_value : PyVal)
  : result PyVal :=
  if String.eqb attr_name "brightness" && isinstance attr_value [Cint; Cfloat]
  then rescale_brightness attr_value
  else if isinstance attr_value [CEnum; CDecimal; Cint]
  then s ← py_str attr_value; Ok (VStr s)
  else Ok attr_value.

(** Lines 129-137: the body of the loop over [state.attributes.items()]. *)
Definition attribute_step (attributes : gmap string PyVal)
    (item : string * PyVal) : result (gmap string PyVal) :=
  let '(attr_name, attr_value) := item in
  if bool_decide (attr_name ∈ interesting_attributes)
  then v ← convert_attribute attr_name attr_value;
       Ok (<[attr_name := v]> attributes)
  else Ok attributes.

(** Truth value of a list or a dictionary: it is not empty. *)
Definition nonempty_list {A : Type} (l : list A) : bool :=
  match l with
  | [] => false
  | _ :: _ => true
  end.

Definition nonempty_dict {A : Type} (d : gmap string A) : bool :=
  negb (Nat.eqb (size d) 0).

(** Truth value of [description: str | None]. *)
Definition truthy_description (description : option string) : option string :=
  match description with
  | Some d => if String.eqb d "" then None else Some d
  | None => None
  end.

(** Lines 93-140: the [info] dictionary of one exposed state. *)
Definition build_info (hass : HomeAssistant) (st : State) : result Info :=
  let description : option string := None in
  let entity_entry := entity_registry hass !! entity_id st in
  let names := [name st] in
  let area_names := [] in
  let '(names, area_names) :=
    match entity_entry with
    | Some entry => (names ++ aliases entry, area_names ++ entity_area_names hass entry)
    | None => (names, area_names)
    end in
  let info : Info :=
    {[ "names" := IStr (String.concat ", " names);
       "domain" := IStr (domain st);
       "state" := IStr (state st) ]}%string in
  let info :=
    match truthy_description description with
    | Some d => <["description"%string := IStr d]> info
    | None => info
    end in
  let info :=
    if nonempty_list area_names
    then <["areas"%string := IStr (String.concat ", " area_names)]> info
    else info in
  attrs ← for_each attribute_step (attributes st) ∅;
  let info :=
    if nonempty_dict attrs
    then <["attributes"%string := IDict attrs]> info
    else info in
  Ok info.

(** Lines 142-145: the bucket of the state's domain when [data] has one,
    else the catch-all. *)
Definition route (st : State) (info : Info)
    (acc : Bucket * gmap string Bucket) : Bucket * gmap string Bucket :=
  let '(entities, data) := acc in
  match data !! domain st with
  | Some bucket => (entities, <[domain st := <[entity_id st := info]> bucket]> data)
  | None => (<[entity_id st := info]> entities, data)
  end.

(** Lines 89-145: the body of the loop over the states. *)
Definition state_step (hass : HomeAssistant) (assistant : string)
    (acc : Bucket * gmap string Bucket) (st : State)
  : result (Bucket * gmap string Bucket) :=
  if negb (async_should_expose hass assistant (entity_id st)) then Ok acc
  else info ← build_info hass st; Ok (route st info acc).

(** Lines 45-148.  Get exposed entities; splits out calendars and
    scripts. *)
Definition _custom_get_exposed_entities (hass : HomeAssistant) (assistant : string)
  : result (gmap string Bucket) :=
  let entities : Bucket := ∅ in
  let data : gmap string Bucket := {[ SCRIPT_DOMAIN := ∅; CALENDAR_DOMAIN := ∅ ]} in
  acc ← for_each (state_step hass assistant) (states hass) (entities, data);
  let '(entities, data) := acc in
  Ok (<["entities"%string := entities]> data).

(** * The vocabulary of the statements

    Nothing below is part of the filter: these are the notions its
    specification speaks in. *)

(** ** Reading a report *)

(** The key under which the filter files a state. *)
Definition bucket_key (st : State) : string :=
  if String.eqb (domain st) SCRIPT_DOMAIN then SCRIPT_DOMAIN
  else if String.eqb (domain st) CALENDAR_DOMAIN then CALENDAR_DOMAIN
  else "entities".

(** The [info] filed under identifier [id] in the mapping at key [k]. *)
Definition filed (out : gmap string Bucket) (k id : string) : option Info :=
  out !! k ≫= (.!! id).

(** The exposure predicate accepts the state for the assistant. *)
Definition exposed (hass : HomeAssistant) (assistant : string) (st : State) : Prop :=
  async_should_expose hass assistant (entity_id st) = true.

(** The place a state is routed to while the loop runs: a key of [data],
    or the catch-all ([None]). *)
Definition slot (acc : Bucket * gmap string Bucket) (k : option string)
    (id : string) : option Info :=
  match k with
  | Some d => acc.2 !! d ≫= (.!! id)
  | None => acc.1 !! id
  end.

(** The slot line 142 chooses for a state. *)
Definition place (data : gmap string Bucket) (st : State) : option string :=
  match data !! domain st with
  | Some _ => Some (domain st)
  | None => None
  end.

(** [data] as the loop starts. *)
Definition initial_data : gmap string Bucket :=
  {[ SCRIPT_DOMAIN := ∅; CALENDAR_DOMAIN := ∅ ]}.

(** ** Attributes, names and areas *)

(** The name is one the filter keeps. *)
Definition interesting (attr_name : string) : Prop :=
  attr_name ∈ interesting_attributes.

(** The names and the area names that [build_info] collects. *)
Definition display_names (hass : HomeAssistant) (st : State) : list string :=
  name st ::
  match entity_registry hass !! entity_id st with
  | Some entry => aliases entry
  | None => []
  end.

Definition area_names_of (hass : HomeAssistant) (st : State) : list string :=
  match entity_registry hass !! entity_id st with
  | Some entry => entity_area_names hass entry
  | None => []
  end.

(** What [build_info] returns for a state, field by field; [attrs] is the
    mapping its attribute loop ends with. *)
Record info_of (hass : HomeAssistant) (st : State) (info : Info)
    (attrs : gmap string PyVal) : Prop := {
  info_attrs_loop : for_each attribute_step (attributes st) ∅ = Ok attrs;
  info_names :
    info !! "names"%string
    = Some (IStr (String.concat ", " (display_names hass st)));
  info_domain : info !! "domain"%string = Some (IStr (domain st));
  info_state : info !! "state"%string = Some (IStr (state st));
  info_description : info !! "description"%string = None;
  info_areas :
    info !! "areas"%string =
    if nonempty_list (area_names_of hass st)
    then Some (IStr (String.concat ", " (area_names_of hass st))) else None;
  info_attributes :
    info !! "attributes"%string =
    if nonempty_dict attrs then Some (IDict attrs) else None;
}.

(** [build_info] with its bindings unfolded. *)
Definition info_with (hass : HomeAssistant) (st : State)
    (attrs : gmap string PyVal) : Info :=
  let info : Info :=
    {[ "names" := IStr (String.concat ", " (display_names hass st));
       "domain" := IStr (domain st);
       "state" := IStr (state st) ]}%string in
  let info :=
    if nonempty_list (area_names_of hass st)
    then <["areas"%string := IStr (String.concat ", " (area_names_of hass st))]> info
    else info in
  if nonempty_dict attrs then <["attributes"%string := IDict attrs]> info else info.

(** ** Kinds of values *)

(** The values the specification calls numeric: integers and floats. *)
Definition is_number (v : PyVal) : Prop :=
  match v with
  | VInt _ | VFloat _ => True
  | _ => False
  end.

(** The exact percentage of a raw brightness: the integer nearest to
    [z * 100 / 255], ties to even. *)
Definition brightness_percent (z : Z) : Z := round_half_even (z * 100) 255.

(** The float computation gives the exact percentage of [z], from the
    [int] and from the float of the same value. *)
Definition rescales_exactly (z : Z) : bool :=
  match rescale_brightness (VInt z), rescale_brightness (VFloat (float_of_Z z)) with
  | Ok (VInt n), Ok (VInt m) => (n =? brightness_percent z) && (m =? brightness_percent z)
  | _, _ => false
  end.

(** A finite double: zero, or at most 53 bits of mantissa with an
    exponent of at most 971. *)
Definition finite_double (x : spec_float) : Prop :=
  match x with
  | S754_zero _ => True
  | S754_finite _ m e => Z.pos m < 2 ^ 53 ∧ e ≤ 971
  | S754_infinity _ | S754_nan => False
  end.

(** A finite double of magnitude at most [B * 2 ^ b]. *)
Definition below (B b : Z) (x : spec_float) : Prop :=
  match x with
  | S754_zero _ => True
  | S754_finite _ m e => Z.pos m < 2 ^ 53 ∧ e ≤ 971 ∧ Z.pos m ≤ B * 2 ^ (b - e)
  | S754_infinity _ | S754_nan => False
  end.

(** The value has a float to divide, and that float is a finite double. *)
Definition finite_operand (v : PyVal) : Prop :=
  ∃ x, operand_to_float v = Ok x ∧ finite_double x.

(** The thirteen names of the allow-list, as the specification lists
    them. *)
Definition allow_list : list string :=
  [ "temperature"; "current_temperature"; "temperature_unit"; "brightness";
    "humidity"; "unit_of_measurement"; "device_class"; "current_position";
    "percentage"; "volume_level"; "media_title"; "media_artist";
    "media_album_name" ]%string.

(** The values the interpreter takes for an [int] or a [float]: booleans
    and the members of an enumeration mixed with either count. *)
Definition host_numeric (v : PyVal) : bool :=
  match v with
  | VBool _ | VInt _ | VFloat _ => true
  | VEnum m =>
      match enum_mixin m with
      | IntMixin _ | FloatMixin _ => true
      | PlainEnum | StrMixin _ => false
      end
  | VNone | VStr _ | VDecimal _ | VObject _ => false
  end.

(** The values that are stored as their string. *)
Definition stringified (v : PyVal) : bool :=
  match v with
  | VBool _ | VInt _ | VEnum _ | VDecimal _ => true
  | VNone | VFloat _ | VStr _ | VObject _ => false
  end.

(** An identifier resolves in a registry when it is set, not empty, and
    the registry has a record for it. *)
Definition resolves {A : Type} (registry : gmap string A) (id : option string)
    (record : A) : Prop :=
  ∃ i, id = Some i ∧ i ≠ ""%string ∧ registry !! i = Some record.

(** No record answers the identifier. *)
Definition unresolved {A : Type} (registry : gmap string A) (id : option string)
  : Prop :=
  ∀ record, ¬ resolves registry id record.

(** An area as the areas field shows it. *)
Definition area_label (area : AreaEntry) : string :=
  String.concat ", " (area_name area :: area_aliases area).

(** An item converts when it is not interesting or its conversion does not
    raise. *)
Definition item_converts (item : string * PyVal) : Prop :=
  interesting item.1 → is_ok (convert_attribute item.1 item.2) = true.

(** The integer that [str] prints for a value, when it prints one. *)
Definition printed_int (v : PyVal) : option Z :=
  match v with
  | VInt z => Some z
  | VEnum m =>
      match enum_mixin m with
      | IntMixin z => Some z
      | _ => None
      end
  | _ => None
  end.

(** More digits than [str] prints. *)
Definition too_long (z : Z) : Prop :=
  (int_max_str_digits < String.length (uint_str (Z.abs_N z)))%nat.

(** Values whose conversion succeeds: as a brightness, a boolean, a finite
    float, an integer below [2 ^ 1023] in magnitude, or anything that is
    not a number; elsewhere, any value but an integer too long to print. *)
Definition ordinary (k : string) (v : PyVal) : Prop :=
  match v with
  | VInt z =>
      if String.eqb k "brightness" then Z.abs z < 2 ^ 1023 else ¬ too_long z
  | VFloat x => k = "brightness"%string → finite_double x
  | VEnum m =>
      match enum_mixin m with
      | PlainEnum | StrMixin _ => True
      | IntMixin z =>
          if String.eqb k "brightness" then Z.abs z < 2 ^ 1023 else ¬ too_long z
      | FloatMixin x => k = "brightness"%string → finite_double x
      end
  | VNone | VBool _ | VStr _ | VDecimal _ | VObject _ => True
  end.

(** The same snapshot and predicate with nothing in the registries. *)
Definition without_registries (hass : HomeAssistant) : HomeAssistant := {|
  states := states hass;
  entity_registry := ∅;
  area_registry := ∅;
  device_registry := ∅;
  async_should_expose := async_should_expose hass;
|}.

(** ** A household to run the filter on *)

Module Example.

Definition bedroom_light : State := {|
  entity_id := "light.bedroom";
  domain := "light";
  name := "Light 1";
  state := "on";
  attributes := [ ("brightness", VInt 128);
                  ("friendly_name", VStr "Light 1");
                  ("device_class", VEnum {| enum_class := "LightDeviceClass";
                                            enum_name := "LAMP";
                                            enum_mixin := StrMixin "lamp" |});
                  ("supported_color_modes", VObject "['brightness']") ]%string;
|}.

Definition hall_sensor : State := {|
  entity_id := "sensor.hall";
  domain := "sensor";
  name := "Hall";
  state := "21.5";
  attributes := [ ("unit_of_measurement", VStr "C");
                  ("humidity", VInt 40);
                  ("temperature", VDecimal (DFinite false 215 (-1))) ]%string;
|}.

Definition goodnight : State := {|
  entity_id := "script.goodnight";
  domain := "script";
  name := "Good night";
  state := "off";
  attributes := [ ("last_triggered", VNone) ]%string;
|}.

Definition family_calendar : State := {|
  entity_id := "calendar.family";
  domain := "calendar";
  name := "Family";
  state := "off";
  attributes := [];
|}.

Definition front_door : State := {|
  entity_id := "lock.front_door";
  domain := "lock";
  name := "Front door";
  state := "locked";
  attributes := [];
|}.

Definition expose (assistant id : string) : bool :=
  String.eqb assistant "conversation" && negb (String.eqb id "lock.front_door").

Definition hass : HomeAssistant := {|
  states := [bedroom_light; hall_sensor; goodnight; family_calendar; front_door];
  entity_registry :=
    {[ "light.bedroom" := {| aliases := ["Lamp A"; "Bedroom Lamp"];
                             area_id := Some "bedroom";
                             device_id := Some "hue1" |};
       "sensor.hall" := {| aliases := [];
                           area_id := None;
                           device_id := Some "hue1" |} ]}%string;
  area_registry :=
    {[ "bedroom" := {| area_name := "Bedroom"; area_aliases := ["Sleeping room"] |};
       "hall" := {| area_name := "Hall"; area_aliases := [] |} ]}%string;
  device_registry := {[ "hue1" := {| device_area_id := Some "hall" |} ]}%string;
  async_should_expose := expose;
|}.

(** The report of a call that returned, and the [info] filed in it. *)
Definition report_of (r : result (gmap string Bucket)) : gmap string Bucket :=
  match r with
  | Ok out => out
  | Raise _ => ∅
  end.

Definition report : gmap string Bucket :=
  report_of (_custom_get_exposed_entities hass "conversation").

(** The attribute mapping of the entry filed under [k] and [id], empty when
    there is none. *)
Definition attributes_at (out : gmap string Bucket) (k id : string)
  : gmap string PyVal :=
  match filed out k id ≫= (.!! "attributes"%string) with
  | Some (IDict attrs) => attrs
  | _ => ∅
  end.

(** A snapshot with a light whose brightness is not a number. *)
Definition nan_light : State := {|
  entity_id := "light.porch";
  domain := "light";
  name := "Porch";
  state := "on";
  attributes := [ ("brightness", VFloat S754_nan) ]%string;
|}.

Definition hass_nan : HomeAssistant := {|
  states := [nan_light];
  entity_registry := ∅;
  area_registry := ∅;
  device_registry := ∅;
  async_should_expose := expose;
|}.

(** A snapshot with a boolean under an allowed attribute name. *)
Definition muted_player : State := {|
  entity_id := "media_player.tv";
  domain := "media_player";
  name := "TV";
  state := "playing";
  attributes := [ ("volume_level", VBool true) ]%string;
|}.

Definition hass_bool : HomeAssistant := {|
  states := [muted_player];
  entity_registry := ∅;
  area_registry := ∅;
  device_registry := ∅;
  async_should_expose := expose;
|}.

Definition report_bool : gmap string Bucket :=
  report_of (_custom_get_exposed_entities hass_bool "conversation").

End Example.

(** ** Vocabulary of the further properties *)

(** The snapshot replaced, everything else kept. *)
Definition with_states (l : list State) (hass : HomeAssistant) : HomeAssistant := {|
  states := l;
  entity_registry := entity_registry hass;
  area_registry := area_registry hass;
  device_registry := device_registry hass;
  async_should_expose := async_should_expose hass;
|}.

(** The states of the snapshot that the predicate accepts, in order. *)
Definition exposed_states (hass : HomeAssistant) (assistant : string) : list State :=
  List.filter (λ st, async_should_expose hass assistant (entity_id st)) (states hass).

(** The report of a call that found nothing to expose. *)
Definition empty_report : gmap string Bucket :=
  {[ "script" := ∅; "calendar" := ∅; "entities" := ∅ ]}%string.

(** The five keys an [info] can have. *)
Definition info_keys : list string :=
  [ "names"; "domain"; "state"; "areas"; "attributes" ]%string.

(** The entry of the example report under a key and an identifier, empty
    when there is none. *)
Definition example_entry (k id : string) : Info :=
  default ∅ (filed Example.report k id).

(** The example household with every state exposed, and its report. *)
Definition example_hass_all : HomeAssistant := {|
  states := states Example.hass;
  entity_registry := entity_registry Example.hass;
  area_registry := area_registry Example.hass;
  device_registry := device_registry Example.hass;
  async_should_expose := λ _ _, true;
|}.

Definition example_report_all : gmap string Bucket :=
  Example.report_of (_custom_get_exposed_entities example_hass_all "conversation").

(** A snapshot in which the identifier of the bedroom light comes twice:
    first the light as it is in the example, last the same light switched
    off. *)
Definition bedroom_light_off : State := {|
  entity_id := "light.bedroom";
  domain := "light";
  name := "Light 1";
  state := "off";
  attributes := [ ("brightness", VInt 0) ]%string;
|}.

Definition example_hass_repeated : HomeAssistant :=
  with_states [Example.bedroom_light; Example.hall_sensor; bedroom_light_off]
    Example.hass.

Definition example_report_repeated : gmap string Bucket :=
  Example.report_of (_custom_get_exposed_entities example_hass_repeated "conversation").

(** The kinds of value an output attribute mapping can hold under a name:
    an integer under brightness only, a float anywhere else, and strings,
    [None] and other objects anywhere. *)
Definition output_kind (k : string) (v : PyVal) : Prop :=
  match v with
  | VInt _ => k = "brightness"%string
  | VFloat _ => k ≠ "brightness"%string
  | VStr _ | VNone | VObject _ => True
  | VBool _ | VEnum _ | VDecimal _ => False
  end.

(** The percentages of the raw integers 0..255 stay within 0..100. *)
Definition percent_in_range (z : Z) : bool :=
  (0 <=? brightness_percent z) && (brightness_percent z <=? 100).

(** The percentage does not decrease from one raw integer to the next. *)
Definition percent_steps_up (z : Z) : bool :=
  brightness_percent z <=? brightness_percent (z + 1).

(** Some raw integer 0..255 has the percentage [n]. *)
Definition percent_reached (n : Z) : bool :=
  existsb (λ z, brightness_percent z =? n) (seqZ 0 256).

(** The mapping under a key of a report, empty when the key is not there,
    and the number of entries of a report, its three mappings together. *)
Definition bucket (out : gmap string Bucket) (k : string) : Bucket :=
  default ∅ (out !! k).

Definition entry_count (out : gmap string Bucket) : nat :=
  (size (bucket out "script") + size (bucket out "calendar")
   + size (bucket out "entities"))%nat.

(** The exposed states of a list that the filter files under key [k]. *)
Definition filed_states (hass : HomeAssistant) (assistant k : string)
    (l : list State) : list State :=
  filter (λ st, async_should_expose hass assistant (entity_id st) = true ∧
                bucket_key st = k) l.

(** * The image service

    [async_setup] (lines 154-207) registers one service, [generate_image],
    with a handler, [render_image], and a schema the host validates the call
    data against before the handler runs. *)

(** ** The schema language

    The fragment of voluptuous that the schema of lines 190-204 is written
    in: a mapping schema with [Required] and [Optional] string keys, under
    the library's defaults (a key that no entry of the schema matches is
    refused; only marked keys are required).  The call data is a mapping
    from strings. *)

(** A validator returns the validated value or rejects. *)
Definition Validator : Type := PyVal → option PyVal.

(** [vol.Required(schema)] and [vol.Optional(schema, default=...)]: the key,
    whether it must be present, and the value to insert when it is absent. *)
Record Marker := {
  marker_schema : string;
  marker_required : bool;
  marker_default : option PyVal;
}.

Definition Required (schema : string) : Marker :=
  {| marker_schema := schema; marker_required := true; marker_default := None |}.

Definition Optional (schema : string) (default : PyVal) : Marker :=
  {| marker_schema := schema; marker_required := false;
     marker_default := Some default |}.

(** A mapping schema: marked keys with the validators of their values. *)
Definition Schema : Type := list (Marker * Validator).

(** [v == s] for a string [s]: a string with the same characters, or a member
    of an enumeration mixed with [str] whose value has them.  No other value
    of [PyVal] compares equal to a string. *)
Definition str_eq (v : PyVal) (s : string) : bool :=
  match v with
  | VStr t => String.eqb t s
  | VEnum {| enum_mixin := StrMixin t |} => String.eqb t s
  | _ => false
  end.

(** [vol.In(container)]: the value itself when it is in the container. *)
Definition vol_In (container : list string) : Validator := λ v,
  if existsb (str_eq v) container then Some v else None.

(** The defaults of the keys the data does not have, inserted before
    anything is validated; a default is then validated like a given value. *)
Definition insert_defaults (schema : Schema) (data : gmap string PyVal)
  : gmap string PyVal :=
  foldl (λ key_value_map '(key, _),
           match marker_default key with
           | Some default =>
               match key_value_map !! marker_schema key with
               | Some _ => key_value_map
               | None => <[marker_schema key := default]> key_value_map
               end
           | None => key_value_map
           end) data schema.

(** The schema entry a key of the data is validated by. *)
Definition candidate (schema : Schema) (key : string) : option (Marker * Validator) :=
  List.find (λ '(skey, _), String.eqb (marker_schema skey) key) schema.

(** One item of the data: a key without an entry is an extra key, which is
    not allowed; otherwise the entry's validator decides. *)
Definition validate_item (schema : Schema) (key : string) (value : PyVal)
  : option PyVal :=
  '(_, cvalue) ← candidate schema key; cvalue value.

(** Every key marked [Required] is in the data. *)
Definition required_keys_provided (schema : Schema)
    (key_value_map : gmap string PyVal) : bool :=
  forallb (λ '(skey, _),
             negb (marker_required skey) ||
             bool_decide (is_Some (key_value_map !! marker_schema skey)))
          schema.

(** [vol.Schema(schema)(data)] for a mapping schema: defaults are inserted,
    every item is validated, and the data is rejected when one item is, or
    when a required key is not provided. *)
Definition validate_mapping (schema : Schema) (data : gmap string PyVal)
  : option (gmap string PyVal) :=
  let key_value_map := insert_defaults schema data in
  if bool_decide (map_Forall (λ key value,
                    is_Some (validate_item schema key value)) key_value_map)
     && required_keys_provided schema key_value_map
  then Some (map_imap (validate_item schema) key_value_map)
  else None.

(** ** The host and the client *)

(** The keyword arguments of [client.images.generate]. *)
Record ImageRequest := {
  request_model : string;
  request_prompt : PyVal;
  request_size : PyVal;
  request_quality : PyVal;
  request_style : PyVal;
  request_response_format : string;
  request_n : Z;
}.

(** What a call of the client comes to: a response with its [data], each
    image as the mapping of its fields; an [openai.OpenAIError], with its
    [str]; or another exception. *)
Inductive Generated :=
| Response (data : list (gmap string PyVal))
| OpenAIError (err : string)
| OtherError (err : string).

Record Client := {
  images_generate : ImageRequest → Generated;
}.

(** A config entry; [runtime_data] is unset until the entry is set up
    (line 228). *)
Record ConfigEntry := {
  entry_domain : string;
  runtime_data : option Client;
}.

(** What the module takes from outside: [DOMAIN] of [.const], the two
    validators of the helper libraries, and the host's config entries. *)
Record Integration := {
  DOMAIN : string;
  cv_string : Validator;
  ConfigEntrySelector : Validator;
  async_get_entry : PyVal → option ConfigEntry;
}.

(** ** The handler *)

Inductive ServiceExn :=
| KeyError (key : string)
| AttributeError (name : string)
| IndexError
| ServiceValidationError (translation_key : string) (config_entry : PyVal)
| HomeAssistantError (message : string)
| Propagated (err : string).

Inductive outcome (A : Type) :=
| Returns (a : A)
| Raises (e : ServiceExn).
Arguments Returns {A} a.
Arguments Raises {A} e.

#[global] Instance outcome_ret : MRet outcome := fun _ a => Returns a.
#[global] Instance outcome_bind : MBind outcome := fun _ _ f m =>
  match m with
  | Returns a => f a
  | Raises e => Raises e
  end.

(** [call.data[key]]. *)
Definition getitem (call_data : gmap string PyVal) (key : string) : outcome PyVal :=
  match call_data !! key with
  | Some v => Returns v
  | None => Raises (KeyError key)
  end.

(** [image.model_dump(exclude=...)]. *)
Definition model_dump (exclude : list string) (image : gmap string PyVal)
  : gmap string PyVal :=
  foldr delete image exclude.

(** Lines 159-169: the entry of the call and its client. *)
Definition entry_client (env : Integration) (entry_id : PyVal) : outcome Client :=
  match async_get_entry env entry_id with
  | Some entry =>
      if String.eqb (entry_domain entry) (DOMAIN env) then
        match runtime_data entry with
        | Some client => Returns client
        | None => Raises (AttributeError "runtime_data")
        end
      else Raises (ServiceValidationError "invalid_config_entry" entry_id)
  | None => Raises (ServiceValidationError "invalid_config_entry" entry_id)
  end.

(** The handler gives the requests it has sent to the client, in order, and
    its response or exception. *)
Definition render_image (env : Integration) (call_data : gmap string PyVal)
  : list ImageRequest * outcome (gmap string PyVal) :=
  let prepared : outcome (Client * ImageRequest) :=
    entry_id ← getitem call_data "config_entry";
    client ← entry_client env entry_id;
    prompt ← getitem call_data "prompt";
    size ← getitem call_data "size";
    quality ← getitem call_data "quality";
    style ← getitem call_data "style";
    mret (client, {| request_model := "dall-e-3";
                     request_prompt := prompt;
                     request_size := size;
                     request_quality := quality;
                     request_style := style;
                     request_response_format := "url";
                     request_n := 1 |}) in
  match prepared with
  | Raises e => ([], Raises e)
  | Returns (client, request) =>
      ([request],
       match images_generate client request with
       | Response data =>
           match data with
           | image :: _ => Returns (model_dump ["b64_json"] image)
           | [] => Raises IndexError
           end
       | OpenAIError err =>
           Raises (HomeAssistantError ("Error generating image: " ++ err))
       | OtherError err => Raises (Propagated err)
       end)
  end.

(** The schema of the service (lines 190-204). *)
Definition generate_image_schema (env : Integration) : Schema := [
  (Required "config_entry", ConfigEntrySelector env);
  (Required "prompt", cv_string env);
  (Optional "size" (VStr "1024x1024"),
   vol_In ["1024x1024"; "1024x1792"; "1792x1024"]);
  (Optional "quality" (VStr "standard"), vol_In ["standard"; "hd"]);
  (Optional "style" (VStr "vivid"), vol_In ["vivid"; "natural"])
].

(** ** Vocabulary of the service *)

Definition generate_image_keys : list string :=
  ["config_entry"; "prompt"; "size"; "quality"; "style"].

Definition sizes : list string := ["1024x1024"; "1024x1792"; "1792x1024"].
Definition qualities : list string := ["standard"; "hd"].
Definition styles : list string := ["vivid"; "natural"].

(** The value compares equal to a member of the container. *)
Definition one_of (container : list string) (v : PyVal) : Prop :=
  existsb (str_eq v) container = true.

(** The value of an optional key: the caller's, or the default. *)
Definition or_default (default : PyVal) (given : option PyVal) : PyVal :=
  match given with
  | Some v => v
  | None => default
  end.

(** The default the schema has for a key. *)
Fixpoint default_of (schema : Schema) (key : string) : option PyVal :=
  match schema with
  | [] => None
  | (skey, _) :: schema =>
      match marker_default skey with
      | Some default =>
          if String.eqb (marker_schema skey) key then Some default
          else default_of schema key
      | None => default_of schema key
      end
  end.

(** ** A call of the service to run the handler on *)

Definition example_image : gmap string PyVal :=
  {[ "b64_json" := VNone;
     "revised_prompt" := VStr "A lighthouse at dusk, in watercolour";
     "url" := VStr "https://images.example/lighthouse.png" ]}.

Definition example_client : Client := {|
  images_generate := λ request,
    match request_prompt request with
    | VStr _ => Response [example_image]
    | _ => OpenAIError "invalid prompt"
    end;
|}.

Definition example_integration : Integration := {|
  DOMAIN := "openai_conversation";
  cv_string := λ v, match v with VStr _ => Some v | _ => None end;
  ConfigEntrySelector := λ v, match v with VStr _ => Some v | _ => None end;
  async_get_entry := λ entry_id,
    match entry_id with
    | VStr id =>
        if String.eqb id "01JABCDEF" then
          Some {| entry_domain := "openai_conversation";
                  runtime_data := Some example_client |}
        else if String.eqb id "01JOTHER" then
          Some {| entry_domain := "ollama"; runtime_data := None |}
        else None
    | _ => None
    end;
|}.

(** The caller names the entry, the prompt and the quality. *)
Definition example_call : gmap string PyVal :=
  {[ "config_entry" := VStr "01JABCDEF";
     "prompt" := VStr "a lighthouse";
     "quality" := VStr "hd" ]}.

Definition example_call_data : gmap string PyVal :=
  {[ "config_entry" := VStr "01JABCDEF";
     "prompt" := VStr "a lighthouse";
     "size" := VStr "1024x1024";
     "quality" := VStr "hd";
     "style" := VStr "vivid" ]}.

Definition example_request : ImageRequest := {|
  request_model := "dall-e-3";
  request_prompt := VStr "a lighthouse";
  request_size := VStr "1024x1024";
  request_quality := VStr "hd";
  request_style := VStr "vivid";
  request_response_format := "url";
  request_n := 1;
|}.

(** * The filter over the store

    The filter once more, with the objects it handles kept in a store: the
    lists and dictionaries that [hass] hands out (the alias containers of
    the registries, the attribute mappings of the states) and the ones the
    call creates are objects at locations, a name is bound to a location,
    and [extend], [append] and item assignment change the object at a
    location in place.  Strings and attribute values are values; the
    registries and the snapshot are read through [hass] as before. *)

Module Heap.

Definition loc : Type := positive.

(** A dictionary, its items in insertion order. *)
Definition dict (V : Type) : Type := list (string * V).

(** [d[key] = value]: the value of an existing key is replaced where it
    stands, a new key goes to the end. *)
Fixpoint setitem {V : Type} (d : dict V) (key : string) (value : V) : dict V :=
  match d with
  | [] => [(key, value)]
  | (k, v) :: d =>
      if String.eqb k key then (k, value) :: d else (k, v) :: setitem d key value
  end.

(** [d.get(key)]. *)
Fixpoint get {V : Type} (d : dict V) (key : string) : option V :=
  match d with
  | [] => None
  | (k, v) :: d => if String.eqb k key then Some v else get d key
  end.

(** What an [info] dictionary holds under a key: a string, or the attribute
    dictionary by reference. *)
Inductive Slot :=
| SStr (s : string)
| SAttributes (l : loc).

(** The objects of the store, by what they are for the filter: a list or a
    set of strings, in the order its iteration gives; a dictionary of
    attribute values; an [info]; a dictionary from identifiers to [info]s;
    the dictionary [data]. *)
Inductive Obj :=
| OList (items : list string)
| OAttributes (items : dict PyVal)
| OInfo (items : dict Slot)
| OBucket (items : dict loc)
| OReport (items : dict loc).

Abbreviation heap := (gmap loc Obj).

(** A computation on the store: it returns or raises, and leaves a store. *)
Definition M (A : Type) : Type := heap → result A * heap.

#[global] Instance M_ret : MRet M := λ A a h, (Ok a, h).
#[global] Instance M_bind : MBind M := λ A B f m h,
  match m h with
  | (Ok a, h) => f a h
  | (Raise e, h) => (Raise e, h)
  end.

(** A host operation that does not touch the store. *)
Definition lift {A : Type} (r : result A) : M A := λ h, (r, h).

(** A new object, at a location the store does not have. *)
Definition alloc (o : Obj) : M loc := λ h,
  let l := fresh (dom h) in (Ok l, <[l := o]> h).

(** The object at a location, changed in place.  A location that holds an
    object of another kind is a [TypeError]; no well-formed store leads
    there. *)
Definition update (l : loc) (f : Obj → option Obj) : M unit := λ h,
  match h !! l ≫= f with
  | Some o => (Ok tt, <[l := o]> h)
  | None => (Raise TypeError, h)
  end.

Definition read {A : Type} (l : loc) (f : Obj → option A) : M A := λ h,
  match h !! l ≫= f with
  | Some a => (Ok a, h)
  | None => (Raise TypeError, h)
  end.

Definition as_list (o : Obj) : option (list string) :=
  match o with OList items => Some items | _ => None end.
Definition as_attributes (o : Obj) : option (dict PyVal) :=
  match o with OAttributes items => Some items | _ => None end.
Definition as_info (o : Obj) : option (dict Slot) :=
  match o with OInfo items => Some items | _ => None end.
Definition as_bucket (o : Obj) : option (dict loc) :=
  match o with OBucket items => Some items | _ => None end.
Definition as_report (o : Obj) : option (dict loc) :=
  match o with OReport items => Some items | _ => None end.

(** [l.append(x)] and [l.extend(iterable)]. *)
Definition append (l : loc) (x : string) : M unit :=
  update l (λ o, items ← as_list o; Some (OList (items ++ [x]))).

Definition extend (l : loc) (iterable : loc) : M unit :=
  xs ← read iterable as_list;
  update l (λ o, items ← as_list o; Some (OList (items ++ xs))).

(** Item assignment, for each kind of dictionary. *)
Definition attributes_setitem (l : loc) (key : string) (value : PyVal) : M unit :=
  update l (λ o, items ← as_attributes o; Some (OAttributes (setitem items key value))).
Definition info_setitem (l : loc) (key : string) (value : Slot) : M unit :=
  update l (λ o, items ← as_info o; Some (OInfo (setitem items key value))).
Definition bucket_setitem (l : loc) (key : string) (value : loc) : M unit :=
  update l (λ o, items ← as_bucket o; Some (OBucket (setitem items key value))).
Definition report_setitem (l : loc) (key : string) (value : loc) : M unit :=
  update l (λ o, items ← as_report o; Some (OReport (setitem items key value))).

(** A [for] loop over a list. *)
Fixpoint for_each {A : Type} (body : A → M unit) (l : list A) : M unit :=
  match l with
  | [] => mret tt
  | x :: l => body x;; for_each body l
  end.

(** The state and the registry entries hold their containers by
    reference. *)
Record State := {
  entity_id : string;
  domain : string;
  name : string;
  state : string;
  attributes : loc;
}.

Record RegistryEntry := {
  aliases : loc;
  area_id : option string;
  device_id : option string;
}.

Record AreaEntry := {
  area_name : string;
  area_aliases : loc;
}.

Record HomeAssistant := {
  states : list State;
  entity_registry : gmap string RegistryEntry;
  area_registry : gmap string AreaEntry;
  device_registry : gmap string DeviceEntry;
  async_should_expose : string → string → bool;
}.

(** Lines 104-105 and 113-114. *)
Definition add_area (area_names : loc) (area : AreaEntry) : M unit :=
  append area_names (area_name area);;
  extend area_names (area_aliases area).

(** Lines 100-114. *)
Definition entity_area_names (hass : HomeAssistant) (area_names : loc)
    (entity_entry : RegistryEntry) : M unit :=
  match get_if_set (area_registry hass) (area_id entity_entry) with
  | Some area => add_area area_names area
  | None =>
      match get_if_set (device_registry hass) (device_id entity_entry) with
      | Some device =>
          match get_if_set (area_registry hass) (device_area_id device) with
          | Some area => add_area area_names area
          | None => mret tt
          end
      | None => mret tt
      end
  end.

(** Lines 130-137: the body of the loop over [state.attributes.items()]. *)
Definition attribute_step (attributes : loc) (item : string * PyVal) : M unit :=
  let '(attr_name, attr_value) := item in
  if bool_decide (attr_name ∈ interesting_attributes)
  then v ← lift (convert_attribute attr_name attr_value);
       attributes_setitem attributes attr_name v
  else mret tt.

(** Lines 93-140: the [info] of one exposed state.  The items of
    [state.attributes] are read when the loop starts; the loop assigns to
    the new dictionary only. *)
Definition build_info (hass : HomeAssistant) (st : State) : M loc :=
  let description : option string := None in
  let entity_entry := entity_registry hass !! entity_id st in
  names ← alloc (OList [name st]);
  area_names ← alloc (OList []);
  match entity_entry with
  | Some entry =>
      extend names (aliases entry);;
      entity_area_names hass area_names entry
  | None => mret tt
  end;;
  names_now ← read names as_list;
  info ← alloc (OInfo [ ("names", SStr (String.concat ", " names_now));
                        ("domain", SStr (domain st));
                        ("state", SStr (state st)) ]);
  match truthy_description description with
  | Some d => info_setitem info "description" (SStr d)
  | None => mret tt
  end;;
  area_names_now ← read area_names as_list;
  (if nonempty_list area_names_now
   then info_setitem info "areas" (SStr (String.concat ", " area_names_now))
   else mret tt);;
  attributes_new ← alloc (OAttributes []);
  items ← read (attributes st) as_attributes;
  for_each (attribute_step attributes_new) items;;
  attributes_now ← read attributes_new as_attributes;
  (if nonempty_list attributes_now
   then info_setitem info "attributes" (SAttributes attributes_new)
   else mret tt);;
  mret info.

(** Lines 142-145. *)
Definition route (st : State) (info : loc) (entities data : loc) : M unit :=
  data_now ← read data as_report;
  match get data_now (domain st) with
  | Some bucket => bucket_setitem bucket (entity_id st) info
  | None => bucket_setitem entities (entity_id st) info
  end.

(** Lines 89-145: the body of the loop over the states. *)
Definition state_step (hass : HomeAssistant) (assistant : string)
    (entities data : loc) (st : State) : M unit :=
  if negb (async_should_expose hass assistant (entity_id st)) then mret tt
  else info ← build_info hass st; route st info entities data.

(** Lines 45-148. *)
Definition _custom_get_exposed_entities (hass : HomeAssistant) (assistant : string)
  : M loc :=
  entities ← alloc (OBucket []);
  script ← alloc (OBucket []);
  calendar ← alloc (OBucket []);
  data ← alloc (OReport [(SCRIPT_DOMAIN, script); (CALENDAR_DOMAIN, calendar)]);
  for_each (state_step hass assistant entities data) (states hass);;
  report_setitem data "entities" entities;;
  mret data.

End Heap.

(** ** Reading the store

    What the objects of the store are as the values of the first
    embedding. *)

(** A dictionary read through a reading of its values. *)
Definition read_dict {V W : Type} (f : V → option W) (d : Heap.dict V)
  : option (gmap string W) :=
  list_to_map <$> mapM (λ '(k, v), w ← f v; Some (k, w)) d.

Definition read_strings (h : Heap.heap) (l : Heap.loc) : option (list string) :=
  h !! l ≫= Heap.as_list.

Definition read_attributes (h : Heap.heap) (l : Heap.loc)
  : option (list (string * PyVal)) :=
  h !! l ≫= Heap.as_attributes.

Definition read_slot (h : Heap.heap) (slot : Heap.Slot) : option InfoVal :=
  match slot with
  | Heap.SStr s => Some (IStr s)
  | Heap.SAttributes l => items ← read_attributes h l; Some (IDict (list_to_map items))
  end.

Definition read_info (h : Heap.heap) (l : Heap.loc) : option Info :=
  items ← h !! l ≫= Heap.as_info; read_dict (read_slot h) items.

Definition read_bucket (h : Heap.heap) (l : Heap.loc) : option Bucket :=
  items ← h !! l ≫= Heap.as_bucket; read_dict (read_info h) items.

Definition read_report (h : Heap.heap) (l : Heap.loc) : option (gmap string Bucket) :=
  items ← h !! l ≫= Heap.as_report; read_dict (read_bucket h) items.

(** The result of a call: the report at the location it returned, or the
    exception. *)
Definition read_result (h : Heap.heap) (r : result Heap.loc)
  : option (result (gmap string Bucket)) :=
  match r with
  | Ok l => Ok <$> read_report h l
  | Raise e => Some (Raise e)
  end.

Definition read_state (h : Heap.heap) (st : Heap.State) : option State :=
  items ← read_attributes h (Heap.attributes st);
  Some {| entity_id := Heap.entity_id st;
          domain := Heap.domain st;
          name := Heap.name st;
          state := Heap.state st;
          attributes := items |}.

Definition read_entry (h : Heap.heap) (entry : Heap.RegistryEntry)
  : option RegistryEntry :=
  items ← read_strings h (Heap.aliases entry);
  Some {| aliases := items;
          area_id := Heap.area_id entry;
          device_id := Heap.device_id entry |}.

Definition read_area (h : Heap.heap) (area : Heap.AreaEntry) : option AreaEntry :=
  items ← read_strings h (Heap.area_aliases area);
  Some {| area_name := Heap.area_name area; area_aliases := items |}.

(** A registry whose records all read. *)
Definition read_registry {A B : Type} (f : A → option B) (registry : gmap string A)
  : option (gmap string B) :=
  if bool_decide (map_Forall (λ _ a, is_Some (f a)) registry)
  then Some (omap f registry) else None.

(** [hass] as the first embedding has it. *)
Definition read_hass (h : Heap.heap) (hass : Heap.HomeAssistant)
  : option HomeAssistant :=
  sts ← mapM (read_state h) (Heap.states hass);
  entries ← read_registry (read_entry h) (Heap.entity_registry hass);
  areas ← read_registry (read_area h) (Heap.area_registry hass);
  Some {| states := sts;
          entity_registry := entries;
          area_registry := areas;
          device_registry := Heap.device_registry hass;
          async_should_expose := Heap.async_should_expose hass |}.

(** [hass] of the first embedding is what the store holds for [hass_h]:
    [read_hass], item by item. *)
Record hass_in_store (h : Heap.heap) (hass_h : Heap.HomeAssistant)
    (hass : HomeAssistant) : Prop := {
  store_states :
    Forall2 (λ st_h st, read_state h st_h = Some st)
            (Heap.states hass_h) (states hass);
  store_entries :
    ∀ id, entity_registry hass !! id
          = Heap.entity_registry hass_h !! id ≫= read_entry h;
  store_entries_read :
    ∀ id entry_h, Heap.entity_registry hass_h !! id = Some entry_h →
                  is_Some (read_entry h entry_h);
  store_areas :
    ∀ id, area_registry hass !! id
          = Heap.area_registry hass_h !! id ≫= read_area h;
  store_areas_read :
    ∀ id area_h, Heap.area_registry hass_h !! id = Some area_h →
                 is_Some (read_area h area_h);
  store_devices : device_registry hass = Heap.device_registry hass_h;
  store_expose : async_should_expose hass = Heap.async_should_expose hass_h;
}.

(** [data] while the loop runs: the two buckets under their keys. *)
Definition data_of (script calendar : Bucket) : gmap string Bucket :=
  {[ SCRIPT_DOMAIN := script; CALENDAR_DOMAIN := calendar ]}.

(** ** The example household in a store *)

Definition example_heap : Heap.heap :=
  {[ 1%positive := Heap.OList ["Lamp A"; "Bedroom Lamp"];
     2%positive := Heap.OList [];
     3%positive := Heap.OList ["Sleeping room"];
     4%positive := Heap.OAttributes (attributes Example.bedroom_light);
     5%positive := Heap.OAttributes (attributes Example.hall_sensor);
     6%positive := Heap.OAttributes (attributes Example.goodnight);
     7%positive := Heap.OAttributes [] ]}.

Definition in_store (st : State) (l : Heap.loc) : Heap.State := {|
  Heap.entity_id := entity_id st;
  Heap.domain := domain st;
  Heap.name := name st;
  Heap.state := state st;
  Heap.attributes := l;
|}.

(** The sensor's entry and the hall share one empty alias container, the
    calendar and the lock one empty attribute mapping. *)
Definition example_hass_in_store : Heap.HomeAssistant := {|
  Heap.states := [ in_store Example.bedroom_light 4; in_store Example.hall_sensor 5;
                   in_store Example.goodnight 6; in_store Example.family_calendar 7;
                   in_store Example.front_door 7 ]%positive;
  Heap.entity_registry :=
    {[ "light.bedroom" := {| Heap.aliases := 1%positive;
                             Heap.area_id := Some "bedroom";
                             Heap.device_id := Some "hue1" |};
       "sensor.hall" := {| Heap.aliases := 2%positive;
                           Heap.area_id := None;
                           Heap.device_id := Some "hue1" |} ]}%string;
  Heap.area_registry :=
    {[ "bedroom" := {| Heap.area_name := "Bedroom"; Heap.area_aliases := 3%positive |};
       "hall" := {| Heap.area_name := "Hall"; Heap.area_aliases := 2%positive |} ]}%string;
  Heap.device_registry := device_registry Example.hass;
  Heap.async_should_expose := Example.expose;
|}.

(** A first call on the example store, and a second one on the store the
    first has left. *)
Definition example_first_call : result Heap.loc * Heap.heap :=
  Heap._custom_get_exposed_entities example_hass_in_store "conversation" example_heap.

Definition example_second_call : result Heap.loc * Heap.heap :=
  Heap._custom_get_exposed_entities example_hass_in_store "conversation"
    example_first_call.2.

(** * The proofs *)

(** ** Binary64: the rescaling of a finite double is finite

    [SpecFloat] rounds by shifting the mantissa right and adjusting it by
    the bits shifted out.  The lemmas follow the mantissa and the exponent
    through [binary_round_aux] with integer bounds. *)

Lemma digits2_pos_bound p :
  2 ^ (Z.pos (digits2_pos p) - 1) ≤ Z.pos p < 2 ^ Z.pos (digits2_pos p).
Proof.
  induction p as [p IH|p IH|]; simpl digits2_pos.
  - rewrite Pos2Z.inj_succ.
    replace (Z.succ (Z.pos (digits2_pos p)) - 1)
      with (Z.succ (Z.pos (digits2_pos p) - 1)) by lia.
    rewrite !Z.pow_succ_r by lia. lia.
  - rewrite Pos2Z.inj_succ.
    replace (Z.succ (Z.pos (digits2_pos p)) - 1)
      with (Z.succ (Z.pos (digits2_pos p) - 1)) by lia.
    rewrite !Z.pow_succ_r by lia. lia.
  - simpl. lia.
Qed.

Lemma Zdigits2_nonneg m : 0 ≤ Zdigits2 m.
Proof. destruct m; simpl; lia. Qed.

Lemma Zdigits2_lt m : 0 ≤ m → m < 2 ^ Zdigits2 m.
Proof.
  destruct m as [|p|p]; simpl; [lia | | lia]. intros _. apply digits2_pos_bound.
Qed.

Lemma Zdigits2_le m k : 0 ≤ k → 0 ≤ m < 2 ^ k → Zdigits2 m ≤ k.
Proof.
  intros Hk [Hm Hlt]. destruct m as [|p|p]; simpl; [lia | | lia].
  destruct (Z_le_gt_dec (Z.pos (digits2_pos p)) k) as [|Hgt]; [lia|].
  pose proof (digits2_pos_bound p) as [Hlo _].
  assert (2 ^ k ≤ 2 ^ (Z.pos (digits2_pos p) - 1)) by (apply Z.pow_le_mono_r; lia).
  lia.
Qed.

Lemma shr_1_m mrs : 0 ≤ shr_m mrs → shr_m (shr_1 mrs) = shr_m mrs / 2.
Proof.
  destruct mrs as [m r s]. cbn [shr_m]. intros Hm.
  destruct m as [|[p|p|]|p]; cbn [shr_1 shr_m]; try lia.
  - reflexivity.
  - apply Z.div_unique with 1; lia.
  - apply Z.div_unique with 0; lia.
  - reflexivity.
Qed.

Lemma iter_pos_shr_1 p mrs :
  0 ≤ shr_m mrs → shr_m (SpecFloat.iter_pos shr_1 p mrs) = shr_m mrs / 2 ^ Z.pos p.
Proof.
  revert mrs. induction p as [p IH|p IH|]; intros mrs Hm; simpl SpecFloat.iter_pos.
  - assert (0 ≤ shr_m (shr_1 mrs)) as H1
      by (rewrite shr_1_m by lia; apply Z.div_pos; lia).
    assert (0 ≤ shr_m (SpecFloat.iter_pos shr_1 p (shr_1 mrs))) as H2.
    { rewrite IH by lia. apply Z.div_pos; [lia|]. apply Z.pow_pos_nonneg; lia. }
    rewrite IH, IH, shr_1_m by lia.
    rewrite !Z.div_div by (try apply Z.pow_pos_nonneg; lia).
    f_equal. rewrite Pos2Z.inj_xI.
    rewrite <- Z.pow_add_r, <- Z.pow_succ_r by lia. f_equal. lia.
  - assert (0 ≤ shr_m (SpecFloat.iter_pos shr_1 p mrs)) as H2.
    { rewrite IH by lia. apply Z.div_pos; [lia|]. apply Z.pow_pos_nonneg; lia. }
    rewrite IH, IH by lia.
    rewrite !Z.div_div by (try apply Z.pow_pos_nonneg; lia).
    f_equal. rewrite Pos2Z.inj_xO. rewrite <- Z.pow_add_r by lia. f_equal. lia.
  - rewrite shr_1_m by lia. reflexivity.
Qed.

(** The exponent after [shr_fexp] and the mantissa it leaves. *)
Lemma shr_fexp_spec m e l :
  0 ≤ m ->
  let e' := Z.max e (fexp prec emax (Zdigits2 m + e)) in
  snd (shr_fexp prec emax m e l) = e' ∧
  shr_m (fst (shr_fexp prec emax m e l)) = m / 2 ^ (e' - e).
Proof.
  intros Hm e'. unfold shr_fexp, shr.
  assert (shr_m (shr_record_of_loc m l) = m) as Hrec.
  { destruct l as [|[]]; reflexivity. }
  destruct (fexp prec emax (Zdigits2 m + e) - e) as [|p|p] eqn:Hk; simpl.
  - assert (e' = e) as -> by (unfold e'; lia).
    rewrite Z.sub_diag, Z.div_1_r. auto.
  - assert (e' = e + Z.pos p) as -> by (unfold e'; lia).
    split; [reflexivity|].
    rewrite iter_pos_shr_1 by lia. rewrite Hrec. f_equal. f_equal. lia.
  - assert (e' = e) as -> by (unfold e'; lia).
    rewrite Z.sub_diag, Z.div_1_r. auto.
Qed.

Lemma round_nearest_even_bounds m l :
  m ≤ round_nearest_even m l ≤ m + 1.
Proof.
  unfold round_nearest_even. destruct l as [|[]]; try lia.
  destruct (Z.even m); lia.
Qed.

Lemma fexp_le k : fexp prec emax k ≤ Z.max (k - 53) (-1074).
Proof. unfold fexp, emin, prec, emax. lia. Qed.

Lemma fexp_ge k : k - 53 ≤ fexp prec emax k.
Proof. unfold fexp, emin, prec, emax. lia. Qed.

Lemma pow2_split a b : 0 ≤ a → 0 ≤ b → 2 ^ (a + b) = 2 ^ a * 2 ^ b.
Proof. intros. apply Z.pow_add_r; lia. Qed.

Lemma scale_bound B b K c :
  0 ≤ b → b ≤ K → c ≤ b →
  B * 2 ^ b ≤ 2 ^ K → B * 2 ^ (b - c) ≤ 2 ^ (K - c).
Proof.
  intros Hb HK Hc HB. destruct (Z_le_gt_dec 0 c) as [Hc0|Hc0].
  - apply Z.mul_le_mono_pos_r with (p := 2 ^ c); [apply Z.pow_pos_nonneg; lia|].
    rewrite <- Z.mul_assoc, <- !pow2_split by lia.
    replace (b - c + c) with b by lia. replace (K - c + c) with K by lia. exact HB.
  - replace (b - c) with (b + - c) by lia. replace (K - c) with (K + - c) by lia.
    rewrite !pow2_split by lia. rewrite Z.mul_assoc.
    apply Z.mul_le_mono_nonneg_r; [apply Z.pow_nonneg; lia | exact HB].
Qed.

Lemma shift_lt m B b e e' :
  0 ≤ m → e ≤ e' → e' ≤ b → m < B * 2 ^ (b - e) ->
  m / 2 ^ (e' - e) < B * 2 ^ (b - e').
Proof.
  intros Hm He He' Hlt.
  apply Z.div_lt_upper_bound; [apply Z.pow_pos_nonneg; lia|].
  rewrite (Z.mul_comm (2 ^ (e' - e))), <- Z.mul_assoc, <- pow2_split by lia.
  replace (b - e' + (e' - e)) with (b - e) by lia. exact Hlt.
Qed.

Lemma shift_le m B b e e' :
  0 ≤ m → e ≤ e' → e' ≤ b → m ≤ B * 2 ^ (b - e) ->
  m / 2 ^ (e' - e) ≤ B * 2 ^ (b - e').
Proof.
  intros Hm He He' Hle.
  apply Z.div_le_upper_bound; [apply Z.pow_pos_nonneg; lia|].
  rewrite (Z.mul_comm (2 ^ (e' - e))), <- Z.mul_assoc, <- pow2_split by lia.
  replace (b - e' + (e' - e)) with (b - e) by lia. exact Hle.
Qed.

(** A rounding whose input stays below [B * 2 ^ b], itself no more than
    [2 ^ 1023], is zero or a finite double below the same bound. *)
Lemma binary_round_aux_bounded sx mx ex lx B b :
  0 ≤ mx → 0 < B → 971 ≤ b → b ≤ 1023 → B * 2 ^ b ≤ 2 ^ 1023 ->
  ex ≤ 971 → mx < B * 2 ^ (b - ex) ->
  binary_round_aux prec emax sx mx ex lx = S754_zero sx ∨
  ∃ m e, binary_round_aux prec emax sx mx ex lx = S754_finite sx m e ∧
              e ≤ 971 ∧ Z.pos m < 2 ^ 53 ∧ Z.pos m ≤ B * 2 ^ (b - e).
Proof.
  intros Hmx HB Hb Hb' HBb Hex Hlt.
  unfold binary_round_aux.
  pose proof (shr_fexp_spec mx ex lx Hmx) as [He1 Hm1].
  destruct (shr_fexp prec emax mx ex lx) as [mrs1 e1]. cbn [fst snd] in He1, Hm1.
  rewrite <- He1 in Hm1.
  set (m2 := round_nearest_even (shr_m mrs1) (loc_of_shr_record mrs1)).
  (* the first shift *)
  assert (mx < 2 ^ (1023 - ex)) as Hmx_pow.
  { eapply Z.lt_le_trans; [exact Hlt|]. apply scale_bound; lia. }
  assert (Zdigits2 mx + ex ≤ 1023) as Hd1.
  { assert (Zdigits2 mx ≤ 1023 - ex) by (apply Zdigits2_le; lia). lia. }
  assert (ex ≤ e1 ≤ 971) as He1b.
  { pose proof (fexp_le (Zdigits2 mx + ex)). lia. }
  assert (0 ≤ shr_m mrs1 < B * 2 ^ (b - e1)) as Hm1b.
  { rewrite Hm1. split.
    - apply Z.div_pos; [lia | apply Z.pow_pos_nonneg; lia].
    - apply shift_lt; lia. }
  assert (0 ≤ m2 ≤ B * 2 ^ (b - e1)) as Hm2b.
  { pose proof (round_nearest_even_bounds (shr_m mrs1) (loc_of_shr_record mrs1)).
    fold m2 in H. lia. }
  (* the second shift *)
  pose proof (shr_fexp_spec m2 e1 loc_Exact (proj1 Hm2b)) as [He3 Hm3].
  destruct (shr_fexp prec emax m2 e1 loc_Exact) as [mrs3 e3].
  cbn [fst snd] in He3, Hm3. rewrite <- He3 in Hm3.
  assert (m2 < 2 ^ (1024 - e1)) as Hm2_pow.
  { assert (B * 2 ^ (b - e1) ≤ 2 ^ (1023 - e1)) by (apply scale_bound; lia).
    assert (2 ^ (1023 - e1) < 2 ^ (1024 - e1)) by (apply Z.pow_lt_mono_r; lia).
    lia. }
  assert (Zdigits2 m2 + e1 ≤ 1024) as Hd2.
  { assert (Zdigits2 m2 ≤ 1024 - e1) by (apply Zdigits2_le; lia). lia. }
  assert (e1 ≤ e3 ≤ 971) as He3b.
  { pose proof (fexp_le (Zdigits2 m2 + e1)). lia. }
  assert (0 ≤ shr_m mrs3 ≤ B * 2 ^ (b - e3)) as Hm3b.
  { rewrite Hm3. split.
    - apply Z.div_pos; [lia | apply Z.pow_pos_nonneg; lia].
    - apply shift_le; lia. }
  assert (shr_m mrs3 < 2 ^ 53) as Hm3_53.
  { rewrite Hm3. apply Z.div_lt_upper_bound; [apply Z.pow_pos_nonneg; lia|].
    pose proof (fexp_ge (Zdigits2 m2 + e1)) as Hge.
    pose proof (Zdigits2_lt m2 (proj1 Hm2b)) as Hlt2.
    pose proof (Zdigits2_nonneg m2).
    eapply Z.lt_le_trans; [exact Hlt2|].
    rewrite <- pow2_split by lia. apply Z.pow_le_mono_r; lia. }
  destruct (shr_m mrs3) as [|m|m] eqn:Hm; [left; reflexivity | | lia].
  right. exists m, e3.
  replace (e3 <=? emax - prec) with true
    by (symmetry; apply Z.leb_le; unfold emax, prec; lia).
  repeat split; lia.
Qed.

(** What [binary_round_aux] returns as finite is a double: at most 53 bits,
    exponent at most 971. *)
Lemma binary_round_aux_fits sx mx ex lx m e :
  0 ≤ mx ->
  binary_round_aux prec emax sx mx ex lx = S754_finite sx m e ->
  Z.pos m < 2 ^ 53 ∧ e ≤ 971.
Proof.
  intros Hmx. unfold binary_round_aux.
  pose proof (shr_fexp_spec mx ex lx Hmx) as [He1 Hm1].
  destruct (shr_fexp prec emax mx ex lx) as [mrs1 e1]. cbn [fst snd] in He1, Hm1.
  rewrite <- He1 in Hm1.
  set (m2 := round_nearest_even (shr_m mrs1) (loc_of_shr_record mrs1)).
  assert (0 ≤ m2) as Hm2.
  { pose proof (round_nearest_even_bounds (shr_m mrs1) (loc_of_shr_record mrs1)) as H.
    fold m2 in H. assert (0 ≤ shr_m mrs1); [|lia].
    rewrite Hm1. apply Z.div_pos; [lia | apply Z.pow_pos_nonneg; lia]. }
  pose proof (shr_fexp_spec m2 e1 loc_Exact Hm2) as [He3 Hm3].
  destruct (shr_fexp prec emax m2 e1 loc_Exact) as [mrs3 e3].
  cbn [fst snd] in He3, Hm3. rewrite <- He3 in Hm3.
  assert (shr_m mrs3 < 2 ^ 53) as Hm3_53.
  { rewrite Hm3. apply Z.div_lt_upper_bound; [apply Z.pow_pos_nonneg; lia|].
    pose proof (fexp_ge (Zdigits2 m2 + e1)) as Hge.
    pose proof (Zdigits2_lt m2 Hm2) as Hlt2.
    pose proof (Zdigits2_nonneg m2).
    eapply Z.lt_le_trans; [exact Hlt2|].
    rewrite <- pow2_split by lia. apply Z.pow_le_mono_r; lia. }
  destruct (shr_m mrs3) as [|m'|m'] eqn:Hm; [discriminate | | discriminate].
  destruct (Z.leb_spec e3 (emax - prec)) as [Hle|Hgt]; [|discriminate].
  intros [= <- <-]. unfold emax, prec in Hle. lia.
Qed.

Lemma float_255_eq : float_255 = S754_finite false 8972014882652160 (-45).
Proof. reflexivity. Qed.

Lemma float_100_eq : float_100 = S754_finite false 7036874417766400 (-46).
Proof. reflexivity. Qed.

(** A double divided by 255.0 stays below [5 * 2 ^ 1014]. *)
Lemma fdiv_255_below x : finite_double x → below 5 1014 (fdiv x float_255).
Proof.
  rewrite float_255_eq. destruct x as [s|s| |s m e]; simpl; try done.
  intros [Hm He]. unfold fdiv, SFdiv.
  destruct (SFdiv_core_binary prec emax (Z.pos m) e 8972014882652160 (-45))
    as [[q e'] l] eqn:Hcore.
  unfold SFdiv_core_binary in Hcore.
  set (e0 := Z.min (fexp prec emax (Zdigits2 (Z.pos m) + e
                                     - (Zdigits2 8972014882652160 + -45)))
                   (e - -45)) in *.
  set (m' := match e - -45 - e0 with
             | 0 => Z.pos m
             | Z.pos _ => Z.shiftl (Z.pos m) (e - -45 - e0)
             | Z.neg _ => 0
             end) in *.
  assert (Zdigits2 (Z.pos m) ≤ 53) as Hd by (apply Zdigits2_le; lia).
  change (Zdigits2 8972014882652160) with 53 in e0.
  assert (e0 ≤ 963 ∧ e0 ≤ e + 45) as [He0 He0'].
  { pose proof (fexp_le (Zdigits2 (Z.pos m) + e - (53 + -45))). unfold e0. lia. }
  assert (m' = Z.pos m * 2 ^ (e + 45 - e0)) as Hm'.
  { unfold m'. destruct (e - -45 - e0) as [|p|p] eqn:Hs.
    - replace (e + 45 - e0) with 0 by lia. lia.
    - rewrite Z.shiftl_mul_pow2 by lia. f_equal. f_equal. lia.
    - lia. }
  pose proof (Z_div_mod m' 8972014882652160 eq_refl) as Hdiv.
  destruct (Z.div_eucl m' 8972014882652160) as [q' r]. destruct Hdiv as [Hq Hr].
  injection Hcore as <- <- <-.
  assert (0 ≤ m') as Hm'0.
  { rewrite Hm'. apply Z.mul_nonneg_nonneg; [lia | apply Z.pow_nonneg; lia]. }
  assert (0 ≤ q') as Hq0 by nia.
  destruct (binary_round_aux_bounded (xorb s false) q' e0
              (new_location 8972014882652160 r) 5 1014)
    as [->|(my & ey & -> & Hey & Hmy & Hmy')]; try lia.
  - (* q' < 5 * 2 ^ (1014 - e0) *)
    assert (m' < 2 ^ 53 * 2 ^ (e + 45 - e0)) as Hlt.
    { rewrite Hm'. apply Z.mul_lt_mono_pos_r; [apply Z.pow_pos_nonneg; lia | lia]. }
    assert (2 ^ (e + 45 - e0) ≤ 2 ^ (1016 - e0)) as Hpow
      by (apply Z.pow_le_mono_r; lia).
    assert (2 ^ (1016 - e0) = 4 * 2 ^ (1014 - e0)) as Hsplit.
    { replace (1016 - e0) with (2 + (1014 - e0)) by lia. rewrite pow2_split by lia.
      reflexivity. }
    assert (0 < 2 ^ (1014 - e0)) by (apply Z.pow_pos_nonneg; lia).
    assert (2 ^ 53 = 9007199254740992) as H53 by reflexivity.
    nia.
  - simpl. trivial.
  - simpl. lia.
Qed.

(** A float below [5 * 2 ^ 1014] times 100 is a double. *)
Lemma fmul_100_finite y : below 5 1014 y → finite_double (fmul y float_100).
Proof.
  rewrite float_100_eq. destruct y as [s|s| |s m e]; simpl; try done.
  intros (Hm & He & Hle). unfold fmul, SFmul.
  destruct (binary_round_aux_bounded (xorb s false)
              (Z.pos (m * 7036874417766400)) (e + -46) loc_Exact 501 1014)
    as [->|(mz & ez & -> & Hez & Hmz & _)]; try lia; try done.
  rewrite Pos2Z.inj_mul.
  replace (1014 - (e + -46)) with (46 + (1014 - e)) by lia.
  rewrite pow2_split by lia.
  assert (0 < 2 ^ (1014 - e)) by (apply Z.pow_pos_nonneg; lia).
  assert (2 ^ 46 = 70368744177664) as -> by reflexivity.
  nia.
Qed.

(** Dividing a double by 255.0 and multiplying by 100 gives a double. *)
Lemma rescale_finite x :
  finite_double x → finite_double (fmul (fdiv x float_255) float_100).
Proof. intros Hx. apply fmul_100_finite, fdiv_255_below, Hx. Qed.

Lemma Pos_iter_xO m d : Z.pos (Pos.iter xO m d) = Z.pos m * 2 ^ Z.pos d.
Proof.
  induction d as [|d IH] using Pos.peano_ind.
  - simpl. lia.
  - rewrite Pos.iter_succ, Pos2Z.inj_xO, IH, Pos2Z.inj_succ, Z.pow_succ_r by lia. lia.
Qed.

(** The rounding of a non-negative mantissa is zero, a double or an
    infinity. *)
Lemma binary_round_aux_cases sx mx ex lx :
  0 ≤ mx ->
  match binary_round_aux prec emax sx mx ex lx with
  | S754_finite _ m e => Z.pos m < 2 ^ 53 ∧ e ≤ 971
  | S754_nan => False
  | _ => True
  end.
Proof.
  intros Hmx.
  destruct (binary_round_aux prec emax sx mx ex lx) as [s|s| |s m e] eqn:Hr; try done.
  - revert Hr. unfold binary_round_aux.
    pose proof (shr_fexp_spec mx ex lx Hmx) as [He1 Hm1].
    destruct (shr_fexp prec emax mx ex lx) as [mrs1 e1]. cbn [fst snd] in He1, Hm1.
    rewrite <- He1 in Hm1.
    set (m2 := round_nearest_even (shr_m mrs1) (loc_of_shr_record mrs1)).
    assert (0 ≤ m2) as Hm2.
    { pose proof (round_nearest_even_bounds (shr_m mrs1) (loc_of_shr_record mrs1)) as H.
      fold m2 in H. assert (0 ≤ shr_m mrs1); [|lia].
      rewrite Hm1. apply Z.div_pos; [lia | apply Z.pow_pos_nonneg; lia]. }
    pose proof (shr_fexp_spec m2 e1 loc_Exact Hm2) as [He3 Hm3].
    destruct (shr_fexp prec emax m2 e1 loc_Exact) as [mrs3 e3].
    cbn [fst snd] in He3, Hm3.
    assert (0 ≤ shr_m mrs3) as Hm3'.
    { rewrite Hm3. apply Z.div_pos; [lia | apply Z.pow_pos_nonneg; lia]. }
    destruct (shr_m mrs3) as [|m'|m']; [discriminate | | lia].
    destruct (e3 <=? emax - prec); discriminate.
  - assert (s = sx) as ->.
    { revert Hr. unfold binary_round_aux.
      destruct (shr_fexp prec emax mx ex lx) as [mrs1 e1].
      destruct (shr_fexp prec emax _ e1 loc_Exact) as [mrs3 e3].
      destruct (shr_m mrs3); try discriminate.
      destruct (e3 <=? emax - prec); [|discriminate]. by intros [= -> _ _]. }
    by apply (binary_round_aux_fits sx mx ex lx).
Qed.

Lemma float_of_Z_cases z :
  match float_of_Z z with
  | S754_finite _ m e => Z.pos m < 2 ^ 53 ∧ e ≤ 971
  | S754_nan => False
  | _ => True
  end.
Proof.
  unfold float_of_Z, binary_normalize, binary_round.
  destruct z as [|m|m]; [done | |].
  - destruct (shl_align m 0 _) as [mz ez]. by apply binary_round_aux_cases.
  - destruct (shl_align m 0 _) as [mz ez]. by apply binary_round_aux_cases.
Qed.

(** An integer below [2 ^ 1023] in magnitude converts to a double. *)
Lemma float_of_Z_finite z : Z.abs z < 2 ^ 1023 → finite_double (float_of_Z z).
Proof.
  intros Hz. unfold float_of_Z, binary_normalize, binary_round.
  assert (∀ s m, Z.pos m < 2 ^ 1023 ->
            finite_double
              (let '(mz, ez) :=
                 shl_align m 0 (fexp prec emax (Z.pos (digits2_pos m) + 0)) in
               binary_round_aux prec emax s (Z.pos mz) ez loc_Exact)) as Hround.
  { intros s m Hm. unfold shl_align.
    destruct (fexp prec emax (Z.pos (digits2_pos m) + 0) - 0) as [|d|d] eqn:Hd.
    - destruct (binary_round_aux_bounded s (Z.pos m) 0 loc_Exact 1 1023)
        as [->|(my & ey & -> & Hey & Hmy & _)]; try lia; done.
    - destruct (binary_round_aux_bounded s (Z.pos m) 0 loc_Exact 1 1023)
        as [->|(my & ey & -> & Hey & Hmy & _)]; try lia; done.
    - assert (fexp prec emax (Z.pos (digits2_pos m) + 0) = Z.neg d) as -> by lia.
      destruct (binary_round_aux_bounded s (Z.pos (Pos.iter xO m d)) (Z.neg d)
                  loc_Exact 1 1023)
        as [->|(my & ey & -> & Hey & Hmy & _)]; try lia; try done.
      rewrite Pos_iter_xO. replace (1023 - Z.neg d) with (1023 + Z.pos d) by lia.
      rewrite pow2_split by lia.
      assert (0 < 2 ^ Z.pos d) by (apply Z.pow_pos_nonneg; lia). nia. }
  destruct z as [|m|m]; [done | |]; apply Hround; lia.
Qed.

(** ** The loops *)

Lemma for_each_cons_ok {A S : Type} (body : S → A → result S) x l s s' :
  for_each body (x :: l) s = Ok s' →
  ∃ s1, body s x = Ok s1 ∧ for_each body l s1 = Ok s'.
Proof.
  simpl. destruct (body s x) as [s1|e] eqn:Hb; simpl; [eauto | discriminate].
Qed.

Lemma for_each_ok_iff {A S : Type} (body : S → A → result S) (good : A → Prop) l :
  (∀ s x, is_ok (body s x) = true ↔ good x) →
  ∀ s, is_ok (for_each body l s) = true ↔ Forall good l.
Proof.
  intros Hbody. induction l as [|x l IH]; intros s; simpl.
  - split; [constructor | done].
  - rewrite Forall_cons. destruct (body s x) as [s1|e] eqn:Hb; simpl.
    + rewrite IH. split; [|tauto]. intros Hl. split; [|done].
      apply (Hbody s). by rewrite Hb.
    + split; [done|]. intros [Hx _]. apply (Hbody s) in Hx.
      by rewrite Hb in Hx.
Qed.

Lemma route_dom st info acc : dom (route st info acc).2 = dom acc.2.
Proof.
  destruct acc as [entities data]. unfold route.
  destruct (data !! domain st) as [b|] eqn:Hd; simpl; [|done].
  rewrite dom_insert_L. apply subseteq_union_1_L, singleton_subseteq_l.
  by apply elem_of_dom_2 in Hd.
Qed.

Lemma route_slot_here st info acc :
  slot (route st info acc) (place acc.2 st) (entity_id st) = Some info.
Proof.
  destruct acc as [entities data]. unfold route, place. simpl.
  destruct (data !! domain st) as [b|] eqn:Hd; simpl.
  - rewrite lookup_insert_eq. simpl. apply lookup_insert_eq.
  - apply lookup_insert_eq.
Qed.

Lemma route_slot_other st info acc k id :
  ¬ (k = place acc.2 st ∧ id = entity_id st) →
  slot (route st info acc) k id = slot acc k id.
Proof.
  destruct acc as [entities data]. unfold route, place. simpl. intros Hne.
  destruct (data !! domain st) as [b|] eqn:Hd; destruct k as [d|]; simpl; try done.
  - destruct (decide (d = domain st)) as [->|Hd'].
    + rewrite lookup_insert_eq, Hd. simpl.
      rewrite lookup_insert_ne; [done|]. intros <-. by apply Hne.
    + by rewrite lookup_insert_ne.
  - rewrite lookup_insert_ne; [done|]. intros <-. by apply Hne.
Qed.

Lemma place_dom data data' st : dom data' = dom data → place data' st = place data st.
Proof.
  intros Hdom. unfold place.
  destruct (data !! domain st) as [b|] eqn:Hd.
  - assert (is_Some (data' !! domain st)) as [b' ->]; [|done].
    apply elem_of_dom. rewrite Hdom. by apply elem_of_dom_2 in Hd.
  - assert (data' !! domain st = None) as ->; [|done].
    apply not_elem_of_dom. rewrite Hdom. by apply not_elem_of_dom.
Qed.

Section StateLoop.
  Variable hass : HomeAssistant.
  Variable assistant : string.

Lemma state_step_ok acc st acc' :
  state_step hass assistant acc st = Ok acc' →
  (async_should_expose hass assistant (entity_id st) = false ∧ acc' = acc) ∨
  (exposed hass assistant st ∧
   ∃ info, build_info hass st = Ok info ∧ acc' = route st info acc).
Proof.
  unfold state_step, exposed.
  destruct (async_should_expose hass assistant (entity_id st)); simpl.
  - destruct (build_info hass st) as [info|e]; simpl; [|discriminate].
    intros [= <-]. right. eauto.
  - intros [= <-]. by left.
Qed.

Lemma state_loop_dom l acc acc' :
  for_each (state_step hass assistant) l acc = Ok acc' → dom acc'.2 = dom acc.2.
Proof.
  revert acc. induction l as [|st l IH]; intros acc.
  - by intros [= <-].
  - intros (acc1 & Hstep & Hrest)%for_each_cons_ok.
    rewrite (IH _ Hrest).
    apply state_step_ok in Hstep as [[_ ->]|(_ & info & _ & ->)]; [done|].
    apply route_dom.
Qed.

(** A slot that no exposed state of the list is routed to is left as it
    was. *)
Lemma state_loop_frame l acc acc' k id :
  for_each (state_step hass assistant) l acc = Ok acc' →
  (∀ st, st ∈ l → exposed hass assistant st →
         ¬ (k = place acc.2 st ∧ id = entity_id st)) →
  slot acc' k id = slot acc k id.
Proof.
  revert acc. induction l as [|st l IH]; intros acc.
  - by intros [= <-].
  - intros (acc1 & Hstep & Hrest)%for_each_cons_ok Hnone.
    assert (dom acc1.2 = dom acc.2) as Hdom.
    { apply (state_loop_dom [st]). simpl. by rewrite Hstep. }
    rewrite (IH _ Hrest).
    + apply state_step_ok in Hstep as [[_ ->]|(Hexp & info & _ & ->)]; [done|].
      apply route_slot_other. apply Hnone; [left | done].
    + intros st' Hin Hexp. rewrite (place_dom _ _ _ Hdom).
      apply Hnone; [by right | done].
Qed.

(** Whatever a slot holds at the end was there at the start or is the
    [info] of an exposed state routed to it. *)
Lemma state_loop_sound l acc acc' k id info :
  for_each (state_step hass assistant) l acc = Ok acc' →
  slot acc' k id = Some info →
  slot acc k id = Some info ∨
  ∃ st, st ∈ l ∧ exposed hass assistant st ∧ k = place acc.2 st ∧
        id = entity_id st ∧ build_info hass st = Ok info.
Proof.
  revert acc. induction l as [|st l IH]; intros acc.
  - intros [= <-]. by left.
  - intros (acc1 & Hstep & Hrest)%for_each_cons_ok Hslot.
    assert (dom acc1.2 = dom acc.2) as Hdom.
    { apply (state_loop_dom [st]). simpl. by rewrite Hstep. }
    destruct (IH _ Hrest Hslot) as [Hold|(st' & Hin & Hexp & -> & -> & Hinfo)].
    + apply state_step_ok in Hstep as [[_ ->]|(Hexp & info' & Hinfo & ->)];
        [by left|].
      destruct (decide (k = place acc.2 st ∧ id = entity_id st)) as [[-> ->]|Hne].
      * rewrite route_slot_here in Hold. assert (info' = info) as <- by congruence.
        right. exists st. repeat split; [left | done..].
      * rewrite route_slot_other in Hold by done. by left.
    + right. exists st'. rewrite (place_dom _ _ _ Hdom).
      repeat split; [by right | done..].
Qed.

(** With distinct identifiers, every exposed state of the list is found
    at the end in the slot it was routed to. *)
Lemma state_loop_complete l acc acc' st :
  for_each (state_step hass assistant) l acc = Ok acc' →
  NoDup (entity_id <$> l) →
  st ∈ l → exposed hass assistant st →
  ∃ info, build_info hass st = Ok info ∧
          slot acc' (place acc.2 st) (entity_id st) = Some info.
Proof.
  revert acc. induction l as [|st0 l IH]; intros acc.
  - intros _ _ Hin. by apply elem_of_nil in Hin.
  - intros (acc1 & Hstep & Hrest)%for_each_cons_ok Hnd Hin Hexp.
    rewrite fmap_cons in Hnd. apply NoDup_cons in Hnd as [Hfresh Hnd].
    assert (dom acc1.2 = dom acc.2) as Hdom.
    { apply (state_loop_dom [st0]). simpl. by rewrite Hstep. }
    apply elem_of_cons in Hin as [->|Hin].
    + apply state_step_ok in Hstep as [[Hno _]|(_ & info & Hinfo & ->)].
      { unfold exposed in Hexp. congruence. }
      exists info. split; [done|].
      rewrite (state_loop_frame _ _ _ _ _ Hrest).
      * apply route_slot_here.
      * intros st' Hin' _ [_ Hid]. apply Hfresh.
        rewrite Hid. apply list_elem_of_fmap. eauto.
    + rewrite <- (place_dom _ _ _ Hdom). by apply (IH acc1).
Qed.
End StateLoop.

(** ** From the loop to the report *)

Lemma place_initial st :
  place initial_data st =
  if String.eqb (domain st) SCRIPT_DOMAIN then Some SCRIPT_DOMAIN
  else if String.eqb (domain st) CALENDAR_DOMAIN then Some CALENDAR_DOMAIN
  else None.
Proof.
  unfold place, initial_data.
  destruct (String.eqb_spec (domain st) SCRIPT_DOMAIN) as [->|Hs].
  { by rewrite lookup_insert_eq. }
  rewrite lookup_insert_ne by done.
  destruct (String.eqb_spec (domain st) CALENDAR_DOMAIN) as [->|Hc].
  { by rewrite lookup_singleton_eq. }
  by rewrite lookup_singleton_ne.
Qed.

Lemma place_bucket_key st :
  bucket_key st = default "entities"%string (place initial_data st).
Proof.
  rewrite place_initial. unfold bucket_key.
  by repeat destruct (String.eqb _ _).
Qed.

Lemma place_not_entities st : place initial_data st ≠ Some "entities"%string.
Proof.
  rewrite place_initial. by repeat destruct (String.eqb _ _).
Qed.

Lemma custom_get_exposed_entities_ok hass assistant out :
  _custom_get_exposed_entities hass assistant = Ok out →
  ∃ acc, for_each (state_step hass assistant) (states hass) (∅, initial_data) = Ok acc ∧
         out = <["entities"%string := acc.1]> acc.2.
Proof.
  unfold _custom_get_exposed_entities. fold initial_data.
  destruct (for_each _ _ _) as [[entities data]|e]; simpl; [|discriminate].
  intros [= <-]. by exists (entities, data).
Qed.

(** A lookup in the report is a lookup in the loop's final slots. *)
Lemma filed_slot (acc : Bucket * gmap string Bucket) k id :
  filed (<["entities"%string := acc.1]> acc.2) k id =
  slot acc (if decide (k = "entities"%string) then None else Some k) id.
Proof.
  unfold filed. case_decide as Hk; simpl.
  - subst k. by rewrite lookup_insert_eq.
  - by rewrite lookup_insert_ne.
Qed.

Lemma report_keys hass assistant out :
  _custom_get_exposed_entities hass assistant = Ok out →
  dom out = {[ SCRIPT_DOMAIN; CALENDAR_DOMAIN; "entities"%string ]}.
Proof.
  intros (acc & Hloop & ->)%custom_get_exposed_entities_ok.
  rewrite dom_insert_L, (state_loop_dom _ _ _ _ _ Hloop). simpl.
  unfold initial_data. rewrite dom_insert_L, dom_singleton_L. set_solver.
Qed.

(** Every entry of the report is the [info] of an exposed state of the
    snapshot, filed under that state's key and identifier. *)
Lemma report_sound hass assistant out k id info :
  _custom_get_exposed_entities hass assistant = Ok out →
  filed out k id = Some info →
  ∃ st, st ∈ states hass ∧ exposed hass assistant st ∧
        k = bucket_key st ∧ id = entity_id st ∧ build_info hass st = Ok info.
Proof.
  intros (acc & Hloop & ->)%custom_get_exposed_entities_ok Hfiled.
  rewrite filed_slot in Hfiled.
  destruct (state_loop_sound _ _ _ _ _ _ _ _ Hloop Hfiled)
    as [Hinit|(st & Hin & Hexp & Hk & -> & Hinfo)].
  { case_decide; simpl in Hinit.
    - by rewrite lookup_empty in Hinit.
    - unfold initial_data in Hinit.
      destruct (decide (k = SCRIPT_DOMAIN)) as [->|?].
      { rewrite lookup_insert_eq in Hinit. simpl in Hinit.
        by rewrite lookup_empty in Hinit. }
      rewrite lookup_insert_ne in Hinit by done.
      destruct (decide (k = CALENDAR_DOMAIN)) as [->|?].
      { rewrite lookup_singleton_eq in Hinit. simpl in Hinit.
        by rewrite lookup_empty in Hinit. }
      by rewrite lookup_singleton_ne in Hinit. }
  exists st. repeat split; try done.
  rewrite place_bucket_key. simpl in Hk. case_decide as Hd.
  - subst k. by rewrite <- Hk.
  - by rewrite <- Hk.
Qed.

(** With distinct identifiers, every exposed state of the snapshot is
    filed under its key and identifier. *)
Lemma report_complete hass assistant out st :
  _custom_get_exposed_entities hass assistant = Ok out →
  NoDup (entity_id <$> states hass) →
  st ∈ states hass → exposed hass assistant st →
  ∃ info, build_info hass st = Ok info ∧
          filed out (bucket_key st) (entity_id st) = Some info.
Proof.
  intros (acc & Hloop & ->)%custom_get_exposed_entities_ok Hnd Hin Hexp.
  destruct (state_loop_complete _ _ _ _ _ _ Hloop Hnd Hin Hexp)
    as (info & Hinfo & Hslot).
  exists info. split; [done|]. rewrite filed_slot, <- Hslot. simpl.
  f_equal. rewrite place_bucket_key.
  pose proof (place_not_entities st) as Hne.
  destruct (place initial_data st) as [d|]; simpl.
  - by destruct (decide (d = "entities"%string)) as [->|].
  - done.
Qed.

(** ** The attribute loop *)

(* The proofs below use the allow-list through [interesting] only; its
   thirteen names matter where a concrete name is tested. *)
#[local] Opaque interesting_attributes.

Lemma attribute_step_ok attrs attr_name attr_value attrs' :
  attribute_step attrs (attr_name, attr_value) = Ok attrs' →
  (¬ interesting attr_name ∧ attrs' = attrs) ∨
  (interesting attr_name ∧
   ∃ v, convert_attribute attr_name attr_value = Ok v ∧ attrs' = <[attr_name := v]> attrs).
Proof.
  unfold attribute_step, interesting. case_bool_decide as Hin.
  - destruct (convert_attribute attr_name attr_value) as [v|e]; simpl; [|discriminate].
    intros [= <-]. right. eauto.
  - intros [= <-]. by left.
Qed.

(** A binding of the result was there at the start or is the conversion of
    an interesting item. *)
Lemma attribute_loop_sound items attrs attrs' k v :
  for_each attribute_step items attrs = Ok attrs' →
  attrs' !! k = Some v →
  attrs !! k = Some v ∨
  ∃ v0, (k, v0) ∈ items ∧ interesting k ∧ convert_attribute k v0 = Ok v.
Proof.
  revert attrs. induction items as [|[n v0] items IH]; intros attrs.
  - intros [= <-]. by left.
  - intros (attrs1 & Hstep & Hrest)%for_each_cons_ok Hk.
    destruct (IH _ Hrest Hk) as [Hold|(v1 & Hin & Hint & Hconv)].
    + apply attribute_step_ok in Hstep as [[_ ->]|(Hint & w & Hconv & ->)]; [by left|].
      destruct (decide (n = k)) as [->|Hne].
      * rewrite lookup_insert_eq in Hold. injection Hold as ->.
        right. exists v0. repeat split; [left | done..].
      * rewrite lookup_insert_ne in Hold by done. by left.
    + right. exists v1. repeat split; [by right | done..].
Qed.

(** A key that no interesting item carries keeps its binding. *)
Lemma attribute_loop_frame items attrs attrs' k :
  for_each attribute_step items attrs = Ok attrs' →
  (interesting k → k ∉ items.*1) →
  attrs' !! k = attrs !! k.
Proof.
  revert attrs. induction items as [|[n v0] items IH]; intros attrs.
  - by intros [= <-].
  - intros (attrs1 & Hstep & Hrest)%for_each_cons_ok Hk.
    rewrite (IH _ Hrest).
    + apply attribute_step_ok in Hstep as [[_ ->]|(Hint & w & _ & ->)]; [done|].
      destruct (decide (n = k)) as [->|Hne]; [|by rewrite lookup_insert_ne].
      exfalso. apply (Hk Hint). rewrite fmap_cons. left.
    + intros Hint Hin. apply (Hk Hint). rewrite fmap_cons. by right.
Qed.

(** A key once bound stays bound. *)
Lemma attribute_loop_mono items attrs attrs' k :
  for_each attribute_step items attrs = Ok attrs' →
  is_Some (attrs !! k) → is_Some (attrs' !! k).
Proof.
  revert attrs. induction items as [|[n v0] items IH]; intros attrs.
  - by intros [= <-].
  - intros (attrs1 & Hstep & Hrest)%for_each_cons_ok Hk.
    apply (IH _ Hrest).
    apply attribute_step_ok in Hstep as [[_ ->]|(_ & w & _ & ->)]; [done|].
    rewrite lookup_insert. case_decide; [by eexists | done].
Qed.

Lemma attribute_loop_bound items attrs attrs' k v0 :
  for_each attribute_step items attrs = Ok attrs' →
  (k, v0) ∈ items → interesting k → is_Some (attrs' !! k).
Proof.
  revert attrs. induction items as [|[n v1] items IH]; intros attrs.
  - intros _ Hin. apply elem_of_nil in Hin. contradiction.
  - intros (attrs1 & Hstep & Hrest)%for_each_cons_ok Hin Hint.
    apply elem_of_cons in Hin as [[= <- <-]|Hin]; [|exact (IH attrs1 Hrest Hin Hint)].
    apply (attribute_loop_mono _ _ _ _ Hrest).
    apply attribute_step_ok in Hstep as [[Hno _]|(_ & w & _ & ->)]; [contradiction|].
    rewrite lookup_insert_eq. by eexists.
Qed.

(** With distinct attribute names, every interesting item is bound to its
    conversion. *)
Lemma attribute_loop_complete items attrs attrs' k v0 :
  for_each attribute_step items attrs = Ok attrs' →
  NoDup items.*1 →
  (k, v0) ∈ items → interesting k →
  ∃ v, convert_attribute k v0 = Ok v ∧ attrs' !! k = Some v.
Proof.
  revert attrs. induction items as [|[n v1] items IH]; intros attrs.
  - intros _ _ Hin. apply elem_of_nil in Hin. contradiction.
  - intros (attrs1 & Hstep & Hrest)%for_each_cons_ok Hnd Hin Hint.
    rewrite fmap_cons in Hnd. apply NoDup_cons in Hnd as [Hfresh Hnd].
    apply elem_of_cons in Hin as [[= <- <-]|Hin];
      [|exact (IH attrs1 Hrest Hnd Hin Hint)].
    apply attribute_step_ok in Hstep as [[Hno _]|(_ & w & Hconv & ->)];
      [contradiction|].
    exists w. split; [exact Hconv|].
    rewrite (attribute_loop_frame _ _ _ _ Hrest) by (intros _; exact Hfresh).
    apply lookup_insert_eq.
Qed.

Lemma nonempty_dict_true {A : Type} (d : gmap string A) :
  nonempty_dict d = true ↔ ∃ k, is_Some (d !! k).
Proof.
  unfold nonempty_dict. rewrite negb_true_iff, Nat.eqb_neq, map_size_empty_iff.
  split.
  - intros (k & x & Hk)%map_choose. exists k. by eexists.
  - intros (k & x & Hk) ->. by rewrite lookup_empty in Hk.
Qed.

(** The attribute mapping is non-empty exactly when some item of the state
    is interesting. *)
Lemma attribute_loop_nonempty items attrs' :
  for_each attribute_step items ∅ = Ok attrs' →
  nonempty_dict attrs' = true ↔ ∃ k v0, (k, v0) ∈ items ∧ interesting k.
Proof.
  intros Hloop. rewrite nonempty_dict_true. split.
  - intros (k & v & Hk).
    destruct (attribute_loop_sound _ _ _ _ _ Hloop Hk) as [Hinit|(v0 & ? & ? & _)].
    + by rewrite lookup_empty in Hinit.
    + exists k, v0. by split.
  - intros (k & v0 & Hin & Hint). exists k.
    exact (attribute_loop_bound _ _ _ _ _ Hloop Hin Hint).
Qed.

(** ** The [info] of one state *)

Lemma build_info_eq hass st :
  build_info hass st =
  attrs ← for_each attribute_step (attributes st) ∅; Ok (info_with hass st attrs).
Proof.
  unfold build_info, info_with, display_names, area_names_of.
  by destruct (entity_registry hass !! entity_id st).
Qed.

Lemma info_with_spec hass st attrs :
  for_each attribute_step (attributes st) ∅ = Ok attrs →
  info_of hass st (info_with hass st attrs) attrs.
Proof.
  intros Hloop. unfold info_with.
  destruct (nonempty_dict attrs) eqn:Hd,
    (nonempty_list (area_names_of hass st)) eqn:Ha;
    split; try assumption; rewrite ?Hd, ?Ha;
    repeat (rewrite lookup_insert_ne by discriminate);
    rewrite ?lookup_insert_eq, ?lookup_singleton_eq;
    rewrite ?lookup_singleton_ne by discriminate; reflexivity.
Qed.

Lemma build_info_ok hass st info :
  build_info hass st = Ok info → ∃ attrs, info_of hass st info attrs.
Proof.
  rewrite build_info_eq.
  destruct (for_each attribute_step (attributes st) ∅) as [attrs|e] eqn:Hloop;
    simpl; [|discriminate].
  intros [= <-]. exists attrs. by apply info_with_spec.
Qed.

Lemma build_info_is_ok hass st :
  is_ok (build_info hass st) = is_ok (for_each attribute_step (attributes st) ∅).
Proof.
  rewrite build_info_eq.
  by destruct (for_each attribute_step (attributes st) ∅).
Qed.

(** With distinct identifiers an exposed state is filed with an [info]
    that [build_info] describes. *)
Lemma exposed_entity_info hass assistant out st :
  _custom_get_exposed_entities hass assistant = Ok out →
  NoDup (entity_id <$> states hass) →
  st ∈ states hass → exposed hass assistant st →
  ∃ info attrs,
    filed out (bucket_key st) (entity_id st) = Some info ∧
    info_of hass st info attrs.
Proof.
  intros Hout Hnd Hin Hexp.
  destruct (report_complete _ _ _ _ Hout Hnd Hin Hexp) as (info & Hinfo & Hfiled).
  destruct (build_info_ok _ _ _ Hinfo) as [attrs Hof].
  by exists info, attrs.
Qed.

Lemma NoDup_fmap_eq {A B : Type} (f : A → B) (l : list A) x y :
  NoDup (f <$> l) → x ∈ l → y ∈ l → f x = f y → x = y.
Proof.
  induction l as [|z l IH]; intros Hnd Hx Hy Hf.
  - by apply elem_of_nil in Hx.
  - rewrite fmap_cons in Hnd. apply NoDup_cons in Hnd as [Hfresh Hnd].
    apply elem_of_cons in Hx as [->|Hx]; apply elem_of_cons in Hy as [->|Hy].
    + done.
    + exfalso. apply Hfresh. rewrite Hf. by apply list_elem_of_fmap_2.
    + exfalso. apply Hfresh. rewrite <- Hf. by apply list_elem_of_fmap_2.
    + by apply IH.
Qed.

Lemma example_report_ok :
  _custom_get_exposed_entities Example.hass "conversation" = Ok Example.report.
Proof. vm_cast_no_check (@eq_refl _ (Ok Example.report)). Qed.

Lemma example_ids_distinct : NoDup (entity_id <$> states Example.hass).
Proof. apply (bool_decide_unpack _). vm_compute. reflexivity. Qed.

(** * The claims *)

(** C1. An entity for which the exposure predicate is false for the given
    assistant has its identifier nowhere in the returned report: under no
    key of the report, so neither in the script bucket, nor in the calendar
    bucket, nor in the catch-all mapping, is there an entry for it. *)
Theorem unexposed_entity_absent hass assistant out st :
  _custom_get_exposed_entities hass assistant = Ok out →
  st ∈ states hass →
  async_should_expose hass assistant (entity_id st) = false →
  ∀ k, filed out k (entity_id st) = None.
Proof.
  intros Hout _ Hno k.
  destruct (filed out k (entity_id st)) as [info|] eqn:Hfiled; [|done].
  destruct (report_sound _ _ _ _ _ _ Hout Hfiled) as (st' & _ & Hexp & _ & Hid & _).
  unfold exposed in Hexp. congruence.
Qed.

Lemma unexposed_entity_absent_witness :
  filed Example.report "script" "lock.front_door" = None ∧
  filed Example.report "calendar" "lock.front_door" = None ∧
  filed Example.report "entities" "lock.front_door" = None.
Proof.
  assert (∀ k, filed Example.report k "lock.front_door" = None) as Habsent.
  { apply (unexposed_entity_absent Example.hass "conversation" Example.report
             Example.front_door).
    - exact example_report_ok.
    - do 4 right. left.
    - vm_compute. reflexivity. }
  split; [|split]; apply Habsent.
Defined.

(** C2. With distinct entity identifiers, an entity that the exposure
    predicate accepts is filed under exactly one key of the report: the
    script bucket when its domain is script, the calendar bucket when it is
    calendar, the catch-all mapping otherwise, and under no other key. *)
Theorem exposed_entity_in_one_bucket hass assistant out st :
  _custom_get_exposed_entities hass assistant = Ok out →
  NoDup (entity_id <$> states hass) →
  st ∈ states hass →
  async_should_expose hass assistant (entity_id st) = true →
  ∀ k, is_Some (filed out k (entity_id st)) ↔
       k = (if String.eqb (domain st) "script" then "script"
            else if String.eqb (domain st) "calendar" then "calendar"
            else "entities")%string.
Proof.
  intros Hout Hnd Hin Hexp k. fold (bucket_key st). split.
  - intros [info Hfiled].
    destruct (report_sound _ _ _ _ _ _ Hout Hfiled) as (st' & Hin' & _ & -> & Hid & _).
    by rewrite (NoDup_fmap_eq entity_id _ _ _ Hnd Hin Hin' Hid).
  - intros ->.
    destruct (report_complete _ _ _ _ Hout Hnd Hin Hexp) as (info & _ & Hfiled).
    by exists info.
Qed.

Lemma exposed_entity_in_one_bucket_witness :
  is_Some (filed Example.report "script" "script.goodnight") ∧
  filed Example.report "calendar" "script.goodnight" = None ∧
  filed Example.report "entities" "script.goodnight" = None.
Proof.
  assert (∀ k, is_Some (filed Example.report k "script.goodnight") ↔
               k = "script"%string) as Hone.
  { apply (exposed_entity_in_one_bucket Example.hass "conversation"
             Example.report Example.goodnight).
    - exact example_report_ok.
    - exact example_ids_distinct.
    - do 2 right. left.
    - vm_compute. reflexivity. }
  split; [|split].
  - by apply Hone.
  - apply eq_None_not_Some. by intros ?%Hone.
  - apply eq_None_not_Some. by intros ?%Hone.
Defined.

Lemma rescales_exactly_0_255 : forallb rescales_exactly (seqZ 0 256) = true.
Proof. vm_compute. reflexivity. Qed.

(** On the raw range 0..255 the float computation gives the exact
    percentage, for an [int] and for the float of the same value. *)
Lemma rescale_brightness_exact z :
  0 ≤ z ≤ 255 →
  rescale_brightness (VInt z) = Ok (VInt (brightness_percent z)) ∧
  rescale_brightness (VFloat (float_of_Z z)) = Ok (VInt (brightness_percent z)).
Proof.
  intros Hz.
  assert (rescales_exactly z = true) as Hex.
  { pose proof rescales_exactly_0_255 as Hall.
    rewrite forallb_forall in Hall. apply Hall.
    apply list_elem_of_In, elem_of_seqZ. lia. }
  unfold rescales_exactly in Hex.
  destruct (rescale_brightness (VInt z)) as [[| | n | | | | |]|]; try discriminate.
  destruct (rescale_brightness (VFloat (float_of_Z z))) as [[| | m | | | | |]|];
    try discriminate.
  apply andb_true_iff in Hex as [->%Z.eqb_eq ->%Z.eqb_eq]. done.
Qed.

(** Exactness stops at the raw integers: the float 146.625 is 57.5 percent
    exactly, which rounds to the even 58, but its quotient by 255.0 is
    rounded down and the product falls short of the tie. *)
Lemma rescale_brightness_inexact :
  rescale_brightness (VFloat (binary_normalize prec emax 1173 (-3) false))
  = Ok (VInt 57) ∧
  round_half_even (1173 * 100) (8 * 255) = 58.
Proof. split; vm_compute; reflexivity. Qed.

Lemma rescale_brightness_ok v w :
  rescale_brightness v = Ok w →
  ∃ x n, operand_to_float v = Ok x ∧
         py_round (fmul (fdiv x float_255) float_100) = Ok n ∧ w = VInt n.
Proof.
  unfold rescale_brightness.
  destruct (operand_to_float v) as [x|e]; simpl; [|discriminate].
  destruct (py_round _) as [n|e] eqn:Hround; simpl; [|discriminate].
  intros [= <-]. by exists x, n.
Qed.

Lemma convert_brightness_number v :
  is_number v → convert_attribute "brightness" v = rescale_brightness v.
Proof. by destruct v. Qed.

Lemma brightness_interesting : interesting "brightness".
Proof. apply (bool_decide_unpack _). vm_compute. reflexivity. Qed.

(** C3. An exposed entity that carries a brightness attribute with a
    numeric value [v] has, in its output attribute mapping, brightness
    bound to [round(v / 255.0 * 100)]: the integer nearest to the binary64
    product, ties to even.  For a raw value between 0 and 255 this is the
    exact percentage; 255 gives 100, 0 gives 0 and 128 gives 50. *)
Theorem brightness_rescaled hass assistant out st v :
  _custom_get_exposed_entities hass assistant = Ok out →
  NoDup (entity_id <$> states hass) →
  st ∈ states hass →
  async_should_expose hass assistant (entity_id st) = true →
  NoDup (attributes st).*1 →
  ("brightness"%string, v) ∈ attributes st →
  is_number v →
  ∃ info attrs x n,
    filed out (bucket_key st) (entity_id st) = Some info ∧
    info !! "attributes"%string = Some (IDict attrs) ∧
    attrs !! "brightness"%string = Some (VInt n) ∧
    operand_to_float v = Ok x ∧
    py_round (fmul (fdiv x float_255) float_100) = Ok n ∧
    (∀ z, 0 ≤ z ≤ 255 → v = VInt z ∨ v = VFloat (float_of_Z z) →
          n = round_half_even (z * 100) 255) ∧
    (v = VInt 255 → n = 100) ∧ (v = VInt 0 → n = 0) ∧ (v = VInt 128 → n = 50).
Proof.
  intros Hout Hnd Hin Hexp Hkeys Hattr Hnum.
  destruct (exposed_entity_info _ _ _ _ Hout Hnd Hin Hexp)
    as (info & attrs & Hfiled & Hof).
  destruct (attribute_loop_complete _ _ _ _ _ (info_attrs_loop _ _ _ _ Hof)
              Hkeys Hattr brightness_interesting) as (w & Hconv & Hbound).
  rewrite (convert_brightness_number _ Hnum) in Hconv.
  destruct (rescale_brightness_ok _ _ Hconv) as (x & n & Hx & Hround & ->).
  assert (∀ z, 0 ≤ z ≤ 255 → v = VInt z ∨ v = VFloat (float_of_Z z) →
               n = round_half_even (z * 100) 255) as Hexact.
  { intros z Hz Hv. destruct (rescale_brightness_exact z Hz) as [Hi Hf].
    unfold brightness_percent in Hi, Hf. destruct Hv as [->| ->]; congruence. }
  exists info, attrs, x, n. repeat split; try done.
  - rewrite (info_attributes _ _ _ _ Hof).
    assert (nonempty_dict attrs = true) as ->; [|done].
    apply nonempty_dict_true. exists "brightness"%string. by eexists.
  - intros ->. by apply (Hexact 255); [lia | left].
  - intros ->. by apply (Hexact 0); [lia | left].
  - intros ->. by apply (Hexact 128); [lia | left].
Qed.

Lemma brightness_rescaled_witness :
  Example.attributes_at Example.report "entities" "light.bedroom" !! "brightness"%string
  = Some (VInt 50).
Proof.
  destruct (brightness_rescaled Example.hass "conversation" Example.report
              Example.bedroom_light (VInt 128))
    as (info & attrs & x & n & Hfiled & Hattrs & Hb & _ & _ & _ & _ & _ & Hn).
  - exact example_report_ok.
  - exact example_ids_distinct.
  - left.
  - vm_compute. reflexivity.
  - apply (bool_decide_unpack _). vm_compute. reflexivity.
  - left.
  - exact I.
  - unfold Example.attributes_at.
    change (bucket_key Example.bedroom_light) with "entities"%string in Hfiled.
    change (entity_id Example.bedroom_light) with "light.bedroom"%string in Hfiled.
    rewrite Hfiled. simpl. rewrite Hattrs, Hb. by rewrite (Hn eq_refl).
Defined.

Lemma interesting_allow_list k : interesting k ↔ k ∈ allow_list.
Proof.
  unfold interesting, allow_list.
  assert (interesting_attributes = list_to_set allow_list) as ->.
  { apply (bool_decide_unpack _). vm_compute. reflexivity. }
  apply elem_of_list_to_set.
Qed.

Lemma convert_attribute_cases k v :
  convert_attribute k v =
  if String.eqb k "brightness" && host_numeric v then rescale_brightness v
  else if stringified v then s ← py_str v; Ok (VStr s)
  else Ok v.
Proof.
  unfold convert_attribute.
  destruct v as [| | | | |[c n []]| |]; try reflexivity;
    by destruct (String.eqb k "brightness").
Qed.

(** C4, as the code has it.  An allowed attribute that is not a numeric
    brightness is stored as its string when it is a boolean, an integer, a
    member of an enumeration or an exact decimal, and is copied unchanged
    when it is a string, a float, [None] or any other object. *)
Theorem attribute_conversion hass assistant out st k v :
  _custom_get_exposed_entities hass assistant = Ok out →
  NoDup (entity_id <$> states hass) →
  st ∈ states hass →
  async_should_expose hass assistant (entity_id st) = true →
  NoDup (attributes st).*1 →
  (k, v) ∈ attributes st →
  k ∈ allow_list →
  ¬ (k = "brightness"%string ∧ host_numeric v = true) →
  ∃ info attrs,
    filed out (bucket_key st) (entity_id st) = Some info ∧
    info !! "attributes"%string = Some (IDict attrs) ∧
    match v with
    | VBool b => attrs !! k = Some (VStr (if b then "True" else "False"))
    | VInt z => ∃ s, int_str z = Ok s ∧ attrs !! k = Some (VStr s)
    | VEnum m => ∃ s, enum_str m = Ok s ∧ attrs !! k = Some (VStr s)
    | VDecimal d => attrs !! k = Some (VStr (decimal_str d))
    | VNone | VStr _ | VFloat _ | VObject _ => attrs !! k = Some v
    end.
Proof.
  intros Hout Hnd Hin Hexp Hkeys Hattr Hallow Hnot.
  apply interesting_allow_list in Hallow.
  destruct (exposed_entity_info _ _ _ _ Hout Hnd Hin Hexp)
    as (info & attrs & Hfiled & Hof).
  destruct (attribute_loop_complete _ _ _ _ _ (info_attrs_loop _ _ _ _ Hof)
              Hkeys Hattr Hallow) as (w & Hconv & Hbound).
  exists info, attrs. split; [exact Hfiled|]. split.
  { rewrite (info_attributes _ _ _ _ Hof).
    assert (nonempty_dict attrs = true) as ->; [|reflexivity].
    apply nonempty_dict_true. exists k. by eexists. }
  rewrite convert_attribute_cases in Hconv.
  assert (String.eqb k "brightness" && host_numeric v = false) as Hbranch.
  { apply not_true_iff_false. intros [Hk Hv]%andb_true_iff.
    apply Hnot. by apply String.eqb_eq in Hk. }
  rewrite Hbranch in Hconv. clear Hbranch Hnot Hallow Hattr.
  destruct v as [|b|z| | |m|d|]; simpl in Hconv.
  - congruence.
  - injection Hconv as <-. exact Hbound.
  - destruct (int_str z) as [s|e]; simpl in Hconv; [|discriminate].
    injection Hconv as <-. by exists s.
  - congruence.
  - congruence.
  - destruct (enum_str m) as [s|e]; simpl in Hconv; [|discriminate].
    injection Hconv as <-. by exists s.
  - injection Hconv as <-. exact Hbound.
  - congruence.
Qed.

Lemma attribute_conversion_witness :
  Example.attributes_at Example.report "entities" "sensor.hall" !! "temperature"%string
  = Some (VStr "21.5").
Proof.
  destruct (attribute_conversion Example.hass "conversation" Example.report
              Example.hall_sensor "temperature"
              (VDecimal (DFinite false 215 (-1))))
    as (info & attrs & Hfiled & Hattrs & Hb).
  - exact example_report_ok.
  - exact example_ids_distinct.
  - right. left.
  - vm_compute. reflexivity.
  - apply (bool_decide_unpack _). vm_compute. reflexivity.
  - do 2 right. left.
  - left.
  - intros [Hk _]. discriminate Hk.
  - unfold Example.attributes_at.
    change (bucket_key Example.hall_sensor) with "entities"%string in Hfiled.
    change (entity_id Example.hall_sensor) with "sensor.hall"%string in Hfiled.
    rewrite Hfiled. simpl. by rewrite Hattrs, Hb.
Defined.

(** C4 as stated fails on a boolean: the filter stores the string [True]
    where the claim has the boolean copied unchanged. *)
Lemma boolean_attribute_stringified :
  _custom_get_exposed_entities Example.hass_bool "conversation"
  = Ok Example.report_bool ∧
  Example.attributes_at Example.report_bool "entities" "media_player.tv"
    !! "volume_level"%string = Some (VStr "True") ∧
  Example.attributes_at Example.report_bool "entities" "media_player.tv"
    !! "volume_level"%string ≠ Some (VBool true).
Proof.
  split; [vm_cast_no_check (@eq_refl _ (Ok Example.report_bool))|].
  assert (Example.attributes_at Example.report_bool "entities" "media_player.tv"
            !! "volume_level"%string = Some (VStr "True")) as ->.
  { vm_compute. reflexivity. }
  split; [reflexivity | discriminate].
Qed.

(** ** Names and areas *)

(** C5. The names field of an exposed entity is its display name followed
    by the aliases of its registry entry in stored order, joined by a comma
    and a space; without a registry entry it is the display name alone and
    there is no areas field. *)
Theorem names_field hass assistant out st :
  _custom_get_exposed_entities hass assistant = Ok out →
  NoDup (entity_id <$> states hass) →
  st ∈ states hass →
  async_should_expose hass assistant (entity_id st) = true →
  ∃ info,
    filed out (bucket_key st) (entity_id st) = Some info ∧
    match entity_registry hass !! entity_id st with
    | Some entry =>
        info !! "names"%string
        = Some (IStr (String.concat ", " (name st :: aliases entry)))
    | None =>
        info !! "names"%string = Some (IStr (name st)) ∧
        info !! "areas"%string = None
    end.
Proof.
  intros Hout Hnd Hin Hexp.
  destruct (exposed_entity_info _ _ _ _ Hout Hnd Hin Hexp)
    as (info & attrs & Hfiled & Hof).
  exists info. split; [exact Hfiled|].
  pose proof (info_names _ _ _ _ Hof) as Hnames.
  pose proof (info_areas _ _ _ _ Hof) as Hareas.
  unfold display_names in Hnames. unfold area_names_of in Hareas.
  destruct (entity_registry hass !! entity_id st) as [entry|]; [exact Hnames|].
  split; [exact Hnames | exact Hareas].
Qed.

Lemma names_field_witness :
  (filed Example.report "entities" "light.bedroom" ≫= (.!! "names"%string))
  = Some (IStr "Light 1, Lamp A, Bedroom Lamp").
Proof.
  destruct (names_field Example.hass "conversation" Example.report
              Example.bedroom_light) as (info & Hfiled & Hnames).
  - exact example_report_ok.
  - exact example_ids_distinct.
  - left.
  - vm_compute. reflexivity.
  - change (bucket_key Example.bedroom_light) with "entities"%string in Hfiled.
    change (entity_id Example.bedroom_light) with "light.bedroom"%string in Hfiled.
    rewrite Hfiled. simpl.
    change (entity_registry Example.hass !! "light.bedroom"%string)
      with (Some {| aliases := ["Lamp A"; "Bedroom Lamp"]%string;
                    area_id := Some "bedroom"%string;
                    device_id := Some "hue1"%string |}) in Hnames.
    exact Hnames.
Defined.

Lemma get_if_set_Some {A : Type} (registry : gmap string A) id record :
  get_if_set registry id = Some record ↔ resolves registry id record.
Proof.
  unfold get_if_set, resolves. destruct id as [i|].
  - destruct (String.eqb_spec i "") as [->|Hi]; split.
    + discriminate.
    + intros (j & [= <-] & Hj & _). by destruct Hj.
    + intros Hr. by exists i.
    + by intros (j & [= <-] & _ & Hr).
  - split; [discriminate | by intros (j & Hj & _)].
Qed.

Lemma get_if_set_None {A : Type} (registry : gmap string A) id :
  get_if_set registry id = None ↔ unresolved registry id.
Proof.
  unfold unresolved. split.
  - intros Hnone record Hr%get_if_set_Some. congruence.
  - intros Hun. destruct (get_if_set registry id) as [record|] eqn:Hget; [|done].
    destruct (Hun record). by apply get_if_set_Some.
Qed.

(** C6. For an exposed entity with a registry entry: when the entry's own
    area resolves, the areas field is that area's name and aliases,
    whatever the device's area is; otherwise, when the entry's device
    resolves and the device's area resolves, it is that area's name and
    aliases; when neither resolves there is no areas field. *)
Theorem areas_field hass assistant out st entry :
  _custom_get_exposed_entities hass assistant = Ok out →
  NoDup (entity_id <$> states hass) →
  st ∈ states hass →
  async_should_expose hass assistant (entity_id st) = true →
  entity_registry hass !! entity_id st = Some entry →
  ∃ info,
    filed out (bucket_key st) (entity_id st) = Some info ∧
    (∀ area, resolves (area_registry hass) (area_id entry) area →
             info !! "areas"%string = Some (IStr (area_label area))) ∧
    (∀ device area,
        unresolved (area_registry hass) (area_id entry) →
        resolves (device_registry hass) (device_id entry) device →
        resolves (area_registry hass) (device_area_id device) area →
        info !! "areas"%string = Some (IStr (area_label area))) ∧
    (unresolved (area_registry hass) (area_id entry) →
     (∀ device, resolves (device_registry hass) (device_id entry) device →
                unresolved (area_registry hass) (device_area_id device)) →
     info !! "areas"%string = None).
Proof.
  intros Hout Hnd Hin Hexp Hentry.
  destruct (exposed_entity_info _ _ _ _ Hout Hnd Hin Hexp)
    as (info & attrs & Hfiled & Hof).
  exists info. split; [exact Hfiled|].
  pose proof (info_areas _ _ _ _ Hof) as Hareas.
  unfold area_names_of in Hareas. rewrite Hentry in Hareas.
  unfold entity_area_names in Hareas.
  split; [|split].
  - intros area Harea%get_if_set_Some. by rewrite Harea in Hareas.
  - intros device area Hun%get_if_set_None Hdev%get_if_set_Some
      Harea%get_if_set_Some.
    by rewrite Hun, Hdev, Harea in Hareas.
  - intros Hun%get_if_set_None Hdev. rewrite Hun in Hareas.
    destruct (get_if_set (device_registry hass) (device_id entry))
      as [device|] eqn:Hd; [|exact Hareas].
    apply get_if_set_Some, Hdev, get_if_set_None in Hd.
    by rewrite Hd in Hareas.
Qed.

Lemma areas_field_witness :
  (filed Example.report "entities" "light.bedroom" ≫= (.!! "areas"%string))
  = Some (IStr "Bedroom, Sleeping room").
Proof.
  destruct (areas_field Example.hass "conversation" Example.report
              Example.bedroom_light
              {| aliases := ["Lamp A"; "Bedroom Lamp"]%string;
                 area_id := Some "bedroom"%string;
                 device_id := Some "hue1"%string |})
    as (info & Hfiled & Hdirect & _).
  - exact example_report_ok.
  - exact example_ids_distinct.
  - left.
  - vm_compute. reflexivity.
  - vm_compute. reflexivity.
  - change (bucket_key Example.bedroom_light) with "entities"%string in Hfiled.
    change (entity_id Example.bedroom_light) with "light.bedroom"%string in Hfiled.
    rewrite Hfiled. simpl.
    apply (Hdirect {| area_name := "Bedroom";
                      area_aliases := ["Sleeping room"]%string |}).
    exists "bedroom"%string. split; [reflexivity|]. split; [discriminate|].
    vm_compute. reflexivity.
Defined.

(** C7. For an exposed entity: a name outside the allow-list is never a key
    of the output attribute mapping, whatever its value; the attributes
    field is present exactly when the entity carries an attribute whose
    name is on the allow-list; the areas field is present exactly when the
    list of area names is not empty. *)
Theorem optional_fields hass assistant out st :
  _custom_get_exposed_entities hass assistant = Ok out →
  NoDup (entity_id <$> states hass) →
  st ∈ states hass →
  async_should_expose hass assistant (entity_id st) = true →
  ∃ info,
    filed out (bucket_key st) (entity_id st) = Some info ∧
    (∀ attrs k, info !! "attributes"%string = Some (IDict attrs) →
                k ∉ allow_list → attrs !! k = None) ∧
    (is_Some (info !! "attributes"%string) ↔
     ∃ k v, (k, v) ∈ attributes st ∧ k ∈ allow_list) ∧
    (is_Some (info !! "areas"%string) ↔ area_names_of hass st ≠ []).
Proof.
  intros Hout Hnd Hin Hexp.
  destruct (exposed_entity_info _ _ _ _ Hout Hnd Hin Hexp)
    as (info & attrs & Hfiled & Hof).
  exists info. split; [exact Hfiled|].
  pose proof (info_attrs_loop _ _ _ _ Hof) as Hloop.
  pose proof (info_attributes _ _ _ _ Hof) as Hattrs.
  pose proof (info_areas _ _ _ _ Hof) as Hareas.
  split; [|split].
  - intros attrs' k Hsome Hk. rewrite Hattrs in Hsome.
    destruct (nonempty_dict attrs); [|discriminate].
    injection Hsome as <-.
    rewrite (attribute_loop_frame _ _ _ _ Hloop); [apply lookup_empty|].
    intros Hint%interesting_allow_list. contradiction.
  - rewrite Hattrs.
    transitivity (∃ k v, (k, v) ∈ attributes st ∧ interesting k).
    + rewrite <- (attribute_loop_nonempty _ _ Hloop).
      destruct (nonempty_dict attrs).
      * split; [reflexivity | by eexists].
      * split; [by intros [? ?] | discriminate].
    + split; intros (k & v & Hin' & Hint); exists k, v; split; try exact Hin';
        by apply interesting_allow_list.
  - rewrite Hareas. destruct (area_names_of hass st); simpl.
    + split; [by intros [? ?] | done].
    + split; [done | by eexists].
Qed.

Lemma optional_fields_witness :
  Example.attributes_at Example.report "entities" "light.bedroom"
    !! "friendly_name"%string = None.
Proof.
  destruct (optional_fields Example.hass "conversation" Example.report
              Example.bedroom_light) as (info & Hfiled & Hdrop & _ & _).
  - exact example_report_ok.
  - exact example_ids_distinct.
  - left.
  - vm_compute. reflexivity.
  - unfold Example.attributes_at.
    change (bucket_key Example.bedroom_light) with "entities"%string in Hfiled.
    change (entity_id Example.bedroom_light) with "light.bedroom"%string in Hfiled.
    rewrite Hfiled. simpl.
    destruct (info !! "attributes"%string) as [[s|attrs]|] eqn:Hattrs;
      [apply lookup_empty | | apply lookup_empty].
    apply (Hdrop attrs); [reflexivity|].
    apply (bool_decide_unpack _). vm_compute. reflexivity.
Defined.

(** ** When the filter returns *)

Lemma for_each_ext {A S : Type} (body1 body2 : S → A → result S) l s :
  (∀ s x, x ∈ l → body1 s x = body2 s x) →
  for_each body1 l s = for_each body2 l s.
Proof.
  revert s. induction l as [|x l IH]; intros s Hbody; [reflexivity|].
  simpl. rewrite (Hbody s x) by left.
  destruct (body2 s x) as [s1|e]; simpl; [|reflexivity].
  apply IH. intros s' y Hy. apply Hbody. by right.
Qed.

Lemma attribute_step_is_ok attrs item :
  is_ok (attribute_step attrs item) = true ↔ item_converts item.
Proof.
  destruct item as [k v]. unfold attribute_step, item_converts, interesting. simpl.
  case_bool_decide as Hin.
  - destruct (convert_attribute k v); simpl.
    + split; [intros _ _; reflexivity | intros _; reflexivity].
    + split; [discriminate | intros Hk; exact (Hk Hin)].
  - split; [intros _ Hint; destruct (Hin Hint) | intros _; reflexivity].
Qed.

Lemma build_info_converts hass st :
  is_ok (build_info hass st) = true ↔ Forall item_converts (attributes st).
Proof.
  rewrite build_info_is_ok. apply for_each_ok_iff. apply attribute_step_is_ok.
Qed.

Lemma state_step_is_ok hass assistant acc st :
  is_ok (state_step hass assistant acc st) = true ↔
  (exposed hass assistant st → Forall item_converts (attributes st)).
Proof.
  rewrite <- (build_info_converts hass). unfold state_step, exposed.
  destruct (async_should_expose hass assistant (entity_id st)); simpl.
  - destruct (build_info hass st); simpl.
    + split; [intros _ _; reflexivity | intros _; reflexivity].
    + split; [discriminate | intros Hk; exact (Hk eq_refl)].
  - split; [discriminate | intros _; reflexivity].
Qed.

Lemma custom_get_exposed_entities_is_ok hass assistant :
  is_ok (_custom_get_exposed_entities hass assistant) = true ↔
  Forall (λ st, exposed hass assistant st → Forall item_converts (attributes st))
         (states hass).
Proof.
  rewrite <- (for_each_ok_iff (state_step hass assistant) _ (states hass)
                (state_step_is_ok hass assistant) (∅, initial_data)).
  unfold _custom_get_exposed_entities. fold initial_data.
  by destruct (for_each _ _ _) as [[entities data]|e].
Qed.

Lemma int_str_raises z : is_ok (int_str z) = false → too_long z.
Proof.
  unfold int_str, too_long.
  destruct (Nat.ltb_spec int_max_str_digits (String.length (uint_str (Z.abs_N z))));
    [done | discriminate].
Qed.

Lemma int_str_too_long z : too_long z → is_ok (int_str z) = false.
Proof.
  unfold int_str, too_long. intros Hz.
  destruct (Nat.ltb_spec int_max_str_digits (String.length (uint_str (Z.abs_N z))));
    [reflexivity | lia].
Qed.

Lemma py_str_too_long v z :
  printed_int v = Some z → too_long z → is_ok (py_str v) = false.
Proof.
  destruct v as [|b|z'| | |[c n mixin]|d|]; simpl; try discriminate.
  - intros [= ->]. apply int_str_too_long.
  - unfold enum_str. simpl. destruct mixin as [|z'| |]; try discriminate.
    intros [= ->]. apply int_str_too_long.
Qed.

Lemma py_str_raises v :
  is_ok (py_str v) = false → ∃ z, printed_int v = Some z ∧ too_long z.
Proof.
  destruct v as [|b|z| | |[c n mixin]|d|]; simpl; try discriminate.
  - intros Hz%int_str_raises. by exists z.
  - unfold enum_str. simpl. destruct mixin as [|z| |]; try discriminate.
    intros Hz%int_str_raises. by exists z.
Qed.

Lemma int_str_ok z : ¬ too_long z → is_ok (int_str z) = true.
Proof.
  unfold int_str, too_long. intros Hz.
  destruct (Nat.ltb_spec int_max_str_digits (String.length (uint_str (Z.abs_N z))));
    [contradiction | reflexivity].
Qed.

Lemma py_round_finite y : finite_double y → ∃ n, py_round y = Ok n.
Proof. destruct y; simpl; [eauto | done | done | eauto]. Qed.

(** A value with a finite double to divide has a percentage. *)
Lemma rescale_brightness_finite v :
  finite_operand v → is_ok (rescale_brightness v) = true.
Proof.
  intros (x & Hx & Hfin). unfold rescale_brightness. rewrite Hx. simpl.
  destruct (py_round_finite _ (rescale_finite x Hfin)) as [n ->]. reflexivity.
Qed.

Lemma int_to_float_finite z :
  Z.abs z < 2 ^ 1023 →
  ∃ x, int_to_float z = Ok x ∧ finite_double x.
Proof.
  intros Hz%float_of_Z_finite. unfold int_to_float.
  exists (float_of_Z z). by destruct (float_of_Z z).
Qed.

(** What the conversion of an integer returns is a finite double. *)
Lemma int_to_float_ok z x : int_to_float z = Ok x → finite_double x.
Proof.
  unfold int_to_float. pose proof (float_of_Z_cases z) as Hcases.
  destruct (float_of_Z z); [| discriminate | |]; by intros [= <-].
Qed.

(** An integer brightness has a percentage exactly when its conversion to
    float does not overflow. *)
Lemma rescale_brightness_int z :
  is_ok (rescale_brightness (VInt z)) = is_ok (int_to_float z).
Proof.
  destruct (int_to_float z) as [x|e] eqn:Hx.
  - apply rescale_brightness_finite. exists x. split; [exact Hx|].
    by apply (int_to_float_ok z).
  - unfold rescale_brightness. simpl. by rewrite Hx.
Qed.

Lemma ordinary_converts k v : ordinary k v → is_ok (convert_attribute k v) = true.
Proof.
  rewrite convert_attribute_cases.
  assert (∀ z, ¬ too_long z → is_ok (s ← int_str z; Ok (VStr s)) = true) as Hstr.
  { intros z Hz%int_str_ok. by destruct (int_str z). }
  assert (∀ z, Z.abs z < 2 ^ 1023 → finite_operand (VInt z)) as Hint.
  { intros z Hz. by apply int_to_float_finite. }
  destruct v as [|b|z|x|s|[c n mixin]|d|repr]; simpl;
    rewrite ?andb_false_r, ?andb_true_r; try reflexivity.
  - intros _. destruct (String.eqb k "brightness"); [|by destruct b].
    apply rescale_brightness_finite. destruct b; by apply int_to_float_finite.
  - destruct (String.eqb k "brightness"); [|by apply Hstr].
    intros Hz. by apply rescale_brightness_finite, Hint.
  - intros Hk. destruct (String.eqb_spec k "brightness") as [->|]; [|done].
    apply rescale_brightness_finite. exists x. by split; [|apply Hk].
  - unfold enum_str. destruct mixin as [|z|s|x]; simpl;
      rewrite ?andb_false_r, ?andb_true_r; try reflexivity.
    + destruct (String.eqb k "brightness"); [|by apply Hstr].
      intros Hz. apply rescale_brightness_finite. by apply int_to_float_finite.
    + intros Hk. destruct (String.eqb_spec k "brightness") as [->|]; [|done].
      apply rescale_brightness_finite. exists x. by split; [|apply Hk].
Qed.

(** A value with no float to divide, or with NaN or an infinity, has no
    percentage. *)
Lemma rescale_brightness_not_finite v :
  (∀ x, operand_to_float v = Ok x → x = S754_nan ∨ ∃ s, x = S754_infinity s) →
  is_ok (rescale_brightness v) = false.
Proof.
  intros Hop. unfold rescale_brightness.
  destruct (operand_to_float v) as [x|e]; [|reflexivity].
  destruct (Hop x eq_refl) as [->|[s ->]]; [reflexivity | by destruct s].
Qed.

(** Brightness values that have no percentage. *)
Lemma rescale_brightness_raises :
  rescale_brightness (VFloat S754_nan) = Raise ValueError ∧
  (∀ s, rescale_brightness (VFloat (S754_infinity s)) = Raise OverflowError) ∧
  rescale_brightness (VInt (10 ^ 400)) = Raise OverflowError.
Proof.
  split; [reflexivity|]. split; [by intros []|]. vm_compute. reflexivity.
Qed.

(** C8, as the code has it.  The filter returns a report exactly when every
    allowed attribute of every exposed entity converts.  What the
    registries hold plays no part in that, and a record that is missing
    leaves its data out of the entry: with no registry entry the names are
    the state's name alone and there are no areas, and with an area or a
    device that no record answers there are no areas.  A conversion raises
    only for a
    numeric brightness that is not a finite double (NaN, an infinity, an
    integer that overflows its conversion to float), or for an integer of
    more digits than [str] accepts; a brightness that is a string, [None]
    or another object is passed through; and the filter returns whenever
    the allowed attributes of the exposed entities are ordinary values. *)
Theorem filter_returns_iff hass assistant :
  (is_ok (_custom_get_exposed_entities hass assistant) = true ↔
   ∀ st k v, st ∈ states hass →
             async_should_expose hass assistant (entity_id st) = true →
             (k, v) ∈ attributes st → k ∈ allow_list →
             is_ok (convert_attribute k v) = true) ∧
  is_ok (_custom_get_exposed_entities hass assistant)
  = is_ok (_custom_get_exposed_entities (without_registries hass) assistant) ∧
  (∀ out k id info,
     _custom_get_exposed_entities hass assistant = Ok out →
     filed out k id = Some info →
     ∃ st, st ∈ states hass ∧ entity_id st = id ∧
           (entity_registry hass !! id = None →
            info !! "names"%string = Some (IStr (name st)) ∧
            info !! "areas"%string = None) ∧
           (∀ entry,
              entity_registry hass !! id = Some entry →
              unresolved (area_registry hass) (area_id entry) →
              (∀ device,
                 resolves (device_registry hass) (device_id entry) device →
                 unresolved (area_registry hass) (device_area_id device)) →
              info !! "areas"%string = None)) ∧
  (∀ k v, is_ok (convert_attribute k v) = false →
          (k = "brightness"%string ∧ host_numeric v = true ∧
           is_ok (rescale_brightness v) = false ∧ ¬ finite_operand v) ∨
          (∃ z, printed_int v = Some z ∧ too_long z)) ∧
  (∀ v, host_numeric v = true →
        (∀ x, operand_to_float v = Ok x → x = S754_nan ∨ ∃ s, x = S754_infinity s) →
        is_ok (convert_attribute "brightness" v) = false) ∧
  (∀ k v z, k ≠ "brightness"%string → printed_int v = Some z → too_long z →
            is_ok (convert_attribute k v) = false) ∧
  (∀ s, convert_attribute "brightness" (VStr s) = Ok (VStr s)) ∧
  convert_attribute "brightness" VNone = Ok VNone ∧
  (∀ repr, convert_attribute "brightness" (VObject repr) = Ok (VObject repr)) ∧
  ((∀ st k v, st ∈ states hass →
              async_should_expose hass assistant (entity_id st) = true →
              (k, v) ∈ attributes st → k ∈ allow_list → ordinary k v) →
   is_ok (_custom_get_exposed_entities hass assistant) = true).
Proof.
  assert (∀ h, is_ok (_custom_get_exposed_entities h assistant) = true ↔
               ∀ st k v, st ∈ states h →
                         async_should_expose h assistant (entity_id st) = true →
                         (k, v) ∈ attributes st → k ∈ allow_list →
                         is_ok (convert_attribute k v) = true) as Hiff.
  { intros h. rewrite custom_get_exposed_entities_is_ok, Forall_forall. split.
    - intros Hall st k v Hin Hexp Hattr Hallow%interesting_allow_list.
      specialize (Hall st Hin Hexp). rewrite Forall_forall in Hall.
      exact (Hall (k, v) Hattr Hallow).
    - intros Hall st Hin Hexp. apply Forall_forall. intros [k v] Hattr Hint.
      apply (Hall st k v Hin Hexp Hattr). by apply interesting_allow_list. }
  split; [apply Hiff|].
  split; [|split; [|split; [|split; [|split; [|split; [|split; [|split]]]]]]];
    try reflexivity.
  - apply eq_true_iff_eq. rewrite (Hiff hass), (Hiff (without_registries hass)).
    reflexivity.
  - intros out k id info Hout Hfiled.
    destruct (report_sound _ _ _ _ _ _ Hout Hfiled)
      as (st & Hin & _ & _ & -> & Hbuild).
    apply build_info_ok in Hbuild as [attrs Hof].
    exists st. split; [exact Hin|]. split; [reflexivity|].
    pose proof (info_names _ _ _ _ Hof) as Hnames.
    pose proof (info_areas _ _ _ _ Hof) as Hareas.
    unfold display_names in Hnames. unfold area_names_of in Hareas. split.
    + intros Hnone. rewrite Hnone in Hnames, Hareas.
      split; [exact Hnames | exact Hareas].
    + intros entry Hentry Hun%get_if_set_None Hdev. rewrite Hentry in Hareas.
      unfold entity_area_names in Hareas. rewrite Hun in Hareas.
      destruct (get_if_set (device_registry hass) (device_id entry))
        as [device|] eqn:Hd; [|exact Hareas].
      apply get_if_set_Some, Hdev, get_if_set_None in Hd.
      by rewrite Hd in Hareas.
  - intros k v. rewrite convert_attribute_cases.
    destruct (String.eqb_spec k "brightness") as [->|Hk]; simpl.
    + destruct (host_numeric v) eqn:Hnum.
      { intros Hraise. left. repeat split; try done.
        intros Hfin%rescale_brightness_finite. congruence. }
      destruct (stringified v); [|discriminate].
      intros Hraise. right. apply py_str_raises.
      by destruct (py_str v).
    + destruct (stringified v); [|discriminate].
      intros Hraise. right. apply py_str_raises.
      by destruct (py_str v).
  - intros v Hnum Hop. rewrite convert_attribute_cases, Hnum. simpl.
    by apply rescale_brightness_not_finite.
  - intros k v z Hk Hprinted Hlong. rewrite convert_attribute_cases.
    destruct (String.eqb_spec k "brightness") as [|_]; [done|]. simpl.
    pose proof (py_str_too_long v z Hprinted Hlong) as Hraise.
    assert (stringified v = true) as -> by (by destruct v as [| | | | |[? ? []]| |]).
    by destruct (py_str v).
  - intros Hord. apply Hiff. intros st k v Hin Hexp Hattr Hallow.
    apply ordinary_converts. by apply (Hord st).
Qed.

Lemma filter_returns_iff_witness :
  is_ok (_custom_get_exposed_entities Example.hass "conversation") = true.
Proof.
  destruct (filter_returns_iff Example.hass "conversation")
    as (_ & _ & _ & _ & _ & _ & _ & _ & _ & Hordinary).
  apply Hordinary. intros st k v Hin _ Hattr _.
  assert (Forall (λ st, Forall (λ item, ordinary item.1 item.2) (attributes st))
                 (states Example.hass)) as Hall.
  { repeat constructor; simpl; try lia.
    unfold too_long. vm_compute. lia. }
  rewrite Forall_forall in Hall. specialize (Hall st Hin).
  rewrite Forall_forall in Hall. exact (Hall (k, v) Hattr).
Defined.

(** C8 as stated fails on a brightness that is NaN: [round] has no integer
    for it and the call raises. *)
Lemma nan_brightness_raises :
  _custom_get_exposed_entities Example.hass_nan "conversation" = Raise ValueError.
Proof. vm_compute. reflexivity. Qed.

(** ** Determinism *)

Lemma build_info_registries hass1 hass2 st :
  entity_registry hass1 = entity_registry hass2 →
  area_registry hass1 = area_registry hass2 →
  device_registry hass1 = device_registry hass2 →
  build_info hass1 st = build_info hass2 st.
Proof.
  intros Hentity Harea Hdevice.
  rewrite !build_info_eq. unfold info_with, display_names, area_names_of.
  rewrite Hentity. destruct (entity_registry hass2 !! entity_id st) as [entry|];
    [|reflexivity].
  unfold entity_area_names. by rewrite Harea, Hdevice.
Qed.

(** ** The store: what the filter reads and what it writes *)

(** Dictionaries. *)

Lemma read_dict_nil {V W : Type} (f : V → option W) : read_dict f [] = Some ∅.
Proof. reflexivity. Qed.

Lemma read_dict_cons {V W : Type} (f : V → option W) k v d m :
  read_dict f ((k, v) :: d) = Some m ↔
  ∃ w m', f v = Some w ∧ read_dict f d = Some m' ∧ m = <[k := w]> m'.
Proof.
  unfold read_dict. cbn [mapM].
  destruct (f v) as [w|]; simpl.
  - destruct (mapM _ d) as [items|]; simpl.
    + split.
      * intros [= <-]. by exists w, (list_to_map items).
      * intros (w' & m' & [= <-] & [= <-] & ->). reflexivity.
    + split; [discriminate|]. by intros (w' & m' & _ & ? & _).
  - split; [discriminate|]. by intros (w' & m' & ? & _).
Qed.

Lemma read_dict_setitem {V W : Type} (f : V → option W) d k v w m :
  read_dict f d = Some m → f v = Some w →
  read_dict f (Heap.setitem d k v) = Some (<[k := w]> m).
Proof.
  intros Hd Hv. revert m Hd.
  induction d as [|[k0 v0] d IH]; intros m Hd; cbn [Heap.setitem].
  - injection Hd as <-. apply read_dict_cons. by exists w, ∅.
  - apply read_dict_cons in Hd as (w0 & m' & Hv0 & Hd & ->).
    destruct (String.eqb_spec k0 k) as [->|Hne].
    + apply read_dict_cons. exists w, m'. by rewrite insert_insert_eq.
    + apply read_dict_cons. exists w0, (<[k := w]> m').
      split; [exact Hv0|]. split; [by apply IH|]. by apply insert_insert_ne.
Qed.

Lemma read_dict_mono {V W : Type} (f g : V → option W) d m :
  (∀ v w, f v = Some w → g v = Some w) →
  read_dict f d = Some m → read_dict g d = Some m.
Proof.
  intros Hfg. revert m. induction d as [|[k v] d IH]; intros m; [done|].
  rewrite !read_dict_cons. intros (w & m' & Hv & Hd & ->).
  exists w, m'. by split; [apply Hfg|split; [apply IH|]].
Qed.

Lemma read_dict_ext {V W : Type} (f g : V → option W) d :
  (∀ v, f v = g v) → read_dict f d = read_dict g d.
Proof.
  intros Hfg. unfold read_dict. f_equal.
  induction d as [|[k v] d IH]; [reflexivity|].
  cbn [mapM]. by rewrite Hfg, IH.
Qed.

Lemma list_to_map_setitem {V : Type} (d : Heap.dict V) k v :
  (list_to_map (Heap.setitem d k v) : gmap string V) = <[k := v]> (list_to_map d).
Proof.
  induction d as [|[k0 v0] d IH]; cbn [Heap.setitem]; [reflexivity|].
  destruct (String.eqb_spec k0 k) as [->|Hne]; cbn [list_to_map foldr].
  - change (<[k:=v]> (list_to_map d) = <[k:=v]> (<[k:=v0]> (list_to_map d)) :> gmap string V).
    by rewrite insert_insert_eq.
  - change (<[k0:=v0]> (list_to_map (Heap.setitem d k v))
            = <[k:=v]> (<[k0:=v0]> (list_to_map d)) :> gmap string V).
    rewrite IH. by apply insert_insert_ne.
Qed.

Lemma nonempty_list_to_map {V : Type} (d : Heap.dict V) :
  nonempty_dict (list_to_map d : gmap string V) = nonempty_list d.
Proof.
  unfold nonempty_dict. destruct d as [|[k v] d]; [reflexivity|].
  cbn [nonempty_list]. apply negb_true_iff, Nat.eqb_neq.
  intros Hsize%map_size_empty_iff. simpl in Hsize.
  by apply insert_non_empty in Hsize.
Qed.

(** Reading is stable: what has been read from a store is read from every
    store that has kept its objects, and from a store in which a dictionary
    of another kind has been replaced. *)

Lemma read_strings_mono h h' l items :
  h ⊆ h' → read_strings h l = Some items → read_strings h' l = Some items.
Proof.
  unfold read_strings. intros Hsub (o & Ho & Hitems)%bind_Some.
  by rewrite (lookup_weaken _ _ _ _ Ho Hsub).
Qed.

Lemma read_attributes_mono h h' l items :
  h ⊆ h' → read_attributes h l = Some items → read_attributes h' l = Some items.
Proof.
  unfold read_attributes. intros Hsub (o & Ho & Hitems)%bind_Some.
  by rewrite (lookup_weaken _ _ _ _ Ho Hsub).
Qed.

Lemma read_slot_mono h h' slot v :
  h ⊆ h' → read_slot h slot = Some v → read_slot h' slot = Some v.
Proof.
  intros Hsub. destruct slot as [s|l]; [done|]. simpl.
  intros (items & Hitems & Hv)%bind_Some.
  by rewrite (read_attributes_mono _ _ _ _ Hsub Hitems).
Qed.

Lemma read_info_mono h h' l info :
  h ⊆ h' → read_info h l = Some info → read_info h' l = Some info.
Proof.
  unfold read_info. intros Hsub (items & (o & Ho & Hitems)%bind_Some & Hd)%bind_Some.
  rewrite (lookup_weaken _ _ _ _ Ho Hsub). simpl. rewrite Hitems. simpl.
  apply (read_dict_mono (read_slot h)); [|exact Hd].
  intros slot v. by apply read_slot_mono.
Qed.

Lemma read_bucket_mono h h' l bucket :
  h ⊆ h' → read_bucket h l = Some bucket → read_bucket h' l = Some bucket.
Proof.
  unfold read_bucket. intros Hsub (items & (o & Ho & Hitems)%bind_Some & Hd)%bind_Some.
  rewrite (lookup_weaken _ _ _ _ Ho Hsub). simpl. rewrite Hitems. simpl.
  apply (read_dict_mono (read_info h)); [|exact Hd].
  intros i info. by apply read_info_mono.
Qed.

Lemma read_report_mono h h' l report :
  h ⊆ h' → read_report h l = Some report → read_report h' l = Some report.
Proof.
  unfold read_report. intros Hsub (items & (o & Ho & Hitems)%bind_Some & Hd)%bind_Some.
  rewrite (lookup_weaken _ _ _ _ Ho Hsub). simpl. rewrite Hitems. simpl.
  apply (read_dict_mono (read_bucket h)); [|exact Hd].
  intros b bucket. by apply read_bucket_mono.
Qed.

Lemma read_result_mono h h' r out :
  h ⊆ h' → read_result h r = Some out → read_result h' r = Some out.
Proof.
  intros Hsub. destruct r as [l|e]; [|done]. simpl.
  intros (report & Hreport & ->)%fmap_Some.
  by rewrite (read_report_mono _ _ _ _ Hsub Hreport).
Qed.

Lemma read_state_mono h h' st_h st :
  h ⊆ h' → read_state h st_h = Some st → read_state h' st_h = Some st.
Proof.
  unfold read_state. intros Hsub (items & Hitems & Hst)%bind_Some.
  by rewrite (read_attributes_mono _ _ _ _ Hsub Hitems).
Qed.

Lemma read_entry_mono h h' entry_h entry :
  h ⊆ h' → read_entry h entry_h = Some entry → read_entry h' entry_h = Some entry.
Proof.
  unfold read_entry. intros Hsub (items & Hitems & Hentry)%bind_Some.
  by rewrite (read_strings_mono _ _ _ _ Hsub Hitems).
Qed.

Lemma read_area_mono h h' area_h area :
  h ⊆ h' → read_area h area_h = Some area → read_area h' area_h = Some area.
Proof.
  unfold read_area. intros Hsub (items & Hitems & Harea)%bind_Some.
  by rewrite (read_strings_mono _ _ _ _ Hsub Hitems).
Qed.

Lemma read_registry_Some {A B : Type} (f : A → option B) registry m :
  read_registry f registry = Some m ↔
  (∀ i a, registry !! i = Some a → is_Some (f a)) ∧ m = omap f registry.
Proof.
  unfold read_registry. case_bool_decide as Hall.
  - split; [intros [= <-]; by split|]. by intros [_ ->].
  - split; [discriminate|]. intros [Hall' _]. by destruct Hall.
Qed.

Lemma read_registry_mono {A B : Type} (f g : A → option B) registry m :
  (∀ a b, f a = Some b → g a = Some b) →
  read_registry f registry = Some m → read_registry g registry = Some m.
Proof.
  intros Hfg. rewrite !read_registry_Some. intros [Hall ->]. split.
  - intros i a Ha. destruct (Hall i a Ha) as [b Hb]. exists b. by apply Hfg.
  - apply omap_ext. intros i a Ha. destruct (Hall i a Ha) as [b Hb].
    by rewrite Hb, (Hfg a b Hb).
Qed.

Lemma read_hass_mono h h' hass_h hass :
  h ⊆ h' → read_hass h hass_h = Some hass → read_hass h' hass_h = Some hass.
Proof.
  unfold read_hass. intros Hsub (sts & Hsts & (entries & Hentries &
    (areas & Hareas & Hhass)%bind_Some)%bind_Some)%bind_Some.
  assert (mapM (read_state h') (Heap.states hass_h) = Some sts) as ->.
  { apply mapM_Some. apply mapM_Some in Hsts.
    eapply Forall2_impl; [exact Hsts|]. intros st_h st. by apply read_state_mono. }
  simpl.
  rewrite (read_registry_mono (read_entry h) (read_entry h') _ entries); [|
    intros a b; by apply read_entry_mono | exact Hentries].
  simpl.
  rewrite (read_registry_mono (read_area h) (read_area h') _ areas); [|
    intros a b; by apply read_area_mono | exact Hareas].
  exact Hhass.
Qed.

(** An object replaced by one that reads the same through [f] leaves what
    [f] reads of every location. *)
Lemma lookup_insert_same_kind {A : Type} (f : Heap.Obj → option A)
    (h : Heap.heap) b o o' l :
  h !! b = Some o → f o' = f o →
  <[b := o']> h !! l ≫= f = h !! l ≫= f.
Proof.
  intros Hb Hf. destruct (decide (l = b)) as [->|Hne].
  - by rewrite lookup_insert_eq, Hb.
  - by rewrite lookup_insert_ne.
Qed.

Lemma read_attributes_insert h b o o' l :
  h !! b = Some o → Heap.as_attributes o' = Heap.as_attributes o →
  read_attributes (<[b := o']> h) l = read_attributes h l.
Proof. apply lookup_insert_same_kind. Qed.

Lemma read_info_insert h b o o' l :
  h !! b = Some o →
  Heap.as_attributes o' = Heap.as_attributes o →
  Heap.as_info o' = Heap.as_info o →
  read_info (<[b := o']> h) l = read_info h l.
Proof.
  intros Hb Hattributes Hinfo. unfold read_info.
  rewrite (lookup_insert_same_kind _ h b o o' l Hb Hinfo).
  destruct (h !! l ≫= Heap.as_info) as [items|]; [|reflexivity]. simpl.
  apply read_dict_ext. intros [s|a]; [reflexivity|]. simpl.
  by rewrite (read_attributes_insert h b o o' a Hb Hattributes).
Qed.

Lemma read_bucket_insert h b o o' l :
  h !! b = Some o →
  Heap.as_attributes o' = Heap.as_attributes o →
  Heap.as_info o' = Heap.as_info o →
  Heap.as_bucket o' = Heap.as_bucket o →
  read_bucket (<[b := o']> h) l = read_bucket h l.
Proof.
  intros Hb Hattributes Hinfo Hbucket. unfold read_bucket.
  rewrite (lookup_insert_same_kind _ h b o o' l Hb Hbucket).
  destruct (h !! l ≫= Heap.as_bucket) as [items|]; [|reflexivity]. simpl.
  apply read_dict_ext. intros i.
  by apply (read_info_insert h b o o' i Hb).
Qed.

Lemma read_hass_in_store h hass_h hass :
  read_hass h hass_h = Some hass → hass_in_store h hass_h hass.
Proof.
  unfold read_hass. intros (sts & Hsts & (entries & Hentries &
    (areas & Hareas & [= <-])%bind_Some)%bind_Some)%bind_Some.
  apply read_registry_Some in Hentries as [Hentries ->].
  apply read_registry_Some in Hareas as [Hareas ->].
  split; simpl; try done.
  - by apply mapM_Some.
  - intros id. apply lookup_omap.
  - intros id. apply lookup_omap.
Qed.

(** Running the operations. *)

Lemma fresh_None (h : Heap.heap) : h !! fresh (dom h) = None.
Proof. apply not_elem_of_dom, is_fresh. Qed.

Lemma bind_ok {A B : Type} (m : Heap.M A) (k : A → Heap.M B) h a h' :
  m h = (Ok a, h') → (m ≫= k) h = k a h'.
Proof. intros Hm. unfold mbind, Heap.M_bind. by rewrite Hm. Qed.

Lemma bind_raise {A B : Type} (m : Heap.M A) (k : A → Heap.M B) h e h' :
  m h = (Raise e, h') → (m ≫= k) h = (Raise e, h').
Proof. intros Hm. unfold mbind, Heap.M_bind. by rewrite Hm. Qed.

Lemma bind_assoc {A B C : Type} (m : Heap.M A) (k1 : A → Heap.M B)
    (k2 : B → Heap.M C) h :
  ((m ≫= k1) ≫= k2) h = (m ≫= λ a, k1 a ≫= k2) h.
Proof. unfold mbind, Heap.M_bind. by destruct (m h) as [[a|e] h']. Qed.

(** One step of a computation whose outcome is known. *)
Ltac run H := rewrite (λ B k, @bind_ok _ B _ k _ _ _ H).
Ltac run_raise H := rewrite (λ B k, @bind_raise _ B _ k _ _ _ H).

Lemma lift_run {A : Type} (r : result A) (h : Heap.heap) : Heap.lift r h = (r, h).
Proof. reflexivity. Qed.

Lemma ret_run {A : Type} (a : A) (h : Heap.heap) :
  (mret a : Heap.M A) h = (Ok a, h).
Proof. reflexivity. Qed.

Lemma read_ok {A : Type} l (f : Heap.Obj → option A) o a (h : Heap.heap) :
  h !! l = Some o → f o = Some a → Heap.read l f h = (Ok a, h).
Proof. intros Hl Hf. unfold Heap.read. by rewrite Hl; simpl; rewrite Hf. Qed.

Lemma update_ok l f o o' (h : Heap.heap) :
  h !! l = Some o → f o = Some o' → Heap.update l f h = (Ok tt, <[l := o']> h).
Proof. intros Hl Hf. unfold Heap.update. by rewrite Hl; simpl; rewrite Hf. Qed.

Lemma attributes_setitem_ok l key value items (h : Heap.heap) :
  h !! l = Some (Heap.OAttributes items) →
  Heap.attributes_setitem l key value h
  = (Ok tt, <[l := Heap.OAttributes (Heap.setitem items key value)]> h).
Proof. intros Hl. by apply (update_ok _ _ _ _ _ Hl). Qed.

Lemma info_setitem_ok l key value items (h : Heap.heap) :
  h !! l = Some (Heap.OInfo items) →
  Heap.info_setitem l key value h
  = (Ok tt, <[l := Heap.OInfo (Heap.setitem items key value)]> h).
Proof. intros Hl. by apply (update_ok _ _ _ _ _ Hl). Qed.

Lemma bucket_setitem_ok l key value items (h : Heap.heap) :
  h !! l = Some (Heap.OBucket items) →
  Heap.bucket_setitem l key value h
  = (Ok tt, <[l := Heap.OBucket (Heap.setitem items key value)]> h).
Proof. intros Hl. by apply (update_ok _ _ _ _ _ Hl). Qed.

Lemma report_setitem_ok l key value items (h : Heap.heap) :
  h !! l = Some (Heap.OReport items) →
  Heap.report_setitem l key value h
  = (Ok tt, <[l := Heap.OReport (Heap.setitem items key value)]> h).
Proof. intros Hl. by apply (update_ok _ _ _ _ _ Hl). Qed.

Lemma append_ok l x xs (h : Heap.heap) :
  h !! l = Some (Heap.OList xs) →
  Heap.append l x h = (Ok tt, <[l := Heap.OList (xs ++ [x])]> h).
Proof. intros Hl. by apply (update_ok _ _ _ _ _ Hl). Qed.

Lemma extend_ok l iterable xs ys (h : Heap.heap) :
  h !! l = Some (Heap.OList xs) → h !! iterable = Some (Heap.OList ys) →
  Heap.extend l iterable h = (Ok tt, <[l := Heap.OList (xs ++ ys)]> h).
Proof.
  intros Hl Hiterable. unfold Heap.extend.
  run (read_ok iterable Heap.as_list _ ys h Hiterable eq_refl).
  by apply (update_ok _ _ _ _ _ Hl).
Qed.

Lemma add_area_ok an area_h xs ys (h : Heap.heap) :
  h !! an = Some (Heap.OList xs) →
  h !! Heap.area_aliases area_h = Some (Heap.OList ys) →
  Heap.area_aliases area_h ≠ an →
  Heap.add_area an area_h h
  = (Ok tt, <[an := Heap.OList (xs ++ Heap.area_name area_h :: ys)]> h).
Proof.
  intros Han Haliases Hne. unfold Heap.add_area.
  run (append_ok an (Heap.area_name area_h) xs h Han).
  rewrite (extend_ok an _ (xs ++ [Heap.area_name area_h]) ys).
  - by rewrite insert_insert_eq, <- app_assoc.
  - by rewrite lookup_insert_eq.
  - by rewrite lookup_insert_ne.
Qed.

(** The registries of the store answer as those of the first embedding. *)
Lemma get_if_set_areas h hass_h hass id :
  hass_in_store h hass_h hass →
  get_if_set (area_registry hass) id
  = get_if_set (Heap.area_registry hass_h) id ≫= read_area h.
Proof.
  intros Hstore. unfold get_if_set. destruct id as [i|]; [|reflexivity].
  destruct (String.eqb i ""); [reflexivity|]. apply (store_areas _ _ _ Hstore).
Qed.

Lemma get_if_set_area_read h hass_h hass id area_h :
  hass_in_store h hass_h hass →
  get_if_set (Heap.area_registry hass_h) id = Some area_h →
  ∃ ys, h !! Heap.area_aliases area_h = Some (Heap.OList ys) ∧
        read_area h area_h
        = Some {| area_name := Heap.area_name area_h; area_aliases := ys |}.
Proof.
  intros Hstore. unfold get_if_set. destruct id as [i|]; [|discriminate].
  destruct (String.eqb i ""); [discriminate|]. intros Harea.
  destruct (store_areas_read _ _ _ Hstore i area_h Harea) as [area Hread].
  unfold read_area, read_strings in Hread |- *.
  destruct (h !! Heap.area_aliases area_h) as [[ys| | | |]|]; try discriminate.
  by exists ys.
Qed.

(** Lines 100-114 leave the area names of the entry in [area_names], and
    touch nothing else. *)
Lemma entity_area_names_ok h0 h hass_h hass an entry_h entry :
  hass_in_store h0 hass_h hass → h0 ⊆ h → h0 !! an = None →
  h !! an = Some (Heap.OList []) →
  read_entry h0 entry_h = Some entry →
  Heap.entity_area_names hass_h an entry_h h
  = (Ok tt, <[an := Heap.OList (entity_area_names hass entry)]> h).
Proof.
  intros Hstore Hsub Hfresh Han Hentry.
  assert (area_id entry = Heap.area_id entry_h ∧
          device_id entry = Heap.device_id entry_h) as [Harea_id Hdevice_id].
  { unfold read_entry in Hentry. apply bind_Some in Hentry as (ys & _ & [= <-]).
    by split. }
  assert (Hadd : ∀ id area_h,
            get_if_set (Heap.area_registry hass_h) id = Some area_h →
            ∃ area, read_area h0 area_h = Some area ∧
                    Heap.add_area an area_h h
                    = (Ok tt, <[an := Heap.OList (area_name area :: area_aliases area)]> h)).
  { intros id area_h Harea.
    destruct (get_if_set_area_read _ _ _ _ _ Hstore Harea) as (ys & Hys & Hread).
    eexists. split; [exact Hread|]. simpl.
    apply (add_area_ok an area_h [] ys h Han).
    - by apply (lookup_weaken _ _ _ _ Hys Hsub).
    - intros Heq. rewrite Heq in Hys. congruence. }
  unfold Heap.entity_area_names, entity_area_names.
  rewrite !(get_if_set_areas _ _ _ _ Hstore), (store_devices _ _ _ Hstore).
  rewrite Harea_id, Hdevice_id.
  destruct (get_if_set (Heap.area_registry hass_h) (Heap.area_id entry_h))
    as [area_h|] eqn:Harea.
  - destruct (Hadd _ _ Harea) as (area & Hread & ->). simpl. by rewrite Hread.
  - simpl.
    destruct (get_if_set (Heap.device_registry hass_h) (Heap.device_id entry_h))
      as [device|]; [|by rewrite insert_id].
    rewrite (get_if_set_areas _ _ _ _ Hstore).
    destruct (get_if_set (Heap.area_registry hass_h) (device_area_id device))
      as [area_h|] eqn:Harea'; [|by rewrite insert_id].
    destruct (Hadd _ _ Harea') as (area & Hread & ->). simpl. by rewrite Hread.
Qed.

(** The loop over the items leaves the store as it was but for the
    attribute dictionary, which holds what the loop of the first embedding
    computes; it raises what that loop raises. *)
Lemma attribute_loop_ok items : ∀ (h : Heap.heap) a d,
  h !! a = Some (Heap.OAttributes d) →
  ∃ d', (Heap.for_each (Heap.attribute_step a) items h).2
        = <[a := Heap.OAttributes d']> h ∧
        match for_each attribute_step items (list_to_map d) with
        | Ok attrs =>
            (Heap.for_each (Heap.attribute_step a) items h).1 = Ok tt ∧
            list_to_map d' = attrs
        | Raise e => (Heap.for_each (Heap.attribute_step a) items h).1 = Raise e
        end.
Proof.
  induction items as [|[k v] items IH]; intros h a d Ha.
  - exists d. simpl. by rewrite insert_id.
  - cbn [Heap.for_each for_each].
    assert (attribute_step (list_to_map d) (k, v)
            = if bool_decide (k ∈ interesting_attributes)
              then v' ← convert_attribute k v; Ok (<[k := v']> (list_to_map d))
              else Ok (list_to_map d)) as -> by reflexivity.
    assert (Heap.attribute_step a (k, v)
            = if bool_decide (k ∈ interesting_attributes)
              then v' ← Heap.lift (convert_attribute k v);
                   Heap.attributes_setitem a k v'
              else mret tt) as -> by reflexivity.
    destruct (bool_decide (k ∈ interesting_attributes)).
    + destruct (convert_attribute k v) as [v'|e] eqn:Hv.
      * rewrite bind_assoc. run (lift_run (Ok v') h).
        run (attributes_setitem_ok a k v' d h Ha).
        destruct (IH (<[a := Heap.OAttributes (Heap.setitem d k v')]> h) a
                    (Heap.setitem d k v')) as (d' & Hheap & Hres).
        { by rewrite lookup_insert_eq. }
        exists d'. rewrite Hheap, insert_insert_eq. split; [reflexivity|].
        simpl. by rewrite <- list_to_map_setitem.
      * exists d. rewrite bind_assoc.
        run_raise (lift_run (Raise e : result PyVal) h).
        simpl. by rewrite insert_id.
    + run (ret_run tt h). by apply IH.
Qed.

Lemma alloc_run o (h : Heap.heap) :
  Heap.alloc o h = (Ok (fresh (dom h)), <[fresh (dom h) := o]> h).
Proof. reflexivity. Qed.

(** A location the store does not have is none of those it has. *)
Lemma fresh_ne (h : Heap.heap) l l' o : h !! l = None → h !! l' = Some o → l ≠ l'.
Proof. intros Hl Hl' ->. congruence. Qed.

(** Lines 94-114: the names and the area names, in the two new lists. *)
Lemma names_in_store h h2 hass_h hass st_h st n an :
  hass_in_store h hass_h hass → read_state h st_h = Some st →
  h !! n = None → h !! an = None → n ≠ an →
  h2 = <[an := Heap.OList []]> (<[n := Heap.OList [Heap.name st_h]]> h) →
  ∃ h4,
    match Heap.entity_registry hass_h !! Heap.entity_id st_h with
    | Some entry =>
        Heap.extend n (Heap.aliases entry);;
        Heap.entity_area_names hass_h an entry
    | None => mret tt
    end h2 = (Ok tt, h4) ∧
    h ⊆ h4 ∧
    h4 !! n = Some (Heap.OList (display_names hass st)) ∧
    h4 !! an = Some (Heap.OList (area_names_of hass st)).
Proof.
  intros Hstore Hst Hn Han Hne ->.
  apply bind_Some in Hst as (items & Hitems & [= <-]).
  unfold display_names, area_names_of. cbn [entity_id name].
  rewrite (store_entries _ _ _ Hstore).
  set (h1 := <[n := Heap.OList [Heap.name st_h]]> h).
  assert (Hsub1 : h ⊆ <[an := Heap.OList []]> h1).
  { apply insert_subseteq_r; [exact Han|]. by apply insert_subseteq. }
  destruct (Heap.entity_registry hass_h !! Heap.entity_id st_h) as [entry_h|] eqn:Hentry.
  - destruct (store_entries_read _ _ _ Hstore _ _ Hentry) as [entry Hread].
    simpl. rewrite Hread.
    pose proof Hread as Hread'. unfold read_entry, read_strings in Hread'.
    destruct (h !! Heap.aliases entry_h) as [[ys| | | |]|] eqn:Haliases;
      try discriminate.
    injection Hread' as <-. cbn [aliases].
    assert (Hn2 : <[an := Heap.OList []]> h1 !! n = Some (Heap.OList [Heap.name st_h])).
    { rewrite lookup_insert_ne by done. unfold h1. by rewrite lookup_insert_eq. }
    run (extend_ok n (Heap.aliases entry_h) [Heap.name st_h] ys
           (<[an := Heap.OList []]> h1) Hn2
           (lookup_weaken _ _ _ _ Haliases Hsub1)).
    set (h3 := <[n := _]> (<[an := _]> h1)).
    assert (Hsub3 : h ⊆ h3) by (by apply insert_subseteq_r).
    assert (Han3 : h3 !! an = Some (Heap.OList [])).
    { unfold h3. rewrite lookup_insert_ne by done. by rewrite lookup_insert_eq. }
    eexists. split.
    { exact (entity_area_names_ok h h3 hass_h hass an entry_h _ Hstore Hsub3 Han
               Han3 Hread). }
    split; [by apply insert_subseteq_r|]. split.
    + rewrite lookup_insert_ne by done. unfold h3. by rewrite lookup_insert_eq.
    + by rewrite lookup_insert_eq.
  - simpl. exists (<[an := Heap.OList []]> h1). split; [reflexivity|].
    split; [exact Hsub1|]. split.
    + rewrite lookup_insert_ne by done. unfold h1. by rewrite lookup_insert_eq.
    + by rewrite lookup_insert_eq.
Qed.

(** Lines 93-140 build the [info] of the first embedding in new objects,
    and change no object the store had: the names go to a new list, not
    to the alias container they are read from. *)
Lemma build_info_in_store h hass_h hass st_h st :
  hass_in_store h hass_h hass → read_state h st_h = Some st →
  ∃ r h', Heap.build_info hass_h st_h h = (r, h') ∧ h ⊆ h' ∧
    match build_info hass st with
    | Ok info => ∃ i, r = Ok i ∧ h !! i = None ∧ read_info h' i = Some info
    | Raise e => r = Raise e
    end.
Proof.
  intros Hstore Hst. unfold Heap.build_info. cbv zeta.
  (* names and area_names *)
  pose proof (fresh_None h) as Hn. run (alloc_run (Heap.OList [Heap.name st_h]) h).
  set (n := fresh (dom h)) in *. set (h1 := <[n := _]> h).
  pose proof (fresh_None h1) as Han. run (alloc_run (Heap.OList []) h1).
  set (an := fresh (dom h1)) in *.
  assert (Hne : n ≠ an).
  { intros Heq. rewrite <- Heq in Han. unfold h1 in Han.
    by rewrite lookup_insert_eq in Han. }
  assert (Han0 : h !! an = None).
  { unfold h1 in Han. by rewrite lookup_insert_ne in Han. }
  destruct (names_in_store h _ hass_h hass st_h st n an Hstore Hst Hn Han0 Hne eq_refl)
    as (h4 & Hrun4 & Hsub4 & Hn4 & Han4).
  fold h1 in Hrun4. run Hrun4.
  run (read_ok n Heap.as_list _ _ h4 Hn4 eq_refl).
  (* info *)
  pose proof (fresh_None h4) as Hi. run (alloc_run (Heap.OInfo
    [("names", Heap.SStr (String.concat ", " (display_names hass st)));
     ("domain", Heap.SStr (Heap.domain st_h));
     ("state", Heap.SStr (Heap.state st_h))]) h4).
  set (i := fresh (dom h4)) in *.
  set (base := [("names", _); ("domain", _); ("state", _)]).
  assert (Hi0 : h !! i = None).
  { destruct (h !! i) as [o|] eqn:Ho; [|reflexivity].
    by rewrite (lookup_weaken _ _ _ _ Ho Hsub4) in Hi. }
  cbn [truthy_description]. run (ret_run tt (<[i := Heap.OInfo base]> h4)).
  run (read_ok an Heap.as_list _ _ (<[i := Heap.OInfo base]> h4)
         (eq_trans (lookup_insert_ne h4 i an _ (fresh_ne _ _ _ _ Hi Han4)) Han4)
         eq_refl).
  set (items2 := if nonempty_list (area_names_of hass st)
                 then Heap.setitem base "areas"
                        (Heap.SStr (String.concat ", " (area_names_of hass st)))
                 else base).
  assert (Hrun6 :
    (if nonempty_list (area_names_of hass st)
     then Heap.info_setitem i "areas"
            (Heap.SStr (String.concat ", " (area_names_of hass st)))
     else mret tt) (<[i := Heap.OInfo base]> h4)
    = (Ok tt, <[i := Heap.OInfo items2]> h4)).
  { unfold items2. destruct (nonempty_list (area_names_of hass st)).
    - rewrite (info_setitem_ok i _ _ base) by (by rewrite lookup_insert_eq).
      by rewrite insert_insert_eq.
    - reflexivity. }
  run Hrun6. set (h6 := <[i := Heap.OInfo items2]> h4).
  assert (Hsub6 : h ⊆ h6) by (by apply insert_subseteq_r).
  (* attributes *)
  pose proof (fresh_None h6) as Ha. run (alloc_run (Heap.OAttributes []) h6).
  set (a := fresh (dom h6)) in *. set (h7 := <[a := Heap.OAttributes []]> h6).
  assert (Hia : a ≠ i).
  { intros Heq. rewrite Heq in Ha. unfold h6 in Ha. by rewrite lookup_insert_eq in Ha. }
  assert (Ha0 : h !! a = None).
  { destruct (h !! a) as [o|] eqn:Ho; [|reflexivity].
    by rewrite (lookup_weaken _ _ _ _ Ho Hsub6) in Ha. }
  assert (Hsub7 : h ⊆ h7) by (by apply insert_subseteq_r).
  pose proof Hst as Hst'. apply bind_Some in Hst' as (items & Hitems & [= Est]).
  unfold read_attributes in Hitems.
  destruct (h !! Heap.attributes st_h) as [o|] eqn:Hattrs; [|discriminate].
  run (read_ok (Heap.attributes st_h) Heap.as_attributes o items h7
         (lookup_weaken _ _ _ _ Hattrs Hsub7) Hitems).
  destruct (attribute_loop_ok items h7 a []) as (d' & Hheap & Hres).
  { unfold h7. by rewrite lookup_insert_eq. }
  unfold h7 in Hheap at 2. rewrite insert_insert_eq in Hheap.
  rewrite build_info_eq. replace (attributes st) with items by (by rewrite <- Est).
  change (list_to_map []) with (∅ : gmap string PyVal) in Hres.
  destruct (Heap.for_each (Heap.attribute_step a) items h7) as [r8 h8] eqn:Hloop.
  simpl in Hheap, Hres. subst h8.
  assert (Hsub8 : h ⊆ <[a := Heap.OAttributes d']> h6) by (by apply insert_subseteq_r).
  destruct (for_each attribute_step items ∅) as [attrs|e].
  - destruct Hres as [-> <-]. run Hloop.
    run (read_ok a Heap.as_attributes _ d' (<[a := Heap.OAttributes d']> h6)
           (lookup_insert_eq _ _ _) eq_refl).
    set (items3 := if nonempty_list d'
                   then Heap.setitem items2 "attributes" (Heap.SAttributes a)
                   else items2).
    assert (Hrun9 :
      (if nonempty_list d'
       then Heap.info_setitem i "attributes" (Heap.SAttributes a)
       else mret tt) (<[a := Heap.OAttributes d']> h6)
      = (Ok tt, <[i := Heap.OInfo items3]> (<[a := Heap.OAttributes d']> h6))).
    { assert (Hi8 : <[a := Heap.OAttributes d']> h6 !! i = Some (Heap.OInfo items2)).
      { rewrite lookup_insert_ne by done. unfold h6. by rewrite lookup_insert_eq. }
      unfold items3. destruct (nonempty_list d').
      - by rewrite (info_setitem_ok i _ _ items2).
      - rewrite (insert_id _ _ _ Hi8). reflexivity. }
    run Hrun9. set (h9 := <[i := Heap.OInfo items3]> _).
    exists (Ok i), h9. split; [reflexivity|].
    split; [by apply insert_subseteq_r|].
    simpl. exists i. split; [reflexivity|]. split; [exact Hi0|].
    assert (Hi9 : h9 !! i = Some (Heap.OInfo items3)).
    { unfold h9. by rewrite lookup_insert_eq. }
    unfold read_info. rewrite Hi9. simpl.
    assert (Hbase : read_dict (read_slot h9) base
                    = Some {[ "names" := IStr (String.concat ", " (display_names hass st));
                              "domain" := IStr (domain st);
                              "state" := IStr (state st) ]}).
    { assert (domain st = Heap.domain st_h) as -> by (by rewrite <- Est).
      assert (state st = Heap.state st_h) as -> by (by rewrite <- Est).
      reflexivity. }
    assert (Hitems2 : read_dict (read_slot h9) items2
                      = Some (if nonempty_list (area_names_of hass st)
                              then <["areas" := IStr (String.concat ", "
                                                       (area_names_of hass st))]>
                                     {[ "names" := IStr (String.concat ", "
                                                           (display_names hass st));
                                        "domain" := IStr (domain st);
                                        "state" := IStr (state st) ]}
                              else {[ "names" := IStr (String.concat ", "
                                                         (display_names hass st));
                                      "domain" := IStr (domain st);
                                      "state" := IStr (state st) ]})).
    { unfold items2. destruct (nonempty_list (area_names_of hass st)); [|exact Hbase].
      by apply read_dict_setitem. }
    unfold items3, info_with. rewrite nonempty_list_to_map.
    destruct (nonempty_list d'); [|exact Hitems2].
    apply read_dict_setitem; [exact Hitems2|].
    simpl. unfold read_attributes, h9.
    rewrite lookup_insert_ne by done. by rewrite lookup_insert_eq.
  - subst r8. run_raise Hloop. exists (Raise e), (<[a := Heap.OAttributes d']> h6).
    split; [reflexivity|]. split; [exact Hsub8|]. reflexivity.
Qed.

Lemma hass_in_store_mono h h' hass_h hass :
  h ⊆ h' → hass_in_store h hass_h hass → hass_in_store h' hass_h hass.
Proof.
  intros Hsub [Hstates Hentries Hentries_read Hareas Hareas_read Hdevices Hexpose].
  split; try done.
  - eapply Forall2_impl; [exact Hstates|]. intros st_h st. by apply read_state_mono.
  - intros id. rewrite Hentries.
    destruct (Heap.entity_registry hass_h !! id) as [entry_h|] eqn:Hid; [|reflexivity].
    simpl. destruct (Hentries_read id entry_h Hid) as [entry Hentry].
    by rewrite Hentry, (read_entry_mono _ _ _ _ Hsub Hentry).
  - intros id entry_h Hid. destruct (Hentries_read id entry_h Hid) as [entry Hentry].
    exists entry. by apply (read_entry_mono h).
  - intros id. rewrite Hareas.
    destruct (Heap.area_registry hass_h !! id) as [area_h|] eqn:Hid; [|reflexivity].
    simpl. destruct (Hareas_read id area_h Hid) as [area Harea].
    by rewrite Harea, (read_area_mono _ _ _ _ Hsub Harea).
  - intros id area_h Hid. destruct (Hareas_read id area_h Hid) as [area Harea].
    exists area. by apply (read_area_mono h).
Qed.

Lemma read_bucket_insert_ne h b items items' l :
  h !! b = Some (Heap.OBucket items) → l ≠ b →
  read_bucket (<[b := Heap.OBucket items']> h) l = read_bucket h l.
Proof.
  intros Hb Hne. unfold read_bucket. rewrite lookup_insert_ne by done.
  destruct (h !! l ≫= Heap.as_bucket) as [items0|]; [|reflexivity]. simpl.
  apply read_dict_ext. intros i.
  by apply (read_info_insert h b _ _ i Hb).
Qed.

Lemma read_bucket_object h l bucket :
  read_bucket h l = Some bucket →
  ∃ items, h !! l = Some (Heap.OBucket items) ∧
           read_dict (read_info h) items = Some bucket.
Proof.
  unfold read_bucket. intros (items & (o & Ho & Hitems)%bind_Some & Hd)%bind_Some.
  destruct o; try discriminate. injection Hitems as ->. by exists items.
Qed.

(** Line 143 or 145: the [info] goes into one bucket, and the other
    buckets read as before. *)
Lemma bucket_setitem_in_store h b id i info bucket :
  read_bucket h b = Some bucket → read_info h i = Some info →
  ∃ items,
    h !! b = Some (Heap.OBucket items) ∧
    Heap.bucket_setitem b id i h
    = (Ok tt, <[b := Heap.OBucket (Heap.setitem items id i)]> h) ∧
    read_bucket (<[b := Heap.OBucket (Heap.setitem items id i)]> h) b
    = Some (<[id := info]> bucket) ∧
    ∀ l, l ≠ b →
         read_bucket (<[b := Heap.OBucket (Heap.setitem items id i)]> h) l
         = read_bucket h l.
Proof.
  intros (items & Hb & Hitems)%read_bucket_object Hi.
  exists items. split; [exact Hb|]. split; [by apply bucket_setitem_ok|]. split.
  - unfold read_bucket. rewrite lookup_insert_eq. simpl.
    apply read_dict_setitem.
    + rewrite <- Hitems. apply read_dict_ext. intros l.
      by apply (read_info_insert h b _ _ l Hb).
    + rewrite <- Hi. by apply (read_info_insert h b _ _ i Hb).
  - intros l Hne. by apply (read_bucket_insert_ne h b items).
Qed.


(** The loop over the states: the three buckets of the store hold what
    the accumulators of the first embedding hold, and no object that was
    there before the call is changed. *)
Lemma state_loop_in_store hass_h hass assistant e s c d (h0 : Heap.heap) :
  hass_in_store h0 hass_h hass →
  h0 !! e = None → h0 !! s = None → h0 !! c = None →
  e ≠ s → e ≠ c → s ≠ c →
  ∀ sts_h sts,
    Forall2 (λ st_h st, read_state h0 st_h = Some st) sts_h sts →
    ∀ h E S C,
      h0 ⊆ h →
      h !! d = Some (Heap.OReport [(SCRIPT_DOMAIN, s); (CALENDAR_DOMAIN, c)]) →
      read_bucket h e = Some E → read_bucket h s = Some S →
      read_bucket h c = Some C →
      ∃ r h',
        Heap.for_each (Heap.state_step hass_h assistant e d) sts_h h = (r, h') ∧
        h0 ⊆ h' ∧
        h' !! d = Some (Heap.OReport [(SCRIPT_DOMAIN, s); (CALENDAR_DOMAIN, c)]) ∧
        match for_each (state_step hass assistant) sts (E, data_of S C) with
        | Ok (E', data') =>
            r = Ok tt ∧
            ∃ S' C', data' = data_of S' C' ∧
                     read_bucket h' e = Some E' ∧
                     read_bucket h' s = Some S' ∧
                     read_bucket h' c = Some C'
        | Raise ex => r = Raise ex
        end.
Proof.
  intros Hstore He0 Hs0 Hc0 Hes Hec Hsc sts_h sts Hsts.
  induction Hsts as [|st_h st sts_h sts Hst Hsts IH]; intros h E S C Hsub Hd HE HS HC.
  - exists (Ok tt), h. simpl. split; [reflexivity|]. split; [exact Hsub|].
    split; [exact Hd|]. split; [reflexivity|]. by exists S, C.
  - cbn [Heap.for_each for_each].
    assert (Hid : entity_id st = Heap.entity_id st_h ∧ domain st = Heap.domain st_h).
    { apply bind_Some in Hst as (items & _ & [= <-]). by split. }
    destruct Hid as [Hid Hdomain].
    set (loop_h := Heap.for_each (Heap.state_step hass_h assistant e d) sts_h) in *.
    set (loop := for_each (state_step hass assistant) sts) in *.
    unfold Heap.state_step, state_step.
    rewrite (store_expose _ _ _ Hstore), Hid.
    destruct (Heap.async_should_expose hass_h assistant (Heap.entity_id st_h)); simpl.
    2:{ run (ret_run tt h). by apply IH. }
    destruct (build_info_in_store h hass_h hass st_h st
                (hass_in_store_mono _ _ _ _ Hsub Hstore)
                (read_state_mono _ _ _ _ Hsub Hst))
      as (r1 & h1 & Hrun1 & Hsub1 & Hinfo).
    destruct (build_info hass st) as [info|ex]; simpl.
    2:{ subst r1. rewrite bind_assoc. run_raise Hrun1.
        exists (Raise ex), h1. split; [reflexivity|].
        split; [by transitivity h|].
        split; [by apply (lookup_weaken _ _ _ _ Hd Hsub1)|]. reflexivity. }
    destruct Hinfo as (i & -> & Hi & Hread).
    rewrite bind_assoc. run Hrun1. unfold Heap.route.
    pose proof (lookup_weaken _ _ _ _ Hd Hsub1) as Hd1.
    rewrite bind_assoc. run (read_ok d Heap.as_report _ _ h1 Hd1 eq_refl).
    pose proof (read_bucket_mono _ _ _ _ Hsub1 HE) as HE1.
    pose proof (read_bucket_mono _ _ _ _ Hsub1 HS) as HS1.
    pose proof (read_bucket_mono _ _ _ _ Hsub1 HC) as HC1.
    assert (Hsub01 : h0 ⊆ h1) by (by transitivity h).
    assert (Hstep : ∀ b bucket,
              read_bucket h1 b = Some bucket → h0 !! b = None →
              ∃ items,
                Heap.bucket_setitem b (Heap.entity_id st_h) i h1
                = (Ok tt, <[b := Heap.OBucket (Heap.setitem items (Heap.entity_id st_h) i)]> h1) ∧
                h0 ⊆ <[b := Heap.OBucket (Heap.setitem items (Heap.entity_id st_h) i)]> h1 ∧
                <[b := Heap.OBucket (Heap.setitem items (Heap.entity_id st_h) i)]> h1 !! d
                = Some (Heap.OReport [(SCRIPT_DOMAIN, s); (CALENDAR_DOMAIN, c)]) ∧
                read_bucket (<[b := Heap.OBucket (Heap.setitem items (Heap.entity_id st_h) i)]> h1) b
                = Some (<[Heap.entity_id st_h := info]> bucket) ∧
                ∀ l, l ≠ b →
                     read_bucket (<[b := Heap.OBucket (Heap.setitem items (Heap.entity_id st_h) i)]> h1) l
                     = read_bucket h1 l).
    { intros b bucket Hb Hb0.
      destruct (bucket_setitem_in_store h1 b (Heap.entity_id st_h) i info bucket
                  Hb Hread) as (items & Hobj & Hrun & Hnew & Hother).
      exists items. split; [exact Hrun|]. split; [by apply insert_subseteq_r|].
      split; [|by split].
      rewrite lookup_insert_ne; [exact Hd1|]. intros ->. congruence. }
    cbn [Heap.get]. unfold route, data_of. rewrite Hdomain, Hid.
    unfold SCRIPT_DOMAIN, CALENDAR_DOMAIN in *.
    destruct (String.eqb_spec "script" (Heap.domain st_h)) as [<-|Hscript].
    + destruct (Hstep s S HS1 Hs0) as (items & Hrun & Hsub2 & Hd2 & Hnew & Hother).
      rewrite lookup_insert_eq.
      destruct (IH _ E (<[Heap.entity_id st_h := info]> S) C Hsub2 Hd2)
        as (r & h' & Hloop & Hrest).
      { by rewrite Hother. } { exact Hnew. } { by rewrite Hother. }
      exists r, h'. split; [by run Hrun|].
      unfold data_of in Hrest. by rewrite insert_insert_eq.
    + rewrite lookup_insert_ne by done.
      destruct (String.eqb_spec "calendar" (Heap.domain st_h)) as [<-|Hcalendar].
      * destruct (Hstep c C HC1 Hc0) as (items & Hrun & Hsub2 & Hd2 & Hnew & Hother).
        rewrite lookup_singleton_eq.
        destruct (IH _ E S (<[Heap.entity_id st_h := info]> C) Hsub2 Hd2)
          as (r & h' & Hloop & Hrest).
        { by rewrite Hother. } { by rewrite Hother. } { exact Hnew. }
        exists r, h'. split; [by run Hrun|].
        unfold data_of in Hrest.
        by rewrite insert_insert_ne, insert_singleton_eq by done.
      * rewrite lookup_singleton_ne by done.
        destruct (Hstep e E HE1 He0) as (items & Hrun & Hsub2 & Hd2 & Hnew & Hother).
        destruct (IH _ (<[Heap.entity_id st_h := info]> E) S C Hsub2 Hd2)
          as (r & h' & Hloop & Hrest).
        { exact Hnew. } { by rewrite Hother. } { by rewrite Hother. }
        exists r, h'. split; [by run Hrun|]. exact Hrest.
Qed.

Lemma read_bucket_empty (h : Heap.heap) l :
  h !! l = Some (Heap.OBucket []) → read_bucket h l = Some ∅.
Proof. intros Hl. unfold read_bucket. by rewrite Hl. Qed.

(** The filter over the store changes no object that the store had when it
    was called, and what it returns reads as what the first embedding
    returns on [hass] as read from that store. *)
Lemma filter_in_store hass_h hass assistant h r h' :
  read_hass h hass_h = Some hass →
  Heap._custom_get_exposed_entities hass_h assistant h = (r, h') →
  h ⊆ h' ∧
  read_result h' r = Some (_custom_get_exposed_entities hass assistant).
Proof.
  intros Hstore%read_hass_in_store. unfold Heap._custom_get_exposed_entities.
  pose proof (fresh_None h) as He. run (alloc_run (Heap.OBucket []) h).
  set (e := fresh (dom h)) in *. set (h1 := <[e := _]> h).
  pose proof (fresh_None h1) as Hs. run (alloc_run (Heap.OBucket []) h1).
  set (s := fresh (dom h1)) in *. set (h2 := <[s := _]> h1).
  pose proof (fresh_None h2) as Hc. run (alloc_run (Heap.OBucket []) h2).
  set (c := fresh (dom h2)) in *. set (h3 := <[c := _]> h2).
  pose proof (fresh_None h3) as Hd.
  run (alloc_run (Heap.OReport [(SCRIPT_DOMAIN, s); (CALENDAR_DOMAIN, c)]) h3).
  set (d := fresh (dom h3)) in *. set (h4 := <[d := _]> h3).
  assert (Hes : e ≠ s).
  { intros Heq. rewrite <- Heq in Hs. unfold h1 in Hs. by rewrite lookup_insert_eq in Hs. }
  assert (Hsc : s ≠ c).
  { intros Heq. rewrite <- Heq in Hc. unfold h2 in Hc. by rewrite lookup_insert_eq in Hc. }
  assert (Hec : e ≠ c).
  { intros Heq. rewrite <- Heq in Hc. unfold h2, h1 in Hc.
    rewrite lookup_insert_ne in Hc by done. by rewrite lookup_insert_eq in Hc. }
  assert (Hcd : c ≠ d).
  { intros Heq. rewrite <- Heq in Hd. unfold h3 in Hd. by rewrite lookup_insert_eq in Hd. }
  assert (Hsd : s ≠ d).
  { intros Heq. rewrite <- Heq in Hd. unfold h3, h2 in Hd.
    rewrite lookup_insert_ne in Hd by done. by rewrite lookup_insert_eq in Hd. }
  assert (Hed : e ≠ d).
  { intros Heq. rewrite <- Heq in Hd. unfold h3, h2, h1 in Hd.
    rewrite !lookup_insert_ne in Hd by done. by rewrite lookup_insert_eq in Hd. }
  assert (Hs0 : h !! s = None).
  { unfold h1 in Hs. by rewrite lookup_insert_ne in Hs. }
  assert (Hc0 : h !! c = None).
  { unfold h2, h1 in Hc. by rewrite !lookup_insert_ne in Hc. }
  assert (Hd0 : h !! d = None).
  { unfold h3, h2, h1 in Hd. by rewrite !lookup_insert_ne in Hd. }
  assert (Hsub4 : h ⊆ h4).
  { unfold h4, h3, h2, h1. by repeat apply insert_subseteq_r. }
  destruct (state_loop_in_store hass_h hass assistant e s c d h Hstore He Hs0 Hc0
              Hes Hec Hsc _ _ (store_states _ _ _ Hstore) h4 ∅ ∅ ∅ Hsub4)
    as (r5 & h5 & Hloop & Hsub5 & Hd5 & Hres).
  { unfold h4. by rewrite lookup_insert_eq. }
  { apply read_bucket_empty. unfold h4, h3, h2, h1.
    rewrite !lookup_insert_ne by done. by rewrite lookup_insert_eq. }
  { apply read_bucket_empty. unfold h4, h3, h2.
    rewrite !lookup_insert_ne by done. by rewrite lookup_insert_eq. }
  { apply read_bucket_empty. unfold h4, h3.
    rewrite !lookup_insert_ne by done. by rewrite lookup_insert_eq. }
  unfold _custom_get_exposed_entities. fold (data_of ∅ ∅).
  destruct (for_each (state_step hass assistant) (states hass) (∅, data_of ∅ ∅))
    as [[E data]|ex].
  - destruct Hres as (-> & S & C & -> & HE & HS & HC).
    run Hloop.
    run (report_setitem_ok d "entities" e _ h5 Hd5).
    rewrite ret_run. intros [= <- <-]. split.
    + by apply insert_subseteq_r.
    + simpl. unfold read_report. rewrite lookup_insert_eq. simpl.
      assert (Hsame : ∀ l, read_bucket (<[d := Heap.OReport
                 [(SCRIPT_DOMAIN, s); (CALENDAR_DOMAIN, c); ("entities", e)]]> h5) l
               = read_bucket h5 l).
      { intros l. by apply (read_bucket_insert h5 d _ _ l Hd5). }
      unfold read_dict. cbn [mapM]. rewrite !Hsame, HS, HC, HE. simpl.
      reflexivity.
  - subst r5. run_raise Hloop.
    intros [= <- <-]. by split.
Qed.

(** C9. The filter keeps no state from one call to the next.  Run over a
    store of objects, a call changes no object the store had, so [hass]
    reads after the call as it read before; a second call, made from the
    store the first has left, returns a report that reads as the first
    one's (or raises the same exception), and leaves the first report as
    it was; and so does a call from any other store in which [hass] reads
    the same.  What is returned is what the first embedding computes from
    [hass]. *)
Theorem filter_deterministic hass_h assistant hass h r1 h1 :
  read_hass h hass_h = Some hass →
  Heap._custom_get_exposed_entities hass_h assistant h = (r1, h1) →
  h ⊆ h1 ∧
  read_hass h1 hass_h = Some hass ∧
  read_result h1 r1 = Some (_custom_get_exposed_entities hass assistant) ∧
  (∀ r2 h2,
     Heap._custom_get_exposed_entities hass_h assistant h1 = (r2, h2) →
     read_result h2 r2 = read_result h1 r1 ∧
     read_result h2 r1 = read_result h1 r1) ∧
  (∀ hass_h' h' r' h1',
     read_hass h' hass_h' = Some hass →
     Heap._custom_get_exposed_entities hass_h' assistant h' = (r', h1') →
     read_result h1' r' = read_result h1 r1).
Proof.
  intros Hhass Hrun.
  destruct (filter_in_store _ _ _ _ _ _ Hhass Hrun) as [Hsub Hres].
  pose proof (read_hass_mono _ _ _ _ Hsub Hhass) as Hhass1.
  split; [exact Hsub|]. split; [exact Hhass1|]. split; [exact Hres|]. split.
  - intros r2 h2 Hrun2.
    destruct (filter_in_store _ _ _ _ _ _ Hhass1 Hrun2) as [Hsub2 Hres2].
    split; [by rewrite Hres, Hres2|].
    rewrite Hres. by apply (read_result_mono h1).
  - intros hass_h' h' r' h1' Hhass' Hrun'.
    destruct (filter_in_store _ _ _ _ _ _ Hhass' Hrun') as [_ Hres'].
    by rewrite Hres, Hres'.
Qed.

Lemma example_hass_read :
  read_hass example_heap example_hass_in_store = Some Example.hass.
Proof. vm_compute. reflexivity. Qed.

Lemma filter_deterministic_witness :
  read_result example_second_call.2 example_second_call.1
  = Some (Ok Example.report).
Proof.
  destruct (filter_deterministic example_hass_in_store "conversation" Example.hass
              example_heap example_first_call.1 example_first_call.2
              example_hass_read (surjective_pairing _))
    as (_ & _ & Hfirst & Hsecond & _).
  destruct (Hsecond example_second_call.1 example_second_call.2
              (surjective_pairing _)) as [-> _].
  rewrite Hfirst. exact (f_equal Some example_report_ok).
Defined.

(** ** The brightness branch *)

(** C10. The rescaling branch is taken for a brightness exactly when the
    value is an instance of [int] or [float], booleans included: [True]
    and [False] are both rescaled to 0, and an exact decimal is not
    rescaled but stored as its string. *)
Theorem brightness_branch :
  (∀ k v, convert_attribute k v =
          if String.eqb k "brightness" && host_numeric v
          then rescale_brightness v
          else if stringified v then s ← py_str v; Ok (VStr s)
          else Ok v) ∧
  (∀ b, host_numeric (VBool b) = true) ∧
  (∀ d, host_numeric (VDecimal d) = false) ∧
  convert_attribute "brightness" (VBool true) = Ok (VInt 0) ∧
  convert_attribute "brightness" (VBool false) = Ok (VInt 0) ∧
  round_half_even (1 * 100) 255 = 0 ∧
  (∀ d, convert_attribute "brightness" (VDecimal d) = Ok (VStr (decimal_str d))).
Proof.
  split; [exact convert_attribute_cases|].
  split; [reflexivity|]. split; [reflexivity|].
  split; [vm_compute; reflexivity|]. split; [vm_compute; reflexivity|].
  split; reflexivity.
Qed.

(** * Further properties of the filter

    What the code of [_custom_get_exposed_entities] shows beyond the
    statements above: the shape of the report and of its entries, what
    repeated identifiers and the order of the snapshot do, and which
    exception a failing call raises. *)

Lemma for_each_app {A S : Type} (body : S → A → result S) l1 l2 s :
  for_each body (l1 ++ l2) s = s1 ← for_each body l1 s; for_each body l2 s1.
Proof.
  revert s. induction l1 as [|x l1 IH]; intros s; [reflexivity|].
  simpl. destruct (body s x) as [s1|e]; simpl; [apply IH | reflexivity].
Qed.

(** X1. A report the filter returns has exactly the keys script, calendar
    and entities: the three mappings are there even when they are empty,
    and nothing else is. *)
Theorem report_has_three_keys hass assistant out :
  _custom_get_exposed_entities hass assistant = Ok out →
  is_Some (out !! "script"%string) ∧
  is_Some (out !! "calendar"%string) ∧
  is_Some (out !! "entities"%string) ∧
  ∀ k, is_Some (out !! k) → k ∈ ["script"; "calendar"; "entities"]%string.
Proof.
  intros Hkeys%report_keys.
  assert (∀ k, is_Some (out !! k) ↔ k ∈ ["script"; "calendar"; "entities"]%string)
    as Hdom.
  { intros k. rewrite <- elem_of_dom, Hkeys. unfold SCRIPT_DOMAIN, CALENDAR_DOMAIN.
    rewrite !elem_of_union, !elem_of_singleton, !elem_of_cons, elem_of_nil. tauto. }
  split; [apply Hdom; left|].
  split; [apply Hdom; right; left|].
  split; [apply Hdom; do 2 right; left|].
  intros k. apply Hdom.
Qed.

Lemma report_has_three_keys_witness :
  is_Some (Example.report !! "calendar"%string).
Proof.
  apply (report_has_three_keys Example.hass "conversation" Example.report).
  exact example_report_ok.
Defined.

(** X2. Every entry of a returned report is filed where its own domain
    field says: an entry whose domain field is script is in the script
    bucket, one whose domain field is calendar is in the calendar bucket,
    any other is in the catch-all; and its state field is that of an exposed
    state of the snapshot with the entry's identifier. *)
Theorem entry_filed_by_its_domain hass assistant out k id info :
  _custom_get_exposed_entities hass assistant = Ok out →
  filed out k id = Some info →
  ∃ st, st ∈ states hass ∧ entity_id st = id ∧
        async_should_expose hass assistant id = true ∧
        info !! "domain"%string = Some (IStr (domain st)) ∧
        info !! "state"%string = Some (IStr (state st)) ∧
        k = (if String.eqb (domain st) "script" then "script"
             else if String.eqb (domain st) "calendar" then "calendar"
             else "entities")%string.
Proof.
  intros Hout Hfiled.
  destruct (report_sound _ _ _ _ _ _ Hout Hfiled)
    as (st & Hin & Hexp & -> & -> & Hinfo).
  destruct (build_info_ok _ _ _ Hinfo) as [attrs Hof].
  exists st. repeat split; try done.
  - exact (info_domain _ _ _ _ Hof).
  - exact (info_state _ _ _ _ Hof).
Qed.

Lemma entry_filed_by_its_domain_witness :
  ∃ st, st ∈ states Example.hass ∧ entity_id st = "script.goodnight"%string ∧
        domain st = "script"%string.
Proof.
  destruct (entry_filed_by_its_domain Example.hass "conversation" Example.report
              "script" "script.goodnight"
              (example_entry "script" "script.goodnight") example_report_ok)
    as (st & Hin & Hid & _ & _ & _ & Hk).
  { vm_cast_no_check (@eq_refl _ (Some (example_entry "script" "script.goodnight"))). }
  exists st. split; [exact Hin|]. split; [exact Hid|].
  destruct (String.eqb_spec (domain st) "script") as [Hd|_]; [exact Hd|].
  destruct (String.eqb (domain st) "calendar"); discriminate Hk.
Defined.

Lemma info_with_keys hass st attrs key :
  is_Some (info_with hass st attrs !! key) → key ∈ info_keys.
Proof.
  intros Hsome%elem_of_dom. revert Hsome. unfold info_with, info_keys.
  destruct (nonempty_dict attrs), (nonempty_list (area_names_of hass st));
    rewrite ?dom_insert_L, dom_singleton_L, ?elem_of_union, !elem_of_singleton,
      !elem_of_cons, elem_of_nil; tauto.
Qed.

(** X3. Every entry of a returned report has a names, a domain and a state
    field, never a description (the source assigns [None] to it and never
    anything else), and no key besides names, domain, state, areas and
    attributes. *)
Theorem entry_shape hass assistant out k id info :
  _custom_get_exposed_entities hass assistant = Ok out →
  filed out k id = Some info →
  (∃ names domain state,
      info !! "names"%string = Some (IStr names) ∧
      info !! "domain"%string = Some (IStr domain) ∧
      info !! "state"%string = Some (IStr state)) ∧
  info !! "description"%string = None ∧
  ∀ key, is_Some (info !! key) → key ∈ info_keys.
Proof.
  intros Hout Hfiled.
  destruct (report_sound _ _ _ _ _ _ Hout Hfiled)
    as (st & _ & _ & _ & _ & Hinfo).
  rewrite build_info_eq in Hinfo.
  destruct (for_each attribute_step (attributes st) ∅) as [attrs|e] eqn:Hloop;
    [|discriminate].
  injection Hinfo as <-.
  pose proof (info_with_spec hass st attrs Hloop) as Hof.
  split; [|split].
  - eexists _, _, _. split; [exact (info_names _ _ _ _ Hof)|].
    split; [exact (info_domain _ _ _ _ Hof) | exact (info_state _ _ _ _ Hof)].
  - exact (info_description _ _ _ _ Hof).
  - intros key. apply info_with_keys.
Qed.

Lemma entry_shape_witness :
  filed Example.report "entities" "sensor.hall" ≫= (.!! "description"%string) = None.
Proof.
  destruct (entry_shape Example.hass "conversation" Example.report
              "entities" "sensor.hall"
              (example_entry "entities" "sensor.hall") example_report_ok)
    as (_ & Hdescription & _).
  { vm_cast_no_check (@eq_refl _ (Some (example_entry "entities" "sensor.hall"))). }
  assert (filed Example.report "entities" "sensor.hall"
          = Some (example_entry "entities" "sensor.hall")) as ->; [|exact Hdescription].
  vm_cast_no_check (@eq_refl _ (Some (example_entry "entities" "sensor.hall"))).
Defined.

(** X4. When an identifier occurs more than once in the snapshot, the
    assignment of lines 143 and 145 overwrites: the entry found under the
    key of its last exposed occurrence is the [info] of that occurrence. *)
Theorem last_state_wins hass assistant out l1 st l2 :
  _custom_get_exposed_entities hass assistant = Ok out →
  states hass = l1 ++ st :: l2 →
  async_should_expose hass assistant (entity_id st) = true →
  (∀ st', st' ∈ l2 → entity_id st' ≠ entity_id st) →
  ∃ info, build_info hass st = Ok info ∧
          filed out (bucket_key st) (entity_id st) = Some info.
Proof.
  intros (acc & Hloop & ->)%custom_get_exposed_entities_ok Hstates Hexp Hlater.
  rewrite Hstates, for_each_app in Hloop.
  destruct (for_each (state_step hass assistant) l1 (∅, initial_data))
    as [acc1|e] eqn:Hl1; [|discriminate].
  simpl in Hloop.
  destruct (state_step hass assistant acc1 st) as [acc2|e] eqn:Hstep;
    [|discriminate].
  simpl in Hloop.
  pose proof (state_loop_dom _ _ _ _ _ Hl1) as Hdom1. simpl in Hdom1.
  apply state_step_ok in Hstep as [[Hno _]|(_ & info & Hinfo & ->)]; [congruence|].
  exists info. split; [exact Hinfo|].
  rewrite filed_slot.
  assert ((if decide (bucket_key st = "entities"%string)
           then None else Some (bucket_key st)) = place acc1.2 st) as ->.
  { rewrite (place_dom _ _ _ Hdom1), place_bucket_key.
    pose proof (place_not_entities st) as Hne.
    destruct (place initial_data st) as [d|]; simpl; [|done].
    by destruct (decide (d = "entities"%string)) as [->|]. }
  rewrite (state_loop_frame _ _ _ _ _ _ _ Hloop).
  - apply route_slot_here.
  - intros st' Hin _ [_ Hid]. by apply (Hlater st').
Qed.

Lemma example_report_repeated_ok :
  _custom_get_exposed_entities example_hass_repeated "conversation"
  = Ok example_report_repeated.
Proof. vm_cast_no_check (@eq_refl _ (Ok example_report_repeated)). Qed.

Lemma last_state_wins_witness :
  ∃ info, filed example_report_repeated "entities" "light.bedroom" = Some info ∧
          info !! "state"%string = Some (IStr "off").
Proof.
  destruct (last_state_wins example_hass_repeated "conversation"
              example_report_repeated
              [Example.bedroom_light; Example.hall_sensor] bedroom_light_off [])
    as (info & Hbuild & Hfiled).
  - exact example_report_repeated_ok.
  - reflexivity.
  - reflexivity.
  - intros st' Hin. by apply elem_of_nil in Hin.
  - exists info. split; [exact Hfiled|].
    apply build_info_ok in Hbuild as [attrs Hof].
    exact (info_state _ _ _ _ Hof).
Defined.

Lemma state_loop_exposed hass assistant l acc :
  for_each (state_step hass assistant) l acc =
  for_each (state_step hass assistant)
    (List.filter (λ st, async_should_expose hass assistant (entity_id st)) l) acc.
Proof.
  revert acc. induction l as [|st l IH]; intros acc; [reflexivity|].
  cbn [for_each List.filter].
  destruct (async_should_expose hass assistant (entity_id st)) eqn:Hexp.
  - cbn [for_each].
    destruct (state_step hass assistant acc st); simpl; [apply IH | reflexivity].
  - assert (state_step hass assistant acc st = Ok acc) as ->.
    { unfold state_step. by rewrite Hexp. }
    apply IH.
Qed.

(** X5. States that the predicate rejects are skipped before anything of
    them is read: the call gives what it gives on the exposed states alone,
    the same report or the same exception, so a rejected state with an
    attribute that cannot be converted does not make the call fail. *)
Theorem unexposed_states_skipped hass assistant :
  _custom_get_exposed_entities hass assistant =
  _custom_get_exposed_entities
    (with_states (exposed_states hass assistant) hass) assistant.
Proof.
  unfold _custom_get_exposed_entities. cbn [states with_states].
  rewrite (state_loop_exposed hass). fold (exposed_states hass assistant).
  rewrite (for_each_ext (state_step hass assistant)
             (state_step (with_states (exposed_states hass assistant) hass)
                assistant)); [reflexivity|].
  intros acc st _. reflexivity.
Qed.

(** X6. When the predicate accepts no state of the snapshot, the empty
    snapshot included, the call returns the three empty mappings, whatever
    the attributes and the registries hold. *)
Theorem nothing_exposed hass assistant :
  (∀ st, st ∈ states hass → async_should_expose hass assistant (entity_id st) = false) →
  _custom_get_exposed_entities hass assistant = Ok empty_report.
Proof.
  intros Hnone. unfold _custom_get_exposed_entities.
  rewrite (state_loop_exposed hass). fold (exposed_states hass assistant).
  assert (exposed_states hass assistant = []) as ->.
  { unfold exposed_states. induction (states hass) as [|st l IH]; [reflexivity|].
    simpl. rewrite (Hnone st) by left. apply IH. intros st' Hin.
    apply Hnone. by right. }
  reflexivity.
Qed.

Lemma nothing_exposed_witness :
  _custom_get_exposed_entities Example.hass_nan "somebody else" = Ok empty_report.
Proof.
  apply nothing_exposed. intros st Hin.
  apply elem_of_cons in Hin as [->|Hin]; [reflexivity|].
  by apply elem_of_nil in Hin.
Defined.

(** An entry of the report of one snapshot is an entry of the report of any
    snapshot with distinct identifiers that holds the same exposed states,
    under predicates that agree on them. *)
Lemma entry_transfers hass1 hass2 assistant out1 out2 k id info :
  entity_registry hass1 = entity_registry hass2 →
  area_registry hass1 = area_registry hass2 →
  device_registry hass1 = device_registry hass2 →
  NoDup (entity_id <$> states hass2) →
  (∀ st, st ∈ states hass1 → exposed hass1 assistant st →
         st ∈ states hass2 ∧ exposed hass2 assistant st) →
  _custom_get_exposed_entities hass1 assistant = Ok out1 →
  _custom_get_exposed_entities hass2 assistant = Ok out2 →
  filed out1 k id = Some info → filed out2 k id = Some info.
Proof.
  intros Hentity Harea Hdevice Hnd Hsub Hout1 Hout2 Hfiled.
  destruct (report_sound _ _ _ _ _ _ Hout1 Hfiled)
    as (st & Hin & Hexp & -> & -> & Hinfo).
  destruct (Hsub st Hin Hexp) as [Hin2 Hexp2].
  destruct (report_complete _ _ _ _ Hout2 Hnd Hin2 Hexp2) as (info' & Hinfo' & Hfiled').
  rewrite (build_info_registries hass1 hass2 st Hentity Harea Hdevice) in Hinfo.
  congruence.
Qed.

(** X7. With distinct identifiers, which entry a key and an identifier
    have does not depend on the order of the snapshot: a call that returns
    on one ordering of the states returns on every other, and every lookup
    by key and identifier gives the same in both reports.  The statement is
    about lookups only: the order in which a dictionary lists its keys
    follows the snapshot, and the reports of this embedding do not record
    it. *)
Theorem permuted_snapshot_same_entries hass assistant l1 l2 out1 :
  NoDup (entity_id <$> l1) →
  l1 ≡ₚ l2 →
  _custom_get_exposed_entities (with_states l1 hass) assistant = Ok out1 →
  ∃ out2,
    _custom_get_exposed_entities (with_states l2 hass) assistant = Ok out2 ∧
    ∀ k id, filed out2 k id = filed out1 k id.
Proof.
  intros Hnd1 Hperm Hout.
  assert (NoDup (entity_id <$> l2)) as Hnd2 by (by rewrite <- Hperm).
  assert (is_ok (_custom_get_exposed_entities (with_states l2 hass) assistant) = true)
    as Hok.
  { apply custom_get_exposed_entities_is_ok. cbn [states with_states].
    rewrite <- Hperm.
    apply (custom_get_exposed_entities_is_ok (with_states l1 hass)).
    by rewrite Hout. }
  destruct (_custom_get_exposed_entities (with_states l2 hass) assistant)
    as [out2|e] eqn:Hout2; [|discriminate].
  exists out2. split; [reflexivity|].
  assert (∀ k id info, filed out1 k id = Some info → filed out2 k id = Some info)
    as H12.
  { intros k id info.
    apply (entry_transfers (with_states l1 hass) (with_states l2 hass) assistant);
      try done.
    intros st Hin Hexp. split; [|exact Hexp]. cbn [states with_states] in *.
    by rewrite <- Hperm. }
  assert (∀ k id info, filed out2 k id = Some info → filed out1 k id = Some info)
    as H21.
  { intros k id info.
    apply (entry_transfers (with_states l2 hass) (with_states l1 hass) assistant);
      try done.
    intros st Hin Hexp. split; [|exact Hexp]. cbn [states with_states] in *.
    by rewrite Hperm. }
  intros k id. destruct (filed out1 k id) as [info|] eqn:Hfiled.
  - by apply H12.
  - destruct (filed out2 k id) as [info|] eqn:Hfiled2; [|reflexivity].
    apply H21 in Hfiled2. congruence.
Qed.

Lemma permuted_snapshot_same_entries_witness :
  ∃ out2,
    _custom_get_exposed_entities
      (with_states (reverse (states Example.hass)) Example.hass) "conversation"
    = Ok out2 ∧
    filed out2 "entities" "sensor.hall" = filed Example.report "entities" "sensor.hall".
Proof.
  destruct (permuted_snapshot_same_entries Example.hass "conversation"
              (states Example.hass) (reverse (states Example.hass)) Example.report)
    as (out2 & Hout2 & Hsame).
  - exact example_ids_distinct.
  - symmetry. apply reverse_Permutation.
  - exact example_report_ok.
  - exists out2. split; [exact Hout2 | apply Hsame].
Defined.

(** X8. Exposing more never changes what was exposed before: with distinct
    identifiers, if a second predicate accepts every state the first
    accepts, each entry of the first report is an entry of the second, under
    the same key and unchanged. *)
Theorem exposing_more_keeps_entries hass1 hass2 assistant out1 out2 k id info :
  states hass1 = states hass2 →
  entity_registry hass1 = entity_registry hass2 →
  area_registry hass1 = area_registry hass2 →
  device_registry hass1 = device_registry hass2 →
  NoDup (entity_id <$> states hass2) →
  (∀ id, async_should_expose hass1 assistant id = true →
         async_should_expose hass2 assistant id = true) →
  _custom_get_exposed_entities hass1 assistant = Ok out1 →
  _custom_get_exposed_entities hass2 assistant = Ok out2 →
  filed out1 k id = Some info → filed out2 k id = Some info.
Proof.
  intros Hstates Hentity Harea Hdevice Hnd Hmore.
  apply entry_transfers; try done.
  intros st Hin Hexp. split; [by rewrite <- Hstates | by apply Hmore].
Qed.

Lemma exposing_more_keeps_entries_witness :
  filed example_report_all "entities" "light.bedroom"
  = Some (example_entry "entities" "light.bedroom").
Proof.
  apply (exposing_more_keeps_entries Example.hass example_hass_all "conversation"
           Example.report example_report_all).
  - reflexivity.
  - reflexivity.
  - reflexivity.
  - reflexivity.
  - exact example_ids_distinct.
  - intros id _. reflexivity.
  - exact example_report_ok.
  - vm_cast_no_check (@eq_refl _ (Ok example_report_all)).
  - vm_cast_no_check (@eq_refl _ (Some (example_entry "entities" "light.bedroom"))).
Defined.

Lemma convert_attribute_kind k v0 v :
  convert_attribute k v0 = Ok v → output_kind k v.
Proof.
  rewrite convert_attribute_cases.
  destruct (String.eqb_spec k "brightness") as [->|Hk]; simpl.
  - destruct (host_numeric v0) eqn:Hnum.
    { intros (x & n & _ & _ & ->)%rescale_brightness_ok. reflexivity. }
    destruct (stringified v0) eqn:Hstr.
    { destruct (py_str v0); simpl; [|discriminate]. by intros [= <-]. }
    intros [= <-]. by destruct v0.
  - destruct (stringified v0) eqn:Hstr.
    { destruct (py_str v0); simpl; [|discriminate]. by intros [= <-]. }
    intros [= <-]. by destruct v0.
Qed.

(** X9. What an output attribute mapping holds: it is never empty; each of
    its names is an allowed name that the state carries, bound to the
    conversion of the state's value; and the value is never a boolean, a
    member of an enumeration or a decimal, an integer only under
    brightness, a float only under another name. *)
Theorem output_attribute_kinds hass assistant out key id info attrs :
  _custom_get_exposed_entities hass assistant = Ok out →
  filed out key id = Some info →
  info !! "attributes"%string = Some (IDict attrs) →
  attrs ≠ ∅ ∧
  ∀ k v, attrs !! k = Some v →
         k ∈ allow_list ∧ output_kind k v ∧
         ∃ st v0, st ∈ states hass ∧ entity_id st = id ∧
                  (k, v0) ∈ attributes st ∧ convert_attribute k v0 = Ok v.
Proof.
  intros Hout Hfiled Hattrs.
  destruct (report_sound _ _ _ _ _ _ Hout Hfiled)
    as (st & Hin & _ & _ & -> & Hinfo).
  destruct (build_info_ok _ _ _ Hinfo) as [attrs' Hof].
  pose proof (info_attributes _ _ _ _ Hof) as Hattrs'.
  rewrite Hattrs in Hattrs'.
  destruct (nonempty_dict attrs') eqn:Hne; [|discriminate].
  injection Hattrs' as ->. split.
  { apply nonempty_dict_true in Hne as (k & v & Hk). intros ->.
    by rewrite lookup_empty in Hk. }
  intros k v Hk.
  destruct (attribute_loop_sound _ _ _ _ _ (info_attrs_loop _ _ _ _ Hof) Hk)
    as [Hinit|(v0 & Hv0 & Hint & Hconv)].
  { by rewrite lookup_empty in Hinit. }
  split; [by apply interesting_allow_list|].
  split; [by apply (convert_attribute_kind k v0)|].
  exists st, v0. split; [exact Hin|]. split; [reflexivity|].
  split; [exact Hv0 | exact Hconv].
Qed.

Lemma output_attribute_kinds_witness :
  Example.attributes_at Example.report "entities" "sensor.hall" ≠ ∅.
Proof.
  apply (output_attribute_kinds Example.hass "conversation" Example.report
           "entities" "sensor.hall" (example_entry "entities" "sensor.hall")).
  - exact example_report_ok.
  - vm_cast_no_check (@eq_refl _ (Some (example_entry "entities" "sensor.hall"))).
  - vm_cast_no_check
      (@eq_refl _ (Some (IDict (Example.attributes_at Example.report
                                  "entities" "sensor.hall")))).
Defined.

Lemma percent_in_range_0_255 : forallb percent_in_range (seqZ 0 256) = true.
Proof. vm_compute. reflexivity. Qed.

Lemma percent_steps_up_0_254 : forallb percent_steps_up (seqZ 0 255) = true.
Proof. vm_compute. reflexivity. Qed.

Lemma percent_reached_0_100 : forallb percent_reached (seqZ 0 101) = true.
Proof. vm_compute. reflexivity. Qed.

Lemma forallb_seqZ (f : Z → bool) (m len z : Z) :
  forallb f (seqZ m len) = true → m ≤ z < m + len → f z = true.
Proof.
  intros Hall Hz. rewrite forallb_forall in Hall. apply Hall.
  apply list_elem_of_In, elem_of_seqZ. lia.
Qed.

Lemma brightness_percent_mono z z' :
  0 ≤ z → z ≤ z' → z' ≤ 255 → brightness_percent z ≤ brightness_percent z'.
Proof.
  intros Hz Hle Hz'.
  replace z' with (z + Z.of_nat (Z.to_nat (z' - z))) in * by lia.
  induction (Z.to_nat (z' - z)) as [|n IH].
  - replace (z + Z.of_nat 0) with z by lia. lia.
  - etransitivity; [apply IH; lia|].
    replace (z + Z.of_nat (S n)) with (z + Z.of_nat n + 1) by lia.
    apply Z.leb_le.
    apply (forallb_seqZ percent_steps_up 0 255 _ percent_steps_up_0_254). lia.
Qed.

(** X10. On the raw range the rescaling of line 133 is a map from 0..255
    onto 0..100: every integer brightness between 0 and 255 gets a
    percentage between 0 and 100, a larger brightness never gets a smaller
    percentage, and every percentage from 0 to 100 is the image of some raw
    value. *)
Theorem brightness_percent_range :
  (∀ z, 0 ≤ z ≤ 255 →
        ∃ n, rescale_brightness (VInt z) = Ok (VInt n) ∧ 0 ≤ n ≤ 100) ∧
  (∀ z z' n n', 0 ≤ z → z ≤ z' → z' ≤ 255 →
                rescale_brightness (VInt z) = Ok (VInt n) →
                rescale_brightness (VInt z') = Ok (VInt n') → n ≤ n') ∧
  (∀ n, 0 ≤ n ≤ 100 →
        ∃ z, 0 ≤ z ≤ 255 ∧ rescale_brightness (VInt z) = Ok (VInt n)).
Proof.
  split; [|split].
  - intros z Hz. exists (brightness_percent z).
    split; [by apply rescale_brightness_exact|].
    assert (percent_in_range z = true) as Hin
      by (apply (forallb_seqZ _ 0 256 _ percent_in_range_0_255); lia).
    unfold percent_in_range in Hin. lia.
  - intros z z' n n' Hz Hle Hz' Hn Hn'.
    destruct (rescale_brightness_exact z) as [Hex _]; [lia|].
    destruct (rescale_brightness_exact z') as [Hex' _]; [lia|].
    assert (n = brightness_percent z) as -> by congruence.
    assert (n' = brightness_percent z') as -> by congruence.
    by apply brightness_percent_mono.
  - intros n Hn.
    assert (percent_reached n = true) as Hreached
      by (apply (forallb_seqZ _ 0 101 _ percent_reached_0_100); lia).
    unfold percent_reached in Hreached.
    apply existsb_exists in Hreached as (z & Hz & Heq).
    apply list_elem_of_In, elem_of_seqZ in Hz. apply Z.eqb_eq in Heq. subst n.
    exists z. split; [lia|]. apply rescale_brightness_exact. lia.
Qed.

Lemma brightness_percent_range_witness :
  ∃ n, rescale_brightness (VInt 200) = Ok (VInt n) ∧ 0 ≤ n ≤ 100.
Proof.
  destruct brightness_percent_range as (Hrange & _ & _).
  apply Hrange. lia.
Defined.

Lemma bucket_lookup out k id : bucket out k !! id = filed out k id.
Proof. unfold bucket, filed. by destruct (out !! k). Qed.

(** With distinct identifiers the identifiers of a bucket are those of the
    exposed states filed under its key. *)
Lemma bucket_dom hass assistant out k :
  _custom_get_exposed_entities hass assistant = Ok out →
  NoDup (entity_id <$> states hass) →
  dom (bucket out k)
  = list_to_set (entity_id <$> filed_states hass assistant k (states hass)).
Proof.
  intros Hout Hnd. apply set_eq. intros id.
  rewrite elem_of_dom, bucket_lookup, elem_of_list_to_set, list_elem_of_fmap.
  unfold filed_states. split.
  - intros [info Hfiled].
    destruct (report_sound _ _ _ _ _ _ Hout Hfiled) as (st & Hin & Hexp & -> & -> & _).
    exists st. split; [reflexivity|]. by apply list_elem_of_filter.
  - intros (st & -> & [[Hexp <-] Hin]%list_elem_of_filter).
    destruct (report_complete _ _ _ _ Hout Hnd Hin Hexp) as (info & _ & Hfiled).
    by exists info.
Qed.

Lemma bucket_size hass assistant out k :
  _custom_get_exposed_entities hass assistant = Ok out →
  NoDup (entity_id <$> states hass) →
  size (bucket out k) = length (filed_states hass assistant k (states hass)).
Proof.
  intros Hout Hnd.
  rewrite <- size_dom, (bucket_dom _ _ _ _ Hout Hnd), size_list_to_set.
  - apply length_fmap.
  - apply (sublist_NoDup _ _ Hnd), fmap_sublist, sublist_filter.
Qed.

(** Each exposed state is filed under exactly one of the three keys. *)
Lemma filed_states_partition hass assistant l :
  (length (filed_states hass assistant "script" l)
   + length (filed_states hass assistant "calendar" l)
   + length (filed_states hass assistant "entities" l))%nat
  = length (List.filter (λ st, async_should_expose hass assistant (entity_id st)) l).
Proof.
  unfold filed_states. induction l as [|st l IH]; [reflexivity|].
  rewrite !filter_cons. cbn [List.filter].
  destruct (async_should_expose hass assistant (entity_id st)) eqn:Hexp.
  - assert (bucket_key st = "script"%string ∨ bucket_key st = "calendar"%string ∨
            bucket_key st = "entities"%string) as [Hk|[Hk|Hk]].
    { unfold bucket_key, SCRIPT_DOMAIN, CALENDAR_DOMAIN.
      destruct (String.eqb (domain st) "script"); [by left|].
      destruct (String.eqb (domain st) "calendar"); [right; by left | by do 2 right]. }
    all: rewrite Hk; repeat case_decide; simpl; try lia; exfalso;
      intuition (try discriminate; try congruence).
  - repeat case_decide; simpl; try lia; exfalso;
      intuition (try discriminate; try congruence).
Qed.

(** X11. With distinct identifiers no exposed state is lost and none is
    filed twice: the three mappings of the report hold, together, as many
    entries as the snapshot has states that the predicate accepts. *)
Theorem entries_counted hass assistant out :
  _custom_get_exposed_entities hass assistant = Ok out →
  NoDup (entity_id <$> states hass) →
  entry_count out = length (exposed_states hass assistant).
Proof.
  intros Hout Hnd. unfold entry_count, exposed_states.
  rewrite !(bucket_size _ _ _ _ Hout Hnd). apply filed_states_partition.
Qed.

Lemma entries_counted_witness : entry_count Example.report = 4%nat.
Proof.
  rewrite (entries_counted Example.hass "conversation" Example.report).
  - reflexivity.
  - exact example_report_ok.
  - exact example_ids_distinct.
Defined.

(** A loop raises what its body raises on the first item it fails on. *)
Lemma for_each_first_failure {A S : Type} (body : S → A → result S) l1 x l2 e s :
  (∀ s y, y ∈ l1 → is_ok (body s y) = true) →
  (∀ s, body s x = Raise e) →
  for_each body (l1 ++ x :: l2) s = Raise e.
Proof.
  revert s. induction l1 as [|y l1 IH]; intros s Hok Hraise.
  - simpl. by rewrite Hraise.
  - simpl. pose proof (Hok s y ltac:(left)) as Hy.
    destruct (body s y) as [s1|e']; [|discriminate]. simpl.
    apply IH; [|exact Hraise]. intros s' y' Hy'. apply Hok. by right.
Qed.

(** X12. A failing call fails fast, in the order of the snapshot and of the
    attribute items: it raises the exception of the first allowed attribute
    that does not convert, of the first exposed state that has one. *)
Theorem first_failure_raised hass assistant l1 st l2 items1 k v items2 e :
  states hass = l1 ++ st :: l2 →
  (∀ st' k' v', st' ∈ l1 →
                async_should_expose hass assistant (entity_id st') = true →
                (k', v') ∈ attributes st' → k' ∈ allow_list →
                is_ok (convert_attribute k' v') = true) →
  async_should_expose hass assistant (entity_id st) = true →
  attributes st = items1 ++ (k, v) :: items2 →
  (∀ k' v', (k', v') ∈ items1 → k' ∈ allow_list →
            is_ok (convert_attribute k' v') = true) →
  k ∈ allow_list →
  convert_attribute k v = Raise e →
  _custom_get_exposed_entities hass assistant = Raise e.
Proof.
  intros Hstates Hbefore Hexp Hattrs Hitems Hallow Hraise.
  assert (build_info hass st = Raise e) as Hinfo.
  { rewrite build_info_eq, Hattrs.
    rewrite (for_each_first_failure attribute_step items1 (k, v) items2 e);
      [reflexivity | |].
    - intros attrs [k' v'] Hin. apply attribute_step_is_ok. intros Hint.
      apply Hitems; [exact Hin|]. by apply interesting_allow_list.
    - intros attrs. unfold attribute_step.
      rewrite bool_decide_eq_true_2 by (by apply interesting_allow_list).
      by rewrite Hraise. }
  unfold _custom_get_exposed_entities. rewrite Hstates.
  rewrite (for_each_first_failure (state_step hass assistant) l1 st l2 e);
    [reflexivity | |].
  - intros acc st' Hin. apply state_step_is_ok. intros Hexp'.
    apply Forall_forall. intros [k' v'] Hitem Hint.
    apply (Hbefore st' k' v' Hin Hexp' Hitem). by apply interesting_allow_list.
  - intros acc. unfold state_step. rewrite Hexp. simpl. by rewrite Hinfo.
Qed.

Lemma first_failure_raised_witness :
  _custom_get_exposed_entities
    (with_states (Example.bedroom_light :: Example.nan_light :: states Example.hass_bool)
       Example.hass) "conversation"
  = Raise ValueError.
Proof.
  apply (first_failure_raised _ "conversation" [Example.bedroom_light]
           Example.nan_light (states Example.hass_bool)
           [] "brightness" (VFloat S754_nan) []).
  - reflexivity.
  - intros st' k' v' Hin _ Hattr _.
    apply elem_of_cons in Hin as [->|Hin]; [|by apply elem_of_nil in Hin].
    assert (Forall (λ item, is_ok (convert_attribute item.1 item.2) = true)
              (attributes Example.bedroom_light)) as Hall.
    { repeat constructor. }
    rewrite Forall_forall in Hall. exact (Hall (k', v') Hattr).
  - reflexivity.
  - reflexivity.
  - intros k' v' Hin. by apply elem_of_nil in Hin.
  - apply (bool_decide_unpack _). vm_compute. reflexivity.
  - reflexivity.
Defined.

(** * Properties of the image service

    What the schema of [generate_image] accepts and hands to the handler,
    and what [render_image] does with it. *)

Lemma insert_defaults_lookup schema data key :
  insert_defaults schema data !! key =
  match data !! key with
  | Some v => Some v
  | None => default_of schema key
  end.
Proof.
  unfold insert_defaults.
  revert data. induction schema as [|[skey cvalue] schema IH]; intros data.
  - simpl. by destruct (data !! key).
  - cbn [foldl default_of]. destruct (marker_default skey) as [d|]; [|apply IH].
    destruct (data !! marker_schema skey) eqn:Hk.
    + rewrite IH. destruct (data !! key) eqn:Hkey; [reflexivity|].
      destruct (String.eqb_spec (marker_schema skey) key) as [<-|]; congruence.
    + rewrite IH.
      destruct (String.eqb_spec (marker_schema skey) key) as [<-|Hne].
      * by rewrite lookup_insert_eq, Hk.
      * by rewrite lookup_insert_ne.
Qed.

Lemma validate_mapping_Some schema data out :
  validate_mapping schema data = Some out ↔
  (∀ key value, insert_defaults schema data !! key = Some value →
                is_Some (validate_item schema key value)) ∧
  required_keys_provided schema (insert_defaults schema data) = true ∧
  out = map_imap (validate_item schema) (insert_defaults schema data).
Proof.
  unfold validate_mapping.
  destruct (bool_decide _) eqn:Hall; simpl.
  - apply bool_decide_eq_true in Hall.
    destruct (required_keys_provided _ _); simpl.
    + split; [intros [= <-]; by repeat split|].
      by intros (_ & _ & ->).
    + split; [discriminate|]. by intros (_ & ? & _).
  - apply bool_decide_eq_false in Hall.
    split; [discriminate|]. intros (Hitems & _ & _). by destruct Hall.
Qed.

(** The entry of the service's schema that validates a key. *)
Lemma validate_item_cases env key value :
  (key = "config_entry" ∧
   validate_item (generate_image_schema env) key value = ConfigEntrySelector env value) ∨
  (key = "prompt" ∧
   validate_item (generate_image_schema env) key value = cv_string env value) ∨
  (key = "size" ∧
   validate_item (generate_image_schema env) key value = vol_In sizes value) ∨
  (key = "quality" ∧
   validate_item (generate_image_schema env) key value = vol_In qualities value) ∨
  (key = "style" ∧
   validate_item (generate_image_schema env) key value = vol_In styles value) ∨
  ((key ∉ generate_image_keys) ∧
   validate_item (generate_image_schema env) key value = None).
Proof.
  unfold validate_item, candidate, generate_image_schema. cbn [List.find marker_schema Required Optional].
  destruct (String.eqb_spec "config_entry" key) as [<-|H1]; [by left|].
  destruct (String.eqb_spec "prompt" key) as [<-|H2]; [by right; left|].
  destruct (String.eqb_spec "size" key) as [<-|H3]; [by right; right; left|].
  destruct (String.eqb_spec "quality" key) as [<-|H4]; [by right; right; right; left|].
  destruct (String.eqb_spec "style" key) as [<-|H5]; [by right; right; right; right; left|].
  do 5 right. split; [|reflexivity].
  unfold generate_image_keys. rewrite !elem_of_cons, elem_of_nil.
  intros [->|[->|[->|[->|[->|[]]]]]]; congruence.
Qed.

Lemma vol_In_Some container v w :
  vol_In container v = Some w ↔ one_of container v ∧ w = v.
Proof.
  unfold vol_In, one_of. destruct (existsb _ _); split.
  - by intros [= <-].
  - by intros [_ ->].
  - discriminate.
  - by intros [? _].
Qed.

Lemma vol_In_is_Some container v :
  is_Some (vol_In container v) ↔ one_of container v.
Proof.
  unfold vol_In, one_of. destruct (existsb _ _); split; done.
Qed.

(** The data with the defaults inserted, key by key. *)
Lemma generate_image_defaults env raw key :
  insert_defaults (generate_image_schema env) raw !! key =
  match raw !! key with
  | Some v => Some v
  | None =>
      if String.eqb "size" key then Some (VStr "1024x1024")
      else if String.eqb "quality" key then Some (VStr "standard")
      else if String.eqb "style" key then Some (VStr "vivid")
      else None
  end.
Proof. apply insert_defaults_lookup. Qed.

Lemma required_keys_provided_iff env raw :
  required_keys_provided (generate_image_schema env)
    (insert_defaults (generate_image_schema env) raw) = true ↔
  is_Some (raw !! "config_entry") ∧ is_Some (raw !! "prompt").
Proof.
  unfold required_keys_provided, generate_image_schema.
  cbn [forallb marker_required marker_schema Required Optional negb orb].
  fold (generate_image_schema env). rewrite !andb_true_r, andb_true_iff.
  rewrite !bool_decide_eq_true, !generate_image_defaults.
  cbn. split; intros [H1 H2]; split.
  - by destruct (raw !! "config_entry").
  - by destruct (raw !! "prompt").
  - by destruct H1 as [? ->].
  - by destruct H2 as [? ->].
Qed.

(** X13. What the schema of the service accepts: call data is accepted
    exactly when it has no key besides config_entry, prompt, size, quality
    and style, it has a config_entry the entry selector accepts and a prompt
    the string validator accepts, and each of size, quality and style that it
    has is one of the values the schema lists. *)
Theorem schema_accepts_iff env raw :
  is_Some (validate_mapping (generate_image_schema env) raw) ↔
  (∀ key, is_Some (raw !! key) → key ∈ generate_image_keys) ∧
  (∃ v, raw !! "config_entry" = Some v ∧ is_Some (ConfigEntrySelector env v)) ∧
  (∃ v, raw !! "prompt" = Some v ∧ is_Some (cv_string env v)) ∧
  (∀ v, raw !! "size" = Some v → one_of sizes v) ∧
  (∀ v, raw !! "quality" = Some v → one_of qualities v) ∧
  (∀ v, raw !! "style" = Some v → one_of styles v).
Proof.
  split.
  - intros [out Hout]. apply validate_mapping_Some in Hout as (Hitems & Hreq & _).
    apply required_keys_provided_iff in Hreq as [[v1 H1] [v2 H2]].
    assert (Hraw : ∀ key v, raw !! key = Some v →
              is_Some (validate_item (generate_image_schema env) key v)).
    { intros key v Hkey. apply Hitems. by rewrite generate_image_defaults, Hkey. }
    split; [|split; [|split; [|split; [|split]]]].
    + intros key [v Hkey]. specialize (Hraw key v Hkey).
      destruct (validate_item_cases env key v)
        as [[-> _]|[[-> _]|[[-> _]|[[-> _]|[[-> _]|[_ Hnone]]]]]];
        try (unfold generate_image_keys; rewrite !elem_of_cons; tauto).
      rewrite Hnone in Hraw. by destruct Hraw.
    + exists v1. split; [exact H1|]. specialize (Hraw _ _ H1).
      destruct (validate_item_cases env "config_entry" v1)
        as [[_ Heq]|[[? _]|[[? _]|[[? _]|[[? _]|[Hno _]]]]]]; try discriminate.
      * by rewrite <- Heq.
      * destruct Hno. unfold generate_image_keys. rewrite !elem_of_cons; tauto.
    + exists v2. split; [exact H2|]. specialize (Hraw _ _ H2).
      destruct (validate_item_cases env "prompt" v2)
        as [[? _]|[[_ Heq]|[[? _]|[[? _]|[[? _]|[Hno _]]]]]]; try discriminate.
      * by rewrite <- Heq.
      * destruct Hno. unfold generate_image_keys. rewrite !elem_of_cons; tauto.
    + intros v Hv. apply vol_In_is_Some. exact (Hraw _ _ Hv).
    + intros v Hv. apply vol_In_is_Some. exact (Hraw _ _ Hv).
    + intros v Hv. apply vol_In_is_Some. exact (Hraw _ _ Hv).
  - intros (Hkeys & (v1 & H1 & Hv1) & (v2 & H2 & Hv2) & Hsize & Hquality & Hstyle).
    eexists. apply validate_mapping_Some. split; [|split; [|reflexivity]].
    + intros key value. rewrite generate_image_defaults.
      destruct (raw !! key) as [v|] eqn:Hkey.
      * intros [= ->]. specialize (Hkeys key (ex_intro _ _ Hkey)).
        unfold generate_image_keys in Hkeys.
        rewrite !elem_of_cons, elem_of_nil in Hkeys.
        destruct Hkeys as [->|[->|[->|[->|[->|[]]]]]].
        -- replace value with v1 by congruence. exact Hv1.
        -- replace value with v2 by congruence. exact Hv2.
        -- apply (vol_In_is_Some sizes). by apply Hsize.
        -- apply (vol_In_is_Some qualities). by apply Hquality.
        -- apply (vol_In_is_Some styles). by apply Hstyle.
      * destruct (String.eqb_spec "size" key) as [<-|_]; [by intros [= <-]|].
        destruct (String.eqb_spec "quality" key) as [<-|_]; [by intros [= <-]|].
        destruct (String.eqb_spec "style" key) as [<-|_]; [by intros [= <-]|].
        discriminate.
    + apply required_keys_provided_iff. by rewrite H1, H2.
Qed.

(** What validated data holds under a key: the validated value of what the
    data with its defaults holds there. *)
Lemma validate_mapping_lookup schema data out key :
  validate_mapping schema data = Some out →
  out !! key = insert_defaults schema data !! key ≫= validate_item schema key.
Proof.
  intros Hout. apply validate_mapping_Some in Hout as (_ & _ & ->).
  apply map_lookup_imap.
Qed.

(** An optional key of the service's schema: the caller's value when it is in
    the container, otherwise the default. *)
Lemma validated_optional env raw call_data key container default :
  validate_mapping (generate_image_schema env) raw = Some call_data →
  (∀ v, validate_item (generate_image_schema env) key v = vol_In container v) →
  default_of (generate_image_schema env) key = Some default →
  call_data !! key = Some (or_default default (raw !! key)) ∧
  one_of container (or_default default (raw !! key)).
Proof.
  intros Hout Hitem Hdefault.
  pose proof (validate_mapping_lookup _ _ _ key Hout) as Hkey.
  apply validate_mapping_Some in Hout as (Hitems & _ & _).
  specialize (Hitems key (or_default default (raw !! key))).
  rewrite insert_defaults_lookup, Hdefault in Hkey, Hitems.
  assert (Hsome : is_Some (vol_In container (or_default default (raw !! key)))).
  { rewrite <- Hitem. apply Hitems. by destruct (raw !! key). }
  apply vol_In_is_Some in Hsome. split; [|exact Hsome].
  rewrite Hkey. destruct (raw !! key) as [v|]; simpl in *;
    rewrite Hitem; unfold vol_In; unfold one_of in Hsome; by rewrite Hsome.
Qed.

(** A required key of the service's schema: the validator's output. *)
Lemma validated_required env raw call_data key (cvalue : Validator) :
  validate_mapping (generate_image_schema env) raw = Some call_data →
  (∀ v, validate_item (generate_image_schema env) key v = cvalue v) →
  default_of (generate_image_schema env) key = None →
  call_data !! key = raw !! key ≫= cvalue.
Proof.
  intros Hout Hitem Hdefault.
  rewrite (validate_mapping_lookup _ _ _ key Hout).
  rewrite insert_defaults_lookup, Hdefault.
  destruct (raw !! key); simpl; [apply Hitem|reflexivity].
Qed.

(** Validated data has the keys of the schema and no other. *)
Lemma validated_keys env raw call_data key :
  validate_mapping (generate_image_schema env) raw = Some call_data →
  is_Some (call_data !! key) ↔ key ∈ generate_image_keys.
Proof.
  intros Hout. rewrite (validate_mapping_lookup _ _ _ key Hout).
  apply validate_mapping_Some in Hout as (Hitems & Hreq & _).
  apply required_keys_provided_iff in Hreq as [H1 H2].
  specialize (Hitems key). rewrite generate_image_defaults in Hitems |- *.
  split.
  - intros [w Hw]. apply bind_Some in Hw as (v & _ & Hv).
    destruct (validate_item_cases env key v)
      as [[-> _]|[[-> _]|[[-> _]|[[-> _]|[[-> _]|[_ Hnone]]]]]];
      try (unfold generate_image_keys; rewrite !elem_of_cons; tauto).
    congruence.
  - unfold generate_image_keys. rewrite !elem_of_cons, elem_of_nil.
    assert (Hin : ∀ v, match raw !! key with
                       | Some v => Some v
                       | None =>
                           if String.eqb "size" key then Some (VStr "1024x1024")
                           else if String.eqb "quality" key then Some (VStr "standard")
                           else if String.eqb "style" key then Some (VStr "vivid")
                           else None
                       end = Some v →
                  is_Some (match raw !! key with
                       | Some v => Some v
                       | None =>
                           if String.eqb "size" key then Some (VStr "1024x1024")
                           else if String.eqb "quality" key then Some (VStr "standard")
                           else if String.eqb "style" key then Some (VStr "vivid")
                           else None
                       end ≫= validate_item (generate_image_schema env) key)).
    { intros v Hv. rewrite Hv. simpl. by apply Hitems. }
    intros [->|[->|[->|[->|[->|[]]]]]].
    + destruct H1 as [v Hv]. apply (Hin v). by rewrite Hv.
    + destruct H2 as [v Hv]. apply (Hin v). by rewrite Hv.
    + destruct (raw !! "size") as [v|] eqn:Hv; [by apply (Hin v)|by eapply Hin].
    + destruct (raw !! "quality") as [v|] eqn:Hv; [by apply (Hin v)|by eapply Hin].
    + destruct (raw !! "style") as [v|] eqn:Hv; [by apply (Hin v)|by eapply Hin].
Qed.

(** X14. What the schema hands to the handler: accepted data comes out
    with exactly the five keys; config_entry and prompt hold what their
    validators returned; size, quality and style hold the caller's value, or
    1024x1024, standard and vivid where the caller gave none. *)
Theorem validated_call_data env raw call_data :
  validate_mapping (generate_image_schema env) raw = Some call_data →
  (∀ key, is_Some (call_data !! key) ↔ key ∈ generate_image_keys) ∧
  call_data !! "config_entry" = raw !! "config_entry" ≫= ConfigEntrySelector env ∧
  call_data !! "prompt" = raw !! "prompt" ≫= cv_string env ∧
  call_data !! "size" = Some (or_default (VStr "1024x1024") (raw !! "size")) ∧
  call_data !! "quality" = Some (or_default (VStr "standard") (raw !! "quality")) ∧
  call_data !! "style" = Some (or_default (VStr "vivid") (raw !! "style")).
Proof.
  intros Hout. split; [|split; [|split; [|split; [|split]]]].
  - intros key. by apply (validated_keys env raw).
  - by apply (validated_required env raw).
  - by apply (validated_required env raw).
  - by apply (validated_optional env raw call_data "size" sizes).
  - by apply (validated_optional env raw call_data "quality" qualities).
  - by apply (validated_optional env raw call_data "style" styles).
Qed.

(** What the handler does once its five items are there. *)
Lemma render_image_prepared env call_data entry_id prompt size quality style :
  call_data !! "config_entry" = Some entry_id →
  call_data !! "prompt" = Some prompt →
  call_data !! "size" = Some size →
  call_data !! "quality" = Some quality →
  call_data !! "style" = Some style →
  let request := {| request_model := "dall-e-3";
                    request_prompt := prompt;
                    request_size := size;
                    request_quality := quality;
                    request_style := style;
                    request_response_format := "url";
                    request_n := 1 |} in
  match entry_client env entry_id with
  | Raises e => render_image env call_data = ([], Raises e)
  | Returns client =>
      (render_image env call_data).1 = [request] ∧
      ∀ key, (render_image env call_data).2 ≠ Raises (KeyError key)
  end.
Proof.
  intros H1 H2 H3 H4 H5 request. unfold render_image, getitem.
  rewrite H1. cbn [mbind outcome_bind].
  destruct (entry_client env entry_id) as [client|e]; [|reflexivity].
  rewrite H2, H3, H4, H5. cbn [mbind outcome_bind mret outcome_ret fst snd].
  split; [reflexivity|]. intros key. fold request.
  destruct (images_generate client request) as [[|image rest]|err|err]; discriminate.
Qed.

Lemma entry_client_no_KeyError env entry_id key :
  entry_client env entry_id ≠ Raises (KeyError key).
Proof.
  unfold entry_client.
  destruct (async_get_entry env entry_id) as [entry|]; [|discriminate].
  destruct (String.eqb _ _); [|discriminate].
  destruct (runtime_data entry); discriminate.
Qed.

(** X15. The schema and the handler together: on data the schema has
    accepted, [render_image] never raises [KeyError], and a request it sends
    to the client asks the model dall-e-3 for one image as a URL, with the
    validated prompt, and with a size, a quality and a style that are the
    caller's or the default and are among the values the schema lists. *)
Theorem validated_call_request env raw call_data :
  validate_mapping (generate_image_schema env) raw = Some call_data →
  (∀ key, (render_image env call_data).2 ≠ Raises (KeyError key)) ∧
  ∀ request, request ∈ (render_image env call_data).1 →
    request_model request = "dall-e-3" ∧
    request_n request = 1 ∧
    request_response_format request = "url" ∧
    raw !! "prompt" ≫= cv_string env = Some (request_prompt request) ∧
    request_size request = or_default (VStr "1024x1024") (raw !! "size") ∧
    request_quality request = or_default (VStr "standard") (raw !! "quality") ∧
    request_style request = or_default (VStr "vivid") (raw !! "style") ∧
    one_of sizes (request_size request) ∧
    one_of qualities (request_quality request) ∧
    one_of styles (request_style request).
Proof.
  intros Hout.
  destruct (validated_optional env raw call_data "size" sizes (VStr "1024x1024")
              Hout (λ _, eq_refl) eq_refl) as [Hsize Hsizes].
  destruct (validated_optional env raw call_data "quality" qualities (VStr "standard")
              Hout (λ _, eq_refl) eq_refl) as [Hquality Hqualities].
  destruct (validated_optional env raw call_data "style" styles (VStr "vivid")
              Hout (λ _, eq_refl) eq_refl) as [Hstyle Hstyles].
  pose proof (validated_required env raw call_data "prompt" (cv_string env)
                Hout (λ _, eq_refl) eq_refl) as Hprompt.
  destruct (proj2 (validated_keys env raw call_data "config_entry" Hout))
    as [entry_id Hid]; [unfold generate_image_keys; rewrite !elem_of_cons; tauto|].
  destruct (proj2 (validated_keys env raw call_data "prompt" Hout))
    as [prompt Hp]; [unfold generate_image_keys; rewrite !elem_of_cons; tauto|].
  pose proof (render_image_prepared env call_data _ _ _ _ _
                Hid Hp Hsize Hquality Hstyle) as Hrun.
  cbv zeta in Hrun.
  destruct (entry_client env entry_id) as [client|e] eqn:Hclient.
  - destruct Hrun as [Htrace Hkey]. split; [exact Hkey|].
    intros request. rewrite Htrace, elem_of_cons, elem_of_nil.
    intros [->|[]]. cbn [request_model request_n request_response_format
      request_prompt request_size request_quality request_style].
    rewrite <- Hprompt, Hp. by repeat split.
  - rewrite Hrun. cbn [fst snd]. split.
    + intros key [= ->]. by apply (entry_client_no_KeyError env entry_id key).
    + intros request Hin. by apply elem_of_nil in Hin.
Qed.

(** X16. The handler contacts a client only for an entry of its own
    integration: when [render_image] sends a request, it sends that one and
    no other, the call data names an entry that the host knows, whose domain
    is [DOMAIN] and whose [runtime_data] is set.  For a missing or foreign
    entry, nothing is sent. *)
Theorem client_contacted_for_own_entry env call_data request :
  request ∈ (render_image env call_data).1 →
  (render_image env call_data).1 = [request] ∧
  ∃ entry_id entry client,
    call_data !! "config_entry" = Some entry_id ∧
    async_get_entry env entry_id = Some entry ∧
    entry_domain entry = DOMAIN env ∧
    runtime_data entry = Some client.
Proof.
  unfold render_image, getitem.
  destruct (call_data !! "config_entry") as [entry_id|];
    cbn [mbind outcome_bind fst]; [|by intros ?%elem_of_nil].
  unfold entry_client.
  destruct (async_get_entry env entry_id) as [entry|] eqn:Hentry;
    cbn [mbind outcome_bind fst]; [|by intros ?%elem_of_nil].
  destruct (String.eqb_spec (entry_domain entry) (DOMAIN env)) as [Hdomain|_];
    cbn [mbind outcome_bind fst]; [|by intros ?%elem_of_nil].
  destruct (runtime_data entry) as [client|] eqn:Hclient;
    cbn [mbind outcome_bind fst]; [|by intros ?%elem_of_nil].
  destruct (call_data !! "prompt");
    cbn [mbind outcome_bind fst]; [|by intros ?%elem_of_nil].
  destruct (call_data !! "size");
    cbn [mbind outcome_bind fst]; [|by intros ?%elem_of_nil].
  destruct (call_data !! "quality");
    cbn [mbind outcome_bind fst]; [|by intros ?%elem_of_nil].
  destruct (call_data !! "style");
    cbn [mbind outcome_bind mret outcome_ret fst]; [|by intros ?%elem_of_nil].
  rewrite elem_of_cons, elem_of_nil. intros [->|[]].
  split; [reflexivity|]. by exists entry_id, entry, client.
Qed.

Lemma example_call_validated :
  validate_mapping (generate_image_schema example_integration) example_call =
  Some example_call_data.
Proof. vm_compute. reflexivity. Qed.

Lemma example_request_sent :
  example_request ∈ (render_image example_integration example_call_data).1.
Proof. vm_compute. left. Qed.

Lemma validated_call_data_witness :
  example_call_data !! "size" = Some (VStr "1024x1024") ∧
  example_call_data !! "quality" = Some (VStr "hd").
Proof.
  destruct (validated_call_data example_integration example_call example_call_data
              example_call_validated) as (_ & _ & _ & Hsize & Hquality & _).
  split; [exact Hsize | exact Hquality].
Defined.

Lemma validated_call_request_witness :
  one_of sizes (request_size example_request) ∧
  request_quality example_request = VStr "hd".
Proof.
  destruct (validated_call_request example_integration example_call example_call_data
              example_call_validated) as [_ Hrequest].
  destruct (Hrequest example_request example_request_sent)
    as (_ & _ & _ & _ & _ & Hquality & _ & Hsizes & _).
  split; [exact Hsizes | exact Hquality].
Defined.

Lemma client_contacted_for_own_entry_witness :
  (render_image example_integration example_call_data).1 = [example_request].
Proof.
  exact (proj1 (client_contacted_for_own_entry example_integration example_call_data
                  example_request example_request_sent)).
Defined.
